(** * Identity reconciler (NAD controller) and load-balancer reconciler

    A shallow embedding of two reconcilers of ovn-kubernetes:

    - [NAD]: [syncNAD] and [GetActiveNetworkForNamespace] of the network
      attachment definition controller (package networkAttachDefController);
    - [Loadbalancer]: [EnsureLBs], [mapLBDifferenceByKey], [buildLB] and
      [LoadBalancersEqualNoUUID] of package loadbalancer.

    Go maps are [gmap]s and [sets.String] is [gset string]; a slice is a
    list, except in the fields of a desired load balancer, where nil and
    empty are kept apart because [reflect.DeepEqual] tells them apart. A Go
    map read [m[k]] of a [map[string]string] yields the empty string for an
    absent key; that read is [zeroLookup]. The definitions come first, the
    properties follow in [NADTheory] and [LBTheory]. *)

From Stdlib Require Import Ascii.
From stdpp Require Import gmap strings list pretty.


(** [m[k]] on a Go [map[string]string]: the zero value for a missing key. *)
Definition zeroLookup (m : gmap string string) (k : string) : string :=
  default EmptyString (m !! k).

Module NAD.

(** ** Keys *)

(** [strings.Split(s, sep)] for a one-byte separator. *)
Fixpoint splitOn (sep : Ascii.ascii) (s : string) : list string :=
  match s with
  | EmptyString => [EmptyString]
  | String c s' =>
      if Ascii.eqb c sep then EmptyString :: splitOn sep s'
      else match splitOn sep s' with
           | p :: ps => String c p :: ps
           | [] => [String c EmptyString]
           end
  end.

(** client-go's [cache.SplitMetaNamespaceKey]: one part is a name without
    namespace, two parts are namespace and name, anything else is an error
    ([None]). *)
Definition SplitMetaNamespaceKey (key : string) : option (string * string) :=
  match splitOn "/"%char key with
  | [name] => Some (EmptyString, name)
  | [namespace; name] => Some (namespace, name)
  | _ => None
  end.

(** ** Networks *)

(** Modelled from the spec: the structural configuration of util.NetInfo
    (the network types of package util are not embedded here).
    The spec lists topology type, subnet, MTU and role, compared by value;
    the role decides whether the network is primary. *)
Record NetConf := mkNetConf {
  topologyType : string;
  subnet : string;
  mtu : Z;
  rolePrimary : bool;
}.

#[global] Instance NetConf_eq_dec : EqDecision NetConf.
Proof. solve_decision. Defined.

(** Modelled from the spec: util.NetInfo, a network descriptor: its name,
    its configuration and the set of declaration keys referencing it. *)
Record NetInfo := mkNetInfo {
  netName : string;
  netConf : NetConf;
  netNADs : gset string;
}.

#[global] Instance NetInfo_eq_dec : EqDecision NetInfo.
Proof. solve_decision. Defined.

(** Modelled from the spec: the methods of util.NetInfo the controller
    calls; the three that mutate return the changed network. *)
Definition GetNetworkName (n : NetInfo) : string := netName n.
Definition IsPrimaryNetwork (n : NetInfo) : bool := rolePrimary (netConf n).
Definition GetNADs (n : NetInfo) : gset string := netNADs n.

Definition AddNADs (key : string) (n : NetInfo) : NetInfo :=
  mkNetInfo (netName n) (netConf n) ({[ key ]} ∪ netNADs n).

Definition DeleteNADs (key : string) (n : NetInfo) : NetInfo :=
  mkNetInfo (netName n) (netConf n) (netNADs n ∖ {[ key ]}).

Definition SetNADs (key : string) (n : NetInfo) : NetInfo :=
  mkNetInfo (netName n) (netConf n) {[ key ]}.

(** Modelled from the spec: NetInfo.Equals, compatibility of two networks:
    their configurations are equal, whichever declaration keys reference
    them. The argument may be nil (no parsed network), which equals no
    network. *)
Definition Equals (n : NetInfo) (other : option NetInfo) : bool :=
  match other with
  | Some o => bool_decide (netConf n = netConf o)
  | None => false
  end.

(** ** Network manager *)

(** Modelled from the spec: the network manager (its implementation is not
    embedded here) answers which network has a name and is
    told to ensure or delete networks; it is the map from names to the
    networks last ensured. syncNAD mutates the network object it got from
    [getNetwork] and then always hands that object back through
    [EnsureNetwork] or removes it through [DeleteNetwork] before the manager
    is read again, so values and shared objects give the same manager. *)
Definition getNetwork (nm : gmap string NetInfo) (name : string) : option NetInfo :=
  nm !! name.

Definition EnsureNetwork (n : NetInfo) (nm : gmap string NetInfo) : gmap string NetInfo :=
  <[ GetNetworkName n := n ]> nm.

Definition DeleteNetwork (name : string) (nm : gmap string NetInfo) : gmap string NetInfo :=
  delete name nm.

(** The calls syncNAD makes on the network manager, in order. *)
Inductive NMCall :=
  | CallEnsureNetwork (n : NetInfo)
  | CallDeleteNetwork (name : string).

#[global] Instance NMCall_eq_dec : EqDecision NMCall.
Proof. solve_decision. Defined.

(** ** Controller state *)

Record nadController := mkController {
  nads : gmap string string;
  primaryNADs : gmap string string;
  networkManager : gmap string NetInfo;
}.

(** [newNADController]: both maps empty, no network ensured yet. *)
Definition newNADController : nadController := mkController ∅ ∅ ∅.

Inductive SyncError :=
  | ErrSplitKey (key : string)
  | ErrPrimaryConflict (primaryNAD key : string)
  | ErrConfigMismatch (key networkName : string).

#[global] Instance SyncError_eq_dec : EqDecision SyncError.
Proof. solve_decision. Defined.

(** What one syncNAD call leaves behind: the controller, the network
    manager calls it made, and the error it returned. *)
Record SyncResult := mkResult {
  after : nadController;
  calls : list NMCall;
  failure : option SyncError;
}.

(** Lines 330-340: drop [key] from the old network, then delete the network
    when nothing references it any more, re-ensure it otherwise. *)
Definition detachOld (key : string) (oldNetwork : option NetInfo)
    (nm : gmap string NetInfo) : gmap string NetInfo * list NMCall :=
  match oldNetwork with
  | None => (nm, [])
  | Some old =>
      let oldNetworkName := GetNetworkName old in
      let old' := DeleteNADs key old in
      if decide (GetNADs old' = ∅)
      then (DeleteNetwork oldNetworkName nm, [CallDeleteNetwork oldNetworkName])
      else (EnsureNetwork old' nm, [CallEnsureNetwork old'])
  end.

(** Lines 305-328: the switch choosing the old network to detach from, the
    network to ensure and the error. [sets.New(key).HasAll(GetNADs()...)] is
    inclusion of the references in the singleton of [key]. *)
Definition resolve (key nadNetworkName : string) (nadNetwork oldNetwork : option NetInfo)
    (currentNetwork : option NetInfo)
    : option NetInfo * option NetInfo * option SyncError :=
  match currentNetwork with
  | None => (oldNetwork, nadNetwork, None)
  | Some current =>
      if Equals current nadNetwork then (oldNetwork, Some current, None)
      else if decide (GetNADs current ⊆ {[ key ]}) then (Some current, nadNetwork, None)
      else match oldNetwork with
           | None => (Some current, None, Some (ErrConfigMismatch key nadNetworkName))
           | Some _ => (oldNetwork, None, Some (ErrConfigMismatch key nadNetworkName))
           end
  end.

(** Lines 343-349 and 355-362: the primary entry of a namespace is dropped
    when it is this key. *)
Definition clearPrimary (namespace key : string) (p : gmap string string)
    : gmap string string :=
  if decide (zeroLookup p namespace = key) then delete namespace p else p.

Section Controller.

(** The declaration objects and their parser: util.ParseNADInfo is not
    embedded and is taken as a parameter; [None] is a parse
    error. *)
Variable NetworkAttachmentDefinition : Type.
Variable ParseNADInfo : NetworkAttachmentDefinition → option NetInfo.

(** Lines 286-287: the primary-conflict guard. *)
Definition primaryConflict (c : nadController) (namespace key : string)
    (nadNetwork : option NetInfo) : bool :=
  let primaryNAD := zeroLookup (primaryNADs c) namespace in
  match nadNetwork with
  | Some n =>
      IsPrimaryNetwork n && bool_decide (primaryNAD ≠ EmptyString)
        && bool_decide (primaryNAD ≠ key)
  | None => false
  end.

(** Lines 330-366: detach from the old network, then either forget the key
    (nothing to ensure) or bind it to the network to ensure. *)
Definition settle (key namespace : string) (oldNetwork ensureNetwork : option NetInfo)
    (err : option SyncError) (c : nadController) : SyncResult :=
  let '(nm1, calls1) := detachOld key oldNetwork (networkManager c) in
  match ensureNetwork with
  | None =>
      mkResult
        (mkController (delete key (nads c))
                      (clearPrimary namespace key (primaryNADs c)) nm1)
        calls1 err
  | Some ensure =>
      let ensure' := AddNADs key ensure in
      let nads' := <[ key := GetNetworkName ensure' ]> (nads c) in
      let primary' :=
        if IsPrimaryNetwork ensure'
        then <[ namespace := key ]> (primaryNADs c)
        else clearPrimary namespace key (primaryNADs c) in
      mkResult
        (mkController nads' primary' (EnsureNetwork ensure' nm1))
        (calls1 ++ [CallEnsureNetwork ensure']) None
  end.

(** Lines 298-301: the network the key was bound to, when the declaration
    now names another one. *)
Definition previousNetwork (key nadNetworkName : string) (c : nadController)
    : option NetInfo :=
  if decide (nadNetworkName ≠ zeroLookup (nads c) key)
  then getNetwork (networkManager c) (zeroLookup (nads c) key)
  else None.

(** Lines 283-366, once the key is split and the declaration parsed. *)
Definition syncParsed (key namespace : string) (nadNetwork : option NetInfo)
    (c : nadController) : SyncResult :=
  let nadNetworkName := from_option GetNetworkName EmptyString nadNetwork in
  let primaryNAD := zeroLookup (primaryNADs c) namespace in
  if primaryConflict c namespace key nadNetwork
  then mkResult c [] (Some (ErrPrimaryConflict primaryNAD key))
  else
    let oldNetwork := previousNetwork key nadNetworkName c in
    let currentNetwork := getNetwork (networkManager c) nadNetworkName in
    let '(oldNetwork, ensureNetwork, err) :=
      resolve key nadNetworkName nadNetwork oldNetwork currentNetwork in
    settle key namespace oldNetwork ensureNetwork err c.

(** [syncNAD key nad]: [nad = None] is the deleted declaration. A key that
    does not split is an error; a declaration that does not parse is
    logged and skipped with no error. *)
Definition syncNAD (key : string) (nad : option NetworkAttachmentDefinition)
    (c : nadController) : SyncResult :=
  match SplitMetaNamespaceKey key with
  | None => mkResult c [] (Some (ErrSplitKey key))
  | Some (namespace, _) =>
      match nad with
      | None => syncParsed key namespace None c
      | Some d =>
          match ParseNADInfo d with
          | None => mkResult c [] None
          | Some nadNetwork => syncParsed key namespace (Some nadNetwork) c
          end
      end
  end.

(** A run of the reconciler: the declarations delivered, in order, each as
    one syncNAD call. *)
Definition syncMany (events : list (string * option NetworkAttachmentDefinition))
    (c : nadController) : nadController :=
  foldl (λ c ev, after (syncNAD ev.1 ev.2 c)) c events.

(** The controller states syncNAD calls can produce from a new controller. *)
Inductive reachable : nadController → Prop :=
  | reachable_new : reachable newNADController
  | reachable_sync key nad c :
      reachable c → reachable (after (syncNAD key nad c)).

End Controller.

Arguments syncNAD {_} _ _ _ _.
Arguments syncMany {_} _ _ _.
Arguments reachable {_} _ _.

(** ** Active network of a namespace *)

(** Modelled from the spec: a user defined network as the lister returns
    it, reduced to its name and to what util.IsPrimaryNetwork answers on its
    spec. *)
Record UserDefinedNetwork := mkUDN {
  udnName : string;
  udnPrimary : bool;
}.

(** [udnLister.UserDefinedNetworks(namespace).List]: the networks or an
    error. *)
Inductive ListResult :=
  | ListOk (udns : list UserDefinedNetwork)
  | ListFailed (cause : string).

(** Modelled from the spec: the util.NetInfo handed back, either the default
    (cluster-wide) network placeholder [&util.DefaultNetInfo{}] or a network
    of the manager. *)
Inductive ActiveNetwork :=
  | DefaultNetInfo
  | Secondary (n : NetInfo).

(** The two errors: the wrapped listing error and, modelled from the spec,
    util.NewUnprocessedActiveNetworkError, the condition a caller retries
    on. *)
Inductive ActiveError :=
  | ErrGettingUDNs (cause : string)
  | ErrUnprocessedActiveNetwork (namespace udn : string).

(** How a call ends: a network, an error, the explicit panic of line 398,
    or the nil dereference of copying a network the manager does not
    have. *)
Inductive Outcome :=
  | Returns (n : ActiveNetwork)
  | Fails (e : ActiveError)
  | PanicBrokenConsistency
  | PanicNilNetwork.

(** What a call does besides computing: the read lock and the two
    collaborators it asks. *)
Inductive Effect :=
  | RLock
  | RUnlock
  | AskGetNetwork (name : string)
  | AskListUDNs (namespace : string).

(** Modelled from the spec: util.CopyNetInfo; networks are values here, so
    the copy is the network. *)
Definition CopyNetInfo (n : NetInfo) : NetInfo := n.

(** The first primary network of the listing, as the loop of lines 412-416
    finds it. *)
Definition firstPrimaryUDN (udns : list UserDefinedNetwork) : option UserDefinedNetwork :=
  List.find udnPrimary udns.

(** [GetActiveNetworkForNamespace]; [segmentation] is what
    util.IsNetworkSegmentationSupportEnabled answers. *)
Definition GetActiveNetworkForNamespace (segmentation : bool)
    (udnLister : string → ListResult) (c : nadController) (namespace : string)
    : Outcome * list Effect :=
  if negb segmentation then (Returns DefaultNetInfo, [])
  else
    let primaryNAD := zeroLookup (primaryNADs c) namespace in
    if decide (primaryNAD ≠ EmptyString) then
      let netName := zeroLookup (nads c) primaryNAD in
      if decide (netName = EmptyString) then (PanicBrokenConsistency, [RLock; RUnlock])
      else
        match getNetwork (networkManager c) netName with
        | None => (PanicNilNetwork, [RLock; AskGetNetwork netName; RUnlock])
        | Some network =>
            (Returns (Secondary (SetNADs primaryNAD (CopyNetInfo network))),
             [RLock; AskGetNetwork netName; RUnlock])
        end
    else
      match udnLister namespace with
      | ListFailed cause =>
          (Fails (ErrGettingUDNs cause), [RLock; AskListUDNs namespace; RUnlock])
      | ListOk udns =>
          match firstPrimaryUDN udns with
          | Some udn =>
              (Fails (ErrUnprocessedActiveNetwork namespace (udnName udn)),
               [RLock; AskListUDNs namespace; RUnlock])
          | None =>
              (Returns DefaultNetInfo, [RLock; AskListUDNs namespace; RUnlock])
          end
      end.

(** ** Consistency of the registry *)

(** The registry and the network manager agree: a network is kept under
    its own name, which is not empty; a key of [nads] is referenced by the
    network it is bound to; a primary key belongs to the namespace it is
    recorded for and is a key of [nads]. *)
Record consistent (c : nadController) : Prop := mkConsistent {
  manager_keyed : ∀ name net,
    networkManager c !! name = Some net → GetNetworkName net = name;
  manager_named : networkManager c !! EmptyString = None;
  nads_referenced : ∀ key name,
    nads c !! key = Some name →
    ∃ net, networkManager c !! name = Some net ∧ key ∈ GetNADs net;
  primary_tracked : ∀ namespace key,
    primaryNADs c !! namespace = Some key →
    (∃ name, SplitMetaNamespaceKey key = Some (namespace, name)) ∧
    is_Some (nads c !! key);
}.

(** The reference sets are exact: a network references only keys bound to
    it, and at least one. *)
Record exact (c : nadController) : Prop := mkExact {
  references_bound : ∀ name net key,
    networkManager c !! name = Some net → key ∈ GetNADs net →
    nads c !! key = Some name;
  references_nonempty : ∀ name net,
    networkManager c !! name = Some net → GetNADs net ≠ ∅;
}.

(** What the switch hands to the rest of syncNAD in a consistent registry:
    an old network that the manager has, and a network to ensure that has
    a name and references every other key bound to that name. *)
Definition sound (c : nadController) (key : string)
    (oldNetwork ensureNetwork : option NetInfo) : Prop :=
  (∀ old, oldNetwork = Some old →
     networkManager c !! GetNetworkName old = Some old) ∧
  (∀ ensure, ensureNetwork = Some ensure →
     GetNetworkName ensure ≠ EmptyString ∧
     ∀ k, k ≠ key → nads c !! k = Some (GetNetworkName ensure) →
          k ∈ GetNADs ensure).

(** Sample declarations for the closed examples: a declaration is a
    network name and a configuration; it parses unless the name is empty,
    to a network nothing references yet. *)
Definition sampleParse (d : string * NetConf) : option NetInfo :=
  if decide (d.1 = EmptyString) then None else Some (mkNetInfo d.1 d.2 ∅).

Definition layer3 (name subnet : string) (primary : bool) : string * NetConf :=
  (name, mkNetConf "layer3" subnet 1400 primary).

(** [ns/a] joined network [n1] and [ns/b] became the primary declaration
    of namespace [ns]. *)
Definition twoDeclarations : nadController :=
  syncMany sampleParse
    [("ns/a"%string, Some (layer3 "n1" "10.0.0.0/16" false));
     ("ns/b"%string, Some (layer3 "p" "10.1.0.0/16" true))]
    newNADController.

(** [ns/a] and [ns/c] share network [n1], and [ns/b] is the primary
    declaration of namespace [ns]. *)
Definition sharedNetwork : nadController :=
  syncMany sampleParse
    [("ns/a"%string, Some (layer3 "n1" "10.0.0.0/16" false));
     ("ns/c"%string, Some (layer3 "n1" "10.0.0.0/16" false));
     ("ns/b"%string, Some (layer3 "p" "10.1.0.0/16" true))]
    newNADController.

(** ** Delivery of declarations *)

(** Why [syncAll] stops: the listing failed, or a declaration failed to
    sync. *)
Inductive SyncAllError :=
  | ErrListNADs (cause : string)
  | ErrSyncNAD (key : string) (e : SyncError).

Record SyncAllResult := mkAllResult {
  afterAll : nadController;
  callsAll : list NMCall;
  failureAll : option SyncAllError;
}.

(** What [netAttachDefLister.NetworkAttachmentDefinitions(ns).Get(name)]
    answers: the declaration, a not-found error, or another error. *)
Inductive GetResult (A : Type) :=
  | Found (nad : A)
  | NotFound
  | GetFailed (cause : string).
Arguments Found {_} _.
Arguments NotFound {_}.
Arguments GetFailed {_} _.

(** Why [sync] fails: the lister failed, or syncNAD did. *)
Inductive SyncKeyError :=
  | ErrGet (cause : string)
  | ErrSync (e : SyncError).

Record SyncKeyResult := mkKeyResult {
  afterKey : nadController;
  callsKey : list NMCall;
  failureKey : option SyncKeyError;
}.

Section Delivery.

Variable NetworkAttachmentDefinition : Type.
Variable ParseNADInfo : NetworkAttachmentDefinition → option NetInfo.

(** client-go's [cache.MetaNamespaceKeyFunc] on a declaration, a
    parameter: the key, or [None] when no key can be derived. *)
Variable MetaNamespaceKeyFunc : NetworkAttachmentDefinition → option string.

(** The loop of [syncAll] (lines 224-234): a declaration without a key is
    skipped, the first failing sync ends the loop. *)
Fixpoint syncEach (existingNADs : list NetworkAttachmentDefinition)
    (c : nadController) : SyncAllResult :=
  match existingNADs with
  | [] => mkAllResult c [] None
  | nad :: rest =>
      match MetaNamespaceKeyFunc nad with
      | None => syncEach rest c
      | Some key =>
          let r := syncNAD ParseNADInfo key (Some nad) c in
          match failure r with
          | Some e => mkAllResult (after r) (calls r) (Some (ErrSyncNAD key e))
          | None =>
              let rest' := syncEach rest (after r) in
              mkAllResult (afterAll rest') (calls r ++ callsAll rest')
                          (failureAll rest')
          end
      end
  end.

(** [syncAll]; [listing] is what [netAttachDefLister.List] answers, the
    declarations or an error. *)
Definition syncAll (listing : string + list NetworkAttachmentDefinition)
    (c : nadController) : SyncAllResult :=
  match listing with
  | inl cause => mkAllResult c [] (Some (ErrListNADs cause))
  | inr existingNADs => syncEach existingNADs c
  end.

(** [sync]: a key that does not split is logged and dropped with no error;
    a lister error other than not-found is returned; a declaration that is
    not found is synced as deleted. *)
Definition sync (lister : string → string → GetResult NetworkAttachmentDefinition)
    (key : string) (c : nadController) : SyncKeyResult :=
  match SplitMetaNamespaceKey key with
  | None => mkKeyResult c [] None
  | Some (namespace, name) =>
      match lister namespace name with
      | GetFailed cause => mkKeyResult c [] (Some (ErrGet cause))
      | Found nad =>
          let r := syncNAD ParseNADInfo key (Some nad) c in
          mkKeyResult (after r) (calls r) (ErrSync <$> failure r)
      | NotFound =>
          let r := syncNAD ParseNADInfo key None c in
          mkKeyResult (after r) (calls r) (ErrSync <$> failure r)
      end
  end.

End Delivery.

Arguments syncEach {_} _ _ _ _.
Arguments syncAll {_} _ _ _ _.
Arguments sync {_} _ _ _ _.

(** ** Update filter *)

(** What [nadNeedsUpdate] reads of a declaration object: its resource
    version, whether its deletion timestamp is zero
    ([GetDeletionTimestamp().IsZero()]), the configuration its spec holds
    (the only field of the spec) and its annotations. *)
Record NADObject := mkNADObject {
  ResourceVersion : string;
  DeletionTimestampIsZero : bool;
  SpecConfig : string;
  Annotations : gmap string string;
}.

(** [nadNeedsUpdate]; the annotation key [types.OvnRouteAdvertisementsKey]
    is a parameter, and a missing annotation reads as the empty string. *)
Definition nadNeedsUpdate (OvnRouteAdvertisementsKey : string)
    (oldNAD newNAD : option NADObject) : bool :=
  match oldNAD, newNAD with
  | Some o, Some n =>
      if bool_decide (ResourceVersion o = ResourceVersion n)
         || negb (DeletionTimestampIsZero n)
      then false
      else
        negb (bool_decide (SpecConfig o = SpecConfig n))
        || negb (bool_decide
                   (zeroLookup (Annotations o) OvnRouteAdvertisementsKey
                    = zeroLookup (Annotations n) OvnRouteAdvertisementsKey))
  | _, _ => true
  end.

(** ** More samples *)

(** The key of a sample declaration: sample declarations are delivered
    under the key [ns/] followed by their network name. *)
Definition sampleKey (d : string * NetConf) : option string :=
  Some (String.append "ns/" d.1).

(** ** Primary networks of the registry *)

(** The primary entries and the primary networks agree: the recorded
    primary key of a namespace is bound to a primary network, and a
    non-empty key bound to a primary network is the recorded primary of its
    namespace. *)
Record primaryExact (c : nadController) : Prop := mkPrimaryExact {
  primary_is_primary : ∀ namespace key,
    primaryNADs c !! namespace = Some key →
    ∃ name net,
      nads c !! key = Some name ∧ networkManager c !! name = Some net ∧
      IsPrimaryNetwork net = true;
  primary_recorded : ∀ key namespace name networkName net,
    key ≠ EmptyString →
    SplitMetaNamespaceKey key = Some (namespace, name) →
    nads c !! key = Some networkName →
    networkManager c !! networkName = Some net →
    IsPrimaryNetwork net = true →
    primaryNADs c !! namespace = Some key;
}.

End NAD.

(** * The earlier NAD controller *)

(** The earlier version of the controller keeps its own registry of
    networks, [c.networks], beside [c.nads]; it has no primary networks and
    its keys are not split. *)
Module LegacyNAD.
Import NAD.

Record NADController := mkNADController {
  networks : gmap string NetInfo;
  nads : gmap string string;
}.

(** [newNADController]: both maps empty. *)
Definition newNADController : NADController := mkNADController ∅ ∅.

Record SyncResult := mkResult {
  after : NADController;
  calls : list NMCall;
  failure : option SyncError;
}.

(** The switch of [syncNAD]. The registry holds pointers, so the old
    network comes with the key of [c.networks] it was read under, where
    [DeleteNADs] will be seen, and the network to ensure comes with
    whether it is the object kept under the declaration's network name,
    where [AddNADs] will be seen. A new network is put in the registry
    at once; the network of a re-created one is not. Storing the nil
    network of a deletion reads back as no entry. *)
Definition resolve (key nadNetworkName : string) (nadNetwork : option NetInfo)
    (oldNetwork : option (string * NetInfo)) (registry : gmap string NetInfo)
    : gmap string NetInfo * option (string * NetInfo) * option (bool * NetInfo)
      * option SyncError :=
  match registry !! nadNetworkName with
  | None =>
      (from_option (λ n, <[ nadNetworkName := n ]> registry) registry nadNetwork,
       oldNetwork, (λ n, (true, n)) <$> nadNetwork, None)
  | Some current =>
      if Equals current nadNetwork
      then (registry, oldNetwork, Some (true, current), None)
      else if decide (GetNADs current ⊆ {[ key ]})
      then (registry, Some (nadNetworkName, current),
            (λ n, (false, n)) <$> nadNetwork, None)
      else match oldNetwork with
           | None =>
               (registry, Some (nadNetworkName, current), None,
                Some (ErrConfigMismatch key nadNetworkName))
           | Some _ =>
               (registry, oldNetwork, None,
                Some (ErrConfigMismatch key nadNetworkName))
           end
  end.

(** The key is dropped from the old network, in place; the network is
    deleted from the manager and, by its name, from the registry when
    nothing references it any more, and re-ensured otherwise. *)
Definition detachOld (key : string) (oldNetwork : option (string * NetInfo))
    (registry : gmap string NetInfo) : gmap string NetInfo * list NMCall :=
  match oldNetwork with
  | None => (registry, [])
  | Some (readUnder, old) =>
      let oldNetworkName := GetNetworkName old in
      let old' := DeleteNADs key old in
      let registry' := <[ readUnder := old' ]> registry in
      if decide (GetNADs old' = ∅)
      then (delete oldNetworkName registry', [CallDeleteNetwork oldNetworkName])
      else (registry', [CallEnsureNetwork old'])
  end.

Section Controller.

Variable NetworkAttachmentDefinition : Type.
Variable ParseNADInfo : NetworkAttachmentDefinition → option NetInfo.

(** [syncNAD] once the declaration is parsed. *)
Definition syncParsed (key : string) (nadNetwork : option NetInfo)
    (c : NADController) : SyncResult :=
  let nadNetworkName := from_option GetNetworkName EmptyString nadNetwork in
  let bound := zeroLookup (nads c) key in
  let oldNetwork :=
    if decide (nadNetworkName ≠ bound)
    then (λ n, (bound, n)) <$> networks c !! bound
    else None in
  let '(registry, oldNetwork, ensureNetwork, err) :=
    resolve key nadNetworkName nadNetwork oldNetwork (networks c) in
  let '(registry, calls1) := detachOld key oldNetwork registry in
  match ensureNetwork with
  | None => mkResult (mkNADController registry (delete key (nads c))) calls1 err
  | Some (kept, ensure) =>
      let ensure' := AddNADs key ensure in
      let registry' :=
        if kept then alter (AddNADs key) nadNetworkName registry else registry in
      mkResult
        (mkNADController registry' (<[ key := GetNetworkName ensure' ]> (nads c)))
        (calls1 ++ [CallEnsureNetwork ensure']) err
  end.

(** [syncNAD key nad]: [nad = None] is the deleted declaration; a
    declaration that does not parse is logged and skipped with no
    error. *)
Definition syncNAD (key : string) (nad : option NetworkAttachmentDefinition)
    (c : NADController) : SyncResult :=
  match nad with
  | None => syncParsed key None c
  | Some d =>
      match ParseNADInfo d with
      | None => mkResult c [] None
      | Some nadNetwork => syncParsed key (Some nadNetwork) c
      end
  end.

End Controller.

Arguments syncNAD {_} _ _ _ _.

End LegacyNAD.

Module Loadbalancer.

(** ** Go values *)

(** A Go slice is nil or holds elements; [reflect.DeepEqual] tells a nil
    slice from an empty one, so the model keeps them apart. *)
Inductive slice (A : Type) :=
  | nilSlice
  | mkSlice (elems : list A).
Arguments nilSlice {_}.
Arguments mkSlice {_} _.

Definition elemsOf {A} (s : slice A) : list A :=
  match s with
  | nilSlice => []
  | mkSlice l => l
  end.

#[global] Instance slice_eq_dec `{EqDecision A} : EqDecision (slice A).
Proof. solve_decision. Defined.

(** A Go [map[string]string] is nil or a map, for the same reason. *)
Inductive gomap :=
  | nilMap
  | mkMap (entries : gmap string string).

Definition entriesOf (m : gomap) : gmap string string :=
  match m with
  | nilMap => ∅
  | mkMap e => e
  end.

#[global] Instance gomap_eq_dec : EqDecision gomap.
Proof. solve_decision. Defined.

(** ** Desired load balancers *)

(** Modelled from the spec: the types [Addr], [LBRule], [LBOpts] and [LB] of
    the package are declared in a file that is not embedded here. A rule maps a
    source VIP to an ordered list of target endpoints; the options are the
    unidling, session-affinity and skip-NAT flags. *)
Record Addr := mkAddr {
  IP : string;
  Port : Z;
}.

#[global] Instance Addr_eq_dec : EqDecision Addr.
Proof. solve_decision. Defined.

Record LBRule := mkLBRule {
  Source : Addr;
  Targets : slice Addr;
}.

#[global] Instance LBRule_eq_dec : EqDecision LBRule.
Proof. solve_decision. Defined.

Record LBOpts := mkLBOpts {
  Unidling : bool;
  Affinity : bool;
  SkipSNAT : bool;
}.

#[global] Instance LBOpts_eq_dec : EqDecision LBOpts.
Proof. solve_decision. Defined.

Record LB := mkLB {
  Name : string;
  UUID : string;
  Protocol : string;
  ExternalIDs : gomap;
  Opts : LBOpts;
  Rules : slice LBRule;
  Switches : slice string;
  Routers : slice string;
  Groups : slice string;
}.

#[global] Instance LB_eq_dec : EqDecision LB.
Proof. solve_decision. Defined.

(** The zero value of [LB], as [make([]LB, n)] fills a slice with. *)
Definition zeroLB : LB :=
  mkLB EmptyString EmptyString EmptyString nilMap (mkLBOpts false false false)
       nilSlice nilSlice nilSlice nilSlice.

(** The UUID of the loop's copy of an element is set to the empty
    string. *)
Definition clearUUID (lb : LB) : LB :=
  mkLB (Name lb) EmptyString (Protocol lb) (ExternalIDs lb) (Opts lb) (Rules lb)
       (Switches lb) (Routers lb) (Groups lb).

Definition withUUID (uuid : string) (lb : LB) : LB :=
  mkLB (Name lb) uuid (Protocol lb) (ExternalIDs lb) (Opts lb) (Rules lb)
       (Switches lb) (Routers lb) (Groups lb).

(** [LoadBalancersEqualNoUUID]: [new1] and [new2] start as [len] zero
    values ([make([]LB, len(lbs))]) and the cleared copies are appended
    after them; [reflect.DeepEqual] on the two slices is equality of the
    lists. *)
Definition LoadBalancersEqualNoUUID (lbs1 lbs2 : list LB) : bool :=
  if decide (length lbs1 ≠ length lbs2) then false
  else
    let new1 := replicate (length lbs1) zeroLB ++ (clearUUID <$> lbs1) in
    let new2 := replicate (length lbs2) zeroLB ++ (clearUUID <$> lbs2) in
    bool_decide (new1 = new2).

(** Two desired load balancers agree on every field but the UUID. *)
Definition equalNoUUID (lb1 lb2 : LB) : Prop :=
  Name lb1 = Name lb2 ∧ Protocol lb1 = Protocol lb2 ∧
  ExternalIDs lb1 = ExternalIDs lb2 ∧ Opts lb1 = Opts lb2 ∧
  Rules lb1 = Rules lb2 ∧ Switches lb1 = Switches lb2 ∧
  Routers lb1 = Routers lb2 ∧ Groups lb1 = Groups lb2.

(** ** Database rows *)

(** Modelled from the spec: the generated nbdb row types are not
    embedded here; a load-balancer row has a UUID, a name and its
    content, a switch, router or group row has a UUID, a name and the UUIDs
    of the load balancers attached to it. *)
Record LoadBalancer := mkLoadBalancer {
  lbUUID : string;
  lbName : string;
  lbProtocol : option string;
  lbSelectionFields : list string;
  lbVips : gmap string string;
  lbOptions : gmap string string;
  lbExternalIDs : gmap string string;
}.

#[global] Instance LoadBalancer_eq_dec : EqDecision LoadBalancer.
Proof. solve_decision. Defined.

Definition setUUID (uuid : string) (lb : LoadBalancer) : LoadBalancer :=
  mkLoadBalancer uuid (lbName lb) (lbProtocol lb) (lbSelectionFields lb)
                 (lbVips lb) (lbOptions lb) (lbExternalIDs lb).

(** A logical switch, logical router or load-balancer group row. *)
Record Target := mkTarget {
  targetUUID : string;
  targetName : string;
  targetLoadBalancer : list string;
}.

#[global] Instance Target_eq_dec : EqDecision Target.
Proof. solve_decision. Defined.

(** Modelled from the spec: the store as EnsureLBs reads it: the
    load-balancer rows, and the answers of the three listings
    (ListSwitchesWithLoadBalancers, ListRoutersWithLoadBalancers,
    ListGroupsWithLoadBalancers), [None] when a listing fails. *)
Record Client := mkClient {
  loadBalancerRows : list LoadBalancer;
  switchRows : option (list Target);
  routerRows : option (list Target);
  groupRows : option (list Target);
}.

(** Modelled from the spec: libovsdbops.FindLoadBalancersByExternalIDs, the
    rows matching the ownership tag: every pair of the tag is among the
    row's external IDs. *)
Definition FindLoadBalancersByExternalIDs (nbClient : Client)
    (externalIDs : gmap string string) : list LoadBalancer :=
  filter (λ row, map_Forall (λ k v, lbExternalIDs row !! k = Some v) externalIDs)
         (loadBalancerRows nbClient).

(** Modelled from the spec: the operations of a transaction, one per row
    update, row creation, attachment change of a target and row deletion,
    as the builders of libovsdbops (not embedded here) queue
    them. *)
Inductive Operation :=
  | OpUpdateLoadBalancer (lb : LoadBalancer)
  | OpCreateLoadBalancer (lb : LoadBalancer)
  | OpAddLoadBalancersToSwitch (target : Target) (lbs : list LoadBalancer)
  | OpRemoveLoadBalancersFromSwitch (target : Target) (lbs : list LoadBalancer)
  | OpAddLoadBalancersToRouter (target : Target) (lbs : list LoadBalancer)
  | OpRemoveLoadBalancersFromRouter (target : Target) (lbs : list LoadBalancer)
  | OpAddLoadBalancersToGroup (target : Target) (lbs : list LoadBalancer)
  | OpRemoveLoadBalancersFromGroup (target : Target) (lbs : list LoadBalancer)
  | OpDeleteLoadBalancer (lb : LoadBalancer).

#[global] Instance Operation_eq_dec : EqDecision Operation.
Proof. solve_decision. Defined.

(** ** Attachment snapshots *)

(** The body shared by [listSwitches], [listRouters] and [listGroups]: rows
    without a name are skipped; the result maps a load-balancer UUID to the
    names of the rows listing it, and a row name to the row's UUID. *)
Definition listRows (rows : list Target)
    : gmap string (gset string) * gmap string string :=
  foldl (λ acc row,
           let '(lbToNames, nameToUUID) := acc in
           if decide (targetName row = EmptyString) then (lbToNames, nameToUUID)
           else
             (foldl (λ m lbUUID,
                       <[ lbUUID := default ∅ (m !! lbUUID) ∪ {[ targetName row ]} ]> m)
                    lbToNames (targetLoadBalancer row),
              <[ targetName row := targetUUID row ]> nameToUUID))
        (∅, ∅) rows.

Definition listSwitches (nbClient : Client)
    : option (gmap string (gset string) * gmap string string) :=
  listRows <$> switchRows nbClient.

Definition listRouters (nbClient : Client)
    : option (gmap string (gset string) * gmap string string) :=
  listRows <$> routerRows nbClient.

Definition listGroups (nbClient : Client)
    : option (gmap string (gset string) * gmap string string) :=
  listRows <$> groupRows nbClient.

(** ** Differences *)

(** The loop body of [mapLBDifferenceByKey]: [lb] is appended to the list
    kept under [k], an absent list counting as empty. *)
Definition appendUnder (lb : LoadBalancer) (keyMap : gmap string (list LoadBalancer))
    (k : string) : gmap string (list LoadBalancer) :=
  <[ k := default [] (keyMap !! k) ++ [lb] ]> keyMap.

(** [mapLBDifferenceByKey] over an explicit enumeration [keys] of the
    difference ([UnsortedList] promises no order). *)
Definition appendUnderAll (keyMap : gmap string (list LoadBalancer))
    (keys : list string) (lb : LoadBalancer) : gmap string (list LoadBalancer) :=
  foldl (appendUnder lb) keyMap keys.

Definition mapLBDifferenceByKey (keyMap : gmap string (list LoadBalancer))
    (keyIn keyNotIn : gset string) (lb : LoadBalancer)
    : gmap string (list LoadBalancer) :=
  appendUnderAll keyMap (elements (keyIn ∖ keyNotIn)) lb.

(** The names a desired list asks for, and the names a snapshot has the
    same-named existing row attached to (none without such a row). *)
Definition wanted (names : slice string) : gset string :=
  list_to_set (elemsOf names).

Definition attachedTo (lbToNames : gmap string (gset string))
    (existingLB : option LoadBalancer) : gset string :=
  from_option (λ e, default ∅ (lbToNames !! lbUUID e)) ∅ existingLB.

(** A difference map after one more load balancer: [lb] is appended under
    [target] when [target] is in the difference, nothing changes under
    [target] otherwise. *)
Definition appended (keyMap : gmap string (list LoadBalancer)) (target : string)
    (lb : LoadBalancer) (difference : gset string) : option (list LoadBalancer) :=
  if decide (target ∈ difference)
  then Some (default [] (keyMap !! target) ++ [lb])
  else keyMap !! target.

(** ** Existing rows by name *)

(** Lines 62-73: every listed row is put in [toDelete]; a row whose name is
    already in [existingByName] removes that entry, any other row enters
    under its name. *)
Definition indexRow (acc : gmap string LoadBalancer * gset string) (lb : LoadBalancer)
    : gmap string LoadBalancer * gset string :=
  let '(existingByName, toDelete) := acc in
  if decide (is_Some (existingByName !! lbName lb))
  then (delete (lbName lb) existingByName, toDelete ∪ {[ lbUUID lb ]})
  else (<[ lbName lb := lb ]> existingByName, toDelete ∪ {[ lbUUID lb ]}).

Definition indexExisting (existing : list LoadBalancer)
    : gmap string LoadBalancer * gset string :=
  foldl indexRow (∅, ∅) existing.

(** What the loop over the desired load balancers (lines 75-110)
    accumulates. *)
Record Plan := mkPlan {
  existinglbs : list LoadBalancer;
  newlbs : list LoadBalancer;
  addLBsToSwitch : gmap string (list LoadBalancer);
  removeLBsFromSwitch : gmap string (list LoadBalancer);
  addLBsToRouter : gmap string (list LoadBalancer);
  removesLBsFromRouter : gmap string (list LoadBalancer);
  addLBsToGroups : gmap string (list LoadBalancer);
  removeLBsFromGroups : gmap string (list LoadBalancer);
  toDelete : gset string;
}.

Definition emptyPlan (toDelete : gset string) : Plan :=
  mkPlan [] [] ∅ ∅ ∅ ∅ ∅ ∅ toDelete.

(** The stub [getSwitch], [getRouter] and [getGroup] build for a name. *)
Definition getTarget (nameToUUID : gmap string string) (name : string) : Target :=
  mkTarget (zeroLookup nameToUUID name) name [].

(** One operation per target of a difference map, as the loops over
    [addLBsToSwitch] and its siblings queue them. *)
Definition attachmentOps (op : Target → list LoadBalancer → Operation)
    (nameToUUID : gmap string string) (keyMap : gmap string (list LoadBalancer))
    : list Operation :=
  (λ kv, op (getTarget nameToUUID kv.1) kv.2) <$> map_to_list keyMap.

(** [&nbdb.LoadBalancer{UUID: uuid}] *)
Definition rowOfUUID (uuid : string) : LoadBalancer :=
  mkLoadBalancer uuid EmptyString None [] ∅ ∅ ∅.

(** The two selection-field constants of the generated nbdb package. *)
Definition LoadBalancerSelectionFieldsIPSrc : string := "ip_src".
Definition LoadBalancerSelectionFieldsIPDst : string := "ip_dst".

Section Reconciler.

(** [Addr.String] is declared with the types, in a file not embedded here,
    and [strings.ToLower] is the Go library's; both are parameters. *)
Variable Addr_String : Addr → string.
Variable ToLower : string → string.

(** [buildVipMap]: a later rule with the same source replaces an earlier
    one. *)
Definition buildVipMap (rules : slice LBRule) : gmap string string :=
  foldl (λ vipMap r,
           let tgts := Addr_String <$> elemsOf (Targets r) in
           <[ Addr_String (Source r) := String.concat ","%string tgts ]> vipMap)
        ∅ (elemsOf rules).

(** Modelled from the spec: libovsdbops.BuildLoadBalancer fills a row that
    has no UUID yet. *)
Definition BuildLoadBalancer (name protocol : string) (selectionFields : list string)
    (vips options : gmap string string) (externalIds : gomap) : LoadBalancer :=
  mkLoadBalancer EmptyString name (Some protocol) selectionFields vips options
                 (entriesOf externalIds).

Definition buildLB (lb : LB) : LoadBalancer :=
  let reject := if Unidling (Opts lb) then "false"%string else "true"%string in
  let event := if Unidling (Opts lb) then "true"%string else "false"%string in
  let skipSNAT := if SkipSNAT (Opts lb) then "true"%string else "false"%string in
  let options : gmap string string :=
    <[ "reject"%string := reject ]>
      (<[ "event"%string := event ]> (<[ "skip_snat"%string := skipSNAT ]> ∅)) in
  let selectionFields :=
    if Affinity (Opts lb)
    then [LoadBalancerSelectionFieldsIPSrc; LoadBalancerSelectionFieldsIPDst]
    else [] in
  let vips := buildVipMap (Rules lb) in
  BuildLoadBalancer (Name lb) (ToLower (Protocol lb)) selectionFields vips options
                    (ExternalIDs lb).

(** The row a desired load balancer is written to: the built row, under
    the UUID of the same-named existing row when there is one. *)
Definition rowFor (existingLB : option LoadBalancer) (lb : LB) : LoadBalancer :=
  from_option (λ e, setUUID (lbUUID e) (buildLB lb)) (buildLB lb) existingLB.

(** The body of the loop over the desired load balancers. *)
Definition planLB (existingByName : gmap string LoadBalancer)
    (lbToSwitchNames lbToRouterNames lbToGroupNames : gmap string (gset string))
    (p : Plan) (lb : LB) : Plan :=
  let blb := buildLB lb in
  let '(blb, existinglbs', newlbs', toDelete',
        existingRouters, existingSwitches, existingGroups) :=
    match existingByName !! Name lb with
    | Some existingLB =>
        let blb := setUUID (lbUUID existingLB) blb in
        (blb, existinglbs p ++ [blb], newlbs p,
         toDelete p ∖ {[ lbUUID existingLB ]},
         default ∅ (lbToRouterNames !! lbUUID existingLB),
         default ∅ (lbToSwitchNames !! lbUUID existingLB),
         default ∅ (lbToGroupNames !! lbUUID existingLB))
    | None =>
        (blb, existinglbs p, newlbs p ++ [blb], toDelete p,
         (∅ : gset string), (∅ : gset string), (∅ : gset string))
    end in
  let wantRouters : gset string := list_to_set (elemsOf (Routers lb)) in
  let wantSwitches : gset string := list_to_set (elemsOf (Switches lb)) in
  let wantGroups : gset string := list_to_set (elemsOf (Groups lb)) in
  mkPlan existinglbs' newlbs'
    (mapLBDifferenceByKey (addLBsToSwitch p) wantSwitches existingSwitches blb)
    (mapLBDifferenceByKey (removeLBsFromSwitch p) existingSwitches wantSwitches blb)
    (mapLBDifferenceByKey (addLBsToRouter p) wantRouters existingRouters blb)
    (mapLBDifferenceByKey (removesLBsFromRouter p) existingRouters wantRouters blb)
    (mapLBDifferenceByKey (addLBsToGroups p) wantGroups existingGroups blb)
    (mapLBDifferenceByKey (removeLBsFromGroups p) existingGroups wantGroups blb)
    toDelete'.

(** Lines 44-110: the plan computed from the rows under the tag, the three
    snapshots and the desired load balancers. *)
Definition planLBs (existing : list LoadBalancer)
    (lbToSwitchNames lbToRouterNames lbToGroupNames : gmap string (gset string))
    (LBs : list LB) : Plan :=
  let '(existingByName, toDelete) := indexExisting existing in
  foldl (planLB existingByName lbToSwitchNames lbToRouterNames lbToGroupNames)
        (emptyPlan toDelete) LBs.

(** Lines 112-201: the transaction built from a plan, in the order the
    operations are queued. *)
Definition planOps (switchNamesToUUID routerNamesToUUID groupNamesToUUID : gmap string string)
    (p : Plan) : list Operation :=
  (OpUpdateLoadBalancer <$> existinglbs p)
  ++ (OpCreateLoadBalancer <$> newlbs p)
  ++ attachmentOps OpAddLoadBalancersToSwitch switchNamesToUUID (addLBsToSwitch p)
  ++ attachmentOps OpRemoveLoadBalancersFromSwitch switchNamesToUUID (removeLBsFromSwitch p)
  ++ attachmentOps OpAddLoadBalancersToRouter routerNamesToUUID (addLBsToRouter p)
  ++ attachmentOps OpRemoveLoadBalancersFromRouter routerNamesToUUID (removesLBsFromRouter p)
  ++ attachmentOps OpAddLoadBalancersToGroup groupNamesToUUID (addLBsToGroups p)
  ++ attachmentOps OpRemoveLoadBalancersFromGroup groupNamesToUUID (removeLBsFromGroups p)
  ++ (OpDeleteLoadBalancer ∘ rowOfUUID <$> elements (toDelete p)).

(** [EnsureLBs]: the transaction handed to TransactAndCheck, or [None] when
    one of the three listings fails (the function returns that error before
    building anything). *)
Definition EnsureLBs (nbClient : Client) (externalIDs : gmap string string)
    (LBs : list LB) : option (list Operation) :=
  let existing := FindLoadBalancersByExternalIDs nbClient externalIDs in
  '(lbToSwitchNames, switchNamesToUUID) ← listSwitches nbClient;
  '(lbToRouterNames, routerNamesToUUID) ← listRouters nbClient;
  '(lbToGroupNames, groupNamesToUUID) ← listGroups nbClient;
  Some (planOps switchNamesToUUID routerNamesToUUID groupNamesToUUID
          (planLBs existing lbToSwitchNames lbToRouterNames lbToGroupNames LBs)).

End Reconciler.

(** ** Sample stores *)

(** The ownership tag of the closed examples. *)
Definition ownerTag : gmap string string :=
  {[ "k8s.ovn.org/owner"%string := "ns/foo"%string ]}.

Definition taggedRow (uuid name : string) : LoadBalancer :=
  mkLoadBalancer uuid name (Some "tcp"%string) [] ∅ ∅ ownerTag.

(** One row [A] under the tag, attached to switch [s1] only. *)
Definition storeA : Client :=
  mkClient [taggedRow "UUID1" "A"]
           (Some [mkTarget "switch-1" "s1" ["UUID1"%string]]) (Some []) (Some []).

(** Two and three rows under the tag, all named [X], attached to nothing. *)
Definition storeXX : Client :=
  mkClient [taggedRow "u1" "X"; taggedRow "u2" "X"] (Some []) (Some []) (Some []).

Definition storeXXX : Client :=
  mkClient [taggedRow "u1" "X"; taggedRow "u2" "X"; taggedRow "u3" "X"]
           (Some []) (Some []) (Some []).

(** Four rows under the tag, all named [X], attached to nothing. *)
Definition storeXXXX : Client :=
  mkClient [taggedRow "u1" "X"; taggedRow "u2" "X"; taggedRow "u3" "X"; taggedRow "u4" "X"]
           (Some []) (Some []) (Some []).

(** A desired load balancer with a name and switches and nothing else. *)
Definition desired (name : string) (switches : list string) : LB :=
  mkLB name EmptyString "TCP" (mkMap ownerTag) (mkLBOpts false false false)
       nilSlice (mkSlice switches) nilSlice nilSlice.

(** Instances of the two parameters for the closed examples:
    [strings.ToLower] on ASCII letters, and host and port joined by a
    colon for [Addr.String]. *)
Definition lowerASCII (c : Ascii.ascii) : Ascii.ascii :=
  let n := Ascii.nat_of_ascii c in
  if (65 <=? n)%nat && (n <=? 90)%nat then Ascii.ascii_of_nat (n + 32) else c.

Fixpoint toLowerASCII (s : string) : string :=
  match s with
  | EmptyString => EmptyString
  | String c s' => String (lowerASCII c) (toLowerASCII s')
  end.

Definition hostPort (a : Addr) : string :=
  (IP a ++ ":" ++ pretty (Port a))%string.

End Loadbalancer.

(** * Meter bands of the northbound schema *)

Module Nbdb.
Import Loadbalancer.

(** [MeterBand], a row of the Meter_Band table; [BurstSize] and [Rate] are
    Go [int]s, only ever compared, and [ExternalIDs] is a Go map, nil or
    not. *)
Record MeterBand := mkMeterBand {
  UUID : string;
  Action : string;
  BurstSize : Z;
  ExternalIDs : gomap;
  Rate : Z;
}.

#[global] Instance MeterBand_eq_dec : EqDecision MeterBand.
Proof. solve_decision. Defined.

(** [new(MeterBand)] *)
Definition zeroMeterBand : MeterBand :=
  mkMeterBand EmptyString EmptyString 0 nilMap 0.

(** [copyMeterBandExternalIDs]: nil stays nil; otherwise every entry is
    put in a new map, one by one. *)
Definition copyMeterBandExternalIDs (a : gomap) : gomap :=
  match a with
  | nilMap => nilMap
  | mkMap entries => mkMap (map_fold (λ k v b, <[ k := v ]> b) ∅ entries)
  end.

(** [equalMeterBandExternalIDs]: one nil and the other not, or different
    lengths, is unequal; otherwise every entry of [a] is looked up in [b],
    the first miss or different value ending the loop with [false]. *)
Definition equalMeterBandExternalIDs (a b : gomap) : bool :=
  match a, b with
  | nilMap, mkMap _ | mkMap _, nilMap => false
  | _, _ =>
      if decide (size (entriesOf a) ≠ size (entriesOf b)) then false
      else
        map_fold (λ k v ok, ok && bool_decide (entriesOf b !! k = Some v)) true
                 (entriesOf a)
  end.

(** [a.DeepCopyInto(b)]: what [b] holds afterwards; all of [b] is
    overwritten. *)
Definition DeepCopyInto (a b : MeterBand) : MeterBand :=
  mkMeterBand (UUID a) (Action a) (BurstSize a)
              (copyMeterBandExternalIDs (ExternalIDs a)) (Rate a).

Definition DeepCopy (a : MeterBand) : MeterBand :=
  DeepCopyInto a zeroMeterBand.

Definition Equals (a b : MeterBand) : bool :=
  bool_decide (UUID a = UUID b) &&
  bool_decide (Action a = Action b) &&
  bool_decide (BurstSize a = BurstSize b) &&
  equalMeterBandExternalIDs (ExternalIDs a) (ExternalIDs b) &&
  bool_decide (Rate a = Rate b).

End Nbdb.

(** * Properties *)

Lemma zeroLookup_Some m k v : m !! k = Some v → zeroLookup m k = v.
Proof. unfold zeroLookup. by intros ->. Qed.

Lemma zeroLookup_None m k : m !! k = None → zeroLookup m k = EmptyString.
Proof. unfold zeroLookup. by intros ->. Qed.

Lemma zeroLookup_insert_eq m k v : zeroLookup (<[k:=v]> m) k = v.
Proof. unfold zeroLookup. by rewrite lookup_insert_eq. Qed.

Lemma zeroLookup_insert_ne m k k' v :
  k ≠ k' → zeroLookup (<[k:=v]> m) k' = zeroLookup m k'.
Proof. unfold zeroLookup. intros. by rewrite lookup_insert_ne. Qed.

Lemma zeroLookup_delete_eq m k : zeroLookup (delete k m) k = EmptyString.
Proof. unfold zeroLookup. by rewrite lookup_delete_eq. Qed.

Lemma zeroLookup_delete_ne m k k' :
  k ≠ k' → zeroLookup (delete k m) k' = zeroLookup m k'.
Proof. unfold zeroLookup. intros. by rewrite lookup_delete_ne. Qed.

Lemma zeroLookup_nonempty m k :
  zeroLookup m k ≠ EmptyString → m !! k = Some (zeroLookup m k).
Proof. unfold zeroLookup. destruct (m !! k); simpl; congruence. Qed.


Module NADTheory.
Import NAD.

Section Sync.

Context {NetworkAttachmentDefinition : Type}.
Variable ParseNADInfo : NetworkAttachmentDefinition → option NetInfo.

(** A deleted declaration never leaves a network to ensure: [Equals] fails
    on nil and every other branch of the switch ensures the parsed
    network. *)
Lemma resolve_deleted key name old cur :
  (resolve key name None old cur).1.2 = None.
Proof.
  unfold resolve. destruct cur as [current|]; simpl; [|done].
  case_decide; [done|]. by destruct old.
Qed.

Lemma clearPrimary_recorded namespace key p :
  p !! namespace = Some key → clearPrimary namespace key p !! namespace = None.
Proof.
  intros H. unfold clearPrimary. rewrite (zeroLookup_Some _ _ _ H).
  rewrite decide_True by done. apply lookup_delete_eq.
Qed.

Lemma settle_forget key namespace old err c :
  let r := settle key namespace old None err c in
  nads (after r) = delete key (nads c) ∧
  primaryNADs (after r) = clearPrimary namespace key (primaryNADs c) ∧
  ((networkManager (after r), calls r) = detachOld key old (networkManager c)) ∧
  failure r = err.
Proof. unfold settle. by destruct (detachOld _ _ _). Qed.

Lemma syncParsed_deleted key namespace c :
  let r := syncParsed key namespace None c in
  nads (after r) = delete key (nads c) ∧
  primaryNADs (after r) = clearPrimary namespace key (primaryNADs c).
Proof.
  unfold syncParsed. simpl.
  pose proof (resolve_deleted key EmptyString
    (previousNetwork key EmptyString c)
    (getNetwork (networkManager c) EmptyString)) as H.
  destruct (resolve _ _ _ _ _) as [[old ens] err]. simpl in H. subst ens.
  destruct (settle_forget key namespace old err c) as (? & ? & _). done.
Qed.

Lemma syncParsed_conflict key namespace n c :
  primaryConflict c namespace key (Some n) = true →
  syncParsed key namespace (Some n) c
  = mkResult c [] (Some (ErrPrimaryConflict (zeroLookup (primaryNADs c) namespace) key)).
Proof. intros H. unfold syncParsed. by rewrite H. Qed.

(** C1 (as amended): syncing a deleted declaration leaves the key out of
    [nads] and, when the key was the recorded primary of its namespace,
    the namespace out of [primaryNADs]; when the primary-conflict guard
    fires, syncNAD returns the conflict error and changes nothing. *)
Theorem sync_deleted_or_primary_conflict key namespace name c :
  SplitMetaNamespaceKey key = Some (namespace, name) →
  (nads (after (syncNAD ParseNADInfo key None c)) !! key = None ∧
   (primaryNADs c !! namespace = Some key →
    primaryNADs (after (syncNAD ParseNADInfo key None c)) !! namespace = None)) ∧
  (∀ d n,
     ParseNADInfo d = Some n →
     primaryConflict c namespace key (Some n) = true →
     syncNAD ParseNADInfo key (Some d) c
     = mkResult c [] (Some (ErrPrimaryConflict (zeroLookup (primaryNADs c) namespace) key))).
Proof.
  intros Hsplit. unfold syncNAD. rewrite Hsplit. split.
  - destruct (syncParsed_deleted key namespace c) as [-> ->]. split.
    + apply lookup_delete_eq.
    + apply clearPrimary_recorded.
  - intros d n -> Hguard. by apply syncParsed_conflict.
Qed.

(** C2 (as amended): when the primary-conflict guard does not fire and the
    declaration parses to a network with the name the key is bound to,
    whose registered network is incompatible and referenced by another
    key, syncNAD returns the configuration conflict and has nevertheless
    removed the key from that network, re-ensured the network with the
    reduced references (which are not empty), and cleared the key from
    [nads]. *)
Theorem sync_conflict_detaches key namespace name d n current c :
  SplitMetaNamespaceKey key = Some (namespace, name) →
  ParseNADInfo d = Some n →
  primaryConflict c namespace key (Some n) = false →
  nads c !! key = Some (GetNetworkName n) →
  getNetwork (networkManager c) (GetNetworkName n) = Some current →
  Equals current (Some n) = false →
  (∃ other, other ∈ GetNADs current ∧ other ≠ key) →
  let r := syncNAD ParseNADInfo key (Some d) c in
  failure r = Some (ErrConfigMismatch key (GetNetworkName n)) ∧
  ((networkManager (after r), calls r)
   = detachOld key (Some current) (networkManager c)) ∧
  calls r = [CallEnsureNetwork (DeleteNADs key current)] ∧
  networkManager (after r) = EnsureNetwork (DeleteNADs key current) (networkManager c) ∧
  (key ∉ GetNADs (DeleteNADs key current)) ∧
  GetNADs (DeleteNADs key current) ≠ ∅ ∧
  nads (after r) = delete key (nads c) ∧
  primaryNADs (after r) = clearPrimary namespace key (primaryNADs c).
Proof.
  intros Hsplit Hparse Hguard Hbound Hcur Hneq (other & Hin & Hother).
  unfold syncNAD. rewrite Hsplit, Hparse. unfold syncParsed. rewrite Hguard. simpl.
  unfold previousNetwork. rewrite (zeroLookup_Some _ _ _ Hbound).
  rewrite decide_False by (intros ?; congruence).
  rewrite Hcur. unfold resolve. rewrite Hneq.
  rewrite decide_False by set_solver.
  destruct (settle_forget key namespace (Some current)
              (Some (ErrConfigMismatch key (GetNetworkName n))) c)
    as (Hn & Hp & Hd & He).
  assert (Hne : GetNADs (DeleteNADs key current) ≠ ∅).
  { unfold GetNADs, DeleteNADs in *. simpl. set_solver. }
  assert (Hdet : detachOld key (Some current) (networkManager c)
                 = (EnsureNetwork (DeleteNADs key current) (networkManager c),
                    [CallEnsureNetwork (DeleteNADs key current)])).
  { unfold detachOld. by rewrite decide_False. }
  rewrite Hdet in Hd. injection Hd as Hnm Hcalls.
  repeat split; try done.
  - by rewrite Hnm, Hcalls.
  - unfold GetNADs, DeleteNADs. simpl.
    rewrite elem_of_difference, elem_of_singleton. tauto.
Qed.

(** *** The registry stays consistent *)

Lemma detachOld_None key nm : detachOld key None nm = (nm, []).
Proof. done. Qed.

Lemma detachOld_lookup key old nm x :
  (detachOld key (Some old) nm).1 !! x
  = if decide (x = GetNetworkName old)
    then (if decide (GetNADs (DeleteNADs key old) = ∅) then None
          else Some (DeleteNADs key old))
    else nm !! x.
Proof.
  unfold detachOld, DeleteNetwork, EnsureNetwork.
  destruct (decide (GetNADs (DeleteNADs key old) = ∅)); simpl.
  - destruct (decide (x = GetNetworkName old)) as [->|].
    + apply lookup_delete_eq.
    + by apply lookup_delete_ne.
  - change (GetNetworkName (DeleteNADs key old)) with (GetNetworkName old).
    destruct (decide (x = GetNetworkName old)) as [->|].
    + apply lookup_insert_eq.
    + by apply lookup_insert_ne.
Qed.

(** The manager after [settle], read at any name. *)
Lemma settle_manager key namespace old ens err c x :
  networkManager (after (settle key namespace old ens err c)) !! x
  = match ens with
    | Some e =>
        if decide (x = GetNetworkName e) then Some (AddNADs key e)
        else (detachOld key old (networkManager c)).1 !! x
    | None => (detachOld key old (networkManager c)).1 !! x
    end.
Proof.
  unfold settle. destruct (detachOld key old (networkManager c)) as [nm1 calls1].
  destruct ens as [e|]; simpl; [|done].
  unfold EnsureNetwork. change (GetNetworkName (AddNADs key e)) with (GetNetworkName e).
  destruct (decide (x = GetNetworkName e)) as [->|].
  - apply lookup_insert_eq.
  - by apply lookup_insert_ne.
Qed.

Lemma settle_nads key namespace old ens err c :
  nads (after (settle key namespace old ens err c))
  = match ens with
    | Some e => <[ key := GetNetworkName e ]> (nads c)
    | None => delete key (nads c)
    end.
Proof. unfold settle. destruct (detachOld _ _ _). by destruct ens. Qed.

Lemma settle_primaryNADs key namespace old ens err c :
  primaryNADs (after (settle key namespace old ens err c))
  = match ens with
    | Some e =>
        if IsPrimaryNetwork e then <[ namespace := key ]> (primaryNADs c)
        else clearPrimary namespace key (primaryNADs c)
    | None => clearPrimary namespace key (primaryNADs c)
    end.
Proof. unfold settle. destruct (detachOld _ _ _). by destruct ens. Qed.

(** An entry that survives [clearPrimary] was there before and is not the
    key being cleared, provided recorded primaries belong to their
    namespace. *)
Lemma clearPrimary_lookup namespace name key p ns k :
  SplitMetaNamespaceKey key = Some (namespace, name) →
  (∀ ns' k', p !! ns' = Some k' → ∃ n, SplitMetaNamespaceKey k' = Some (ns', n)) →
  clearPrimary namespace key p !! ns = Some k →
  p !! ns = Some k ∧ k ≠ key.
Proof.
  intros Hsplit Hp. unfold clearPrimary. case_decide as Hz.
  - intros H. destruct (decide (ns = namespace)) as [->|Hne].
    + by rewrite lookup_delete_eq in H.
    + rewrite lookup_delete_ne in H by done. split; [done|].
      intros ->. destruct (Hp _ _ H) as [n Hn]. congruence.
  - intros H. split; [done|]. intros ->.
    destruct (Hp _ _ H) as [n Hn]. rewrite Hsplit in Hn. simplify_eq.
    by rewrite (zeroLookup_Some _ _ _ H) in Hz.
Qed.

Lemma settle_consistent key namespace name old ens err c :
  SplitMetaNamespaceKey key = Some (namespace, name) →
  consistent c → sound c key old ens →
  consistent (after (settle key namespace old ens err c)).
Proof.
  intros Hsplit [Hkeyed Hnamed Href Hprim] [Hold Hens].
  assert (Hdet : ∀ x net,
             (detachOld key old (networkManager c)).1 !! x = Some net →
             GetNetworkName net = x ∧
             (∀ k, k ≠ key → (∃ net0, networkManager c !! x = Some net0 ∧ k ∈ GetNADs net0) →
                   k ∈ GetNADs net)).
  { intros x net. destruct old as [o|].
    - rewrite detachOld_lookup. specialize (Hold o eq_refl).
      case_decide as Hx; [subst x; case_decide; [done|] |].
      + intros [= <-]. split; [done|]. intros k Hk (net0 & Hn0 & Hin).
        rewrite Hold in Hn0. simplify_eq.
        unfold GetNADs, DeleteNADs. simpl.
        rewrite elem_of_difference, elem_of_singleton. done.
      + intros H. split; [by apply Hkeyed|].
        intros k _ (net0 & Hn0 & Hin). by simplify_eq.
    - simpl. intros H. split; [by apply Hkeyed|].
      intros k _ (net0 & Hn0 & Hin). by simplify_eq. }
  assert (Hdet_keep : ∀ k x net0,
             k ≠ key → networkManager c !! x = Some net0 → k ∈ GetNADs net0 →
             ∃ net, (detachOld key old (networkManager c)).1 !! x = Some net).
  { intros k x net0 Hk Hn0 Hin. destruct old as [o|]; [|simpl; by eauto].
    rewrite detachOld_lookup. specialize (Hold o eq_refl).
    case_decide as Hx; [subst x|by eauto].
    rewrite Hold in Hn0. simplify_eq.
    rewrite decide_False; [by eauto|].
    unfold GetNADs, DeleteNADs in *. simpl. intros Hempty.
    assert (k ∈ netNADs net0 ∖ {[key]}) as Hk'
      by (rewrite elem_of_difference, elem_of_singleton; done).
    rewrite Hempty in Hk'. by apply not_elem_of_empty in Hk'. }
  split.
  - intros x net. rewrite settle_manager. destruct ens as [e|].
    + case_decide as Hx; [by intros [= <-]|]. intros H. by apply Hdet in H as [? _].
    + intros H. by apply Hdet in H as [? _].
  - rewrite settle_manager.
    assert ((detachOld key old (networkManager c)).1 !! EmptyString = None) as Hd.
    { destruct old as [o|]; [|done]. rewrite detachOld_lookup.
      rewrite decide_False; [done|]. intros He.
      specialize (Hold o eq_refl). rewrite <- He in Hold. congruence. }
    destruct ens as [e|]; [|done].
    rewrite decide_False; [done|]. intros He. by destruct (Hens e eq_refl) as [? _].
  - intros k x. rewrite settle_nads. intros Hk.
    destruct (decide (k = key)) as [->|Hne].
    + destruct ens as [e|].
      * rewrite lookup_insert_eq in Hk. simplify_eq.
        exists (AddNADs key e). rewrite settle_manager, decide_True by done.
        split; [done|]. unfold GetNADs, AddNADs. simpl.
        apply elem_of_union_l, elem_of_singleton. done.
      * by rewrite lookup_delete_eq in Hk.
    + assert (nads c !! k = Some x) as Hk0.
      { destruct ens; [by rewrite lookup_insert_ne in Hk|by rewrite lookup_delete_ne in Hk]. }
      destruct (Href _ _ Hk0) as (net0 & Hn0 & Hin).
      rewrite settle_manager.
      destruct (Hdet_keep k x net0 Hne Hn0 Hin) as [net Hnet].
      assert (k ∈ GetNADs net) as Hknet by (eapply Hdet; eauto).
      destruct ens as [e|]; [|by eauto].
      case_decide as Hx; [subst x|by eauto].
      exists (AddNADs key e). split; [done|].
      unfold GetNADs, AddNADs. simpl. apply elem_of_union_r.
      destruct (Hens e eq_refl) as [_ He]. by apply He.
  - intros ns k. rewrite settle_primaryNADs, settle_nads. intros Hk.
    assert (∀ ns' k', primaryNADs c !! ns' = Some k' →
                      ∃ n, SplitMetaNamespaceKey k' = Some (ns', n)) as Hp
      by (intros ns' k' H; by destruct (Hprim _ _ H)).
    assert (primaryNADs c !! ns = Some k ∧ k ≠ key ∨ (ns = namespace ∧ k = key ∧ is_Some ens))
      as [[Hk0 Hne]|(-> & -> & [e ->])].
    { destruct ens as [e|].
      - destruct (IsPrimaryNetwork e).
        + destruct (decide (ns = namespace)) as [->|Hns].
          * rewrite lookup_insert_eq in Hk. simplify_eq. right. eauto.
          * rewrite lookup_insert_ne in Hk by done. left. split; [done|].
            intros ->. destruct (Hp _ _ Hk) as [n Hn]. congruence.
        + left. by eapply clearPrimary_lookup.
      - left. by eapply clearPrimary_lookup. }
    + destruct (Hprim _ _ Hk0) as [Hs Hn]. split; [done|].
      destruct ens; [by rewrite lookup_insert_ne|by rewrite lookup_delete_ne].
    + split; [by eauto|]. rewrite lookup_insert_eq. by eauto.
Qed.

Lemma newNADController_consistent : consistent newNADController.
Proof. split; intros *; simpl; by rewrite ?lookup_empty. Qed.

(** In a consistent registry the switch hands over sound networks, as long
    as the parsed network has a name. *)
Lemma resolve_sound key nadNetwork c old ens err :
  consistent c →
  (∀ n, nadNetwork = Some n → GetNetworkName n ≠ EmptyString) →
  resolve key (from_option GetNetworkName EmptyString nadNetwork) nadNetwork
    (previousNetwork key (from_option GetNetworkName EmptyString nadNetwork) c)
    (getNetwork (networkManager c) (from_option GetNetworkName EmptyString nadNetwork))
  = (old, ens, err) →
  sound c key old ens.
Proof.
  intros [Hkeyed Hnamed Href Hprim] Hn.
  set (name := from_option GetNetworkName EmptyString nadNetwork).
  assert (Hprev : ∀ o, previousNetwork key name c = Some o →
                       networkManager c !! GetNetworkName o = Some o).
  { unfold previousNetwork, getNetwork. case_decide; [|done].
    intros o Ho. by rewrite (Hkeyed _ _ Ho). }
  unfold resolve, getNetwork.
  destruct (networkManager c !! name) as [cur|] eqn:Hcur.
  - pose proof (Hkeyed _ _ Hcur) as Hname.
    destruct (Equals cur nadNetwork) eqn:Heq.
    + intros [= <- <- <-]. split; [exact Hprev|]. intros e [= <-]. split.
      * destruct nadNetwork as [n|]; [|done]. rewrite Hname. by apply Hn.
      * intros k Hk Hb. rewrite Hname in Hb.
        destruct (Href _ _ Hb) as (net & Hnet & Hin). by simplify_eq.
    + case_decide as Hall.
      * intros [= <- <- <-]. split.
        { intros o [= <-]. by rewrite Hname. }
        intros e ->. split; [by apply Hn|]. intros k Hk Hb.
        destruct (Href _ _ Hb) as (net & Hnet & Hin).
        simpl in name. subst name. rewrite Hcur in Hnet. simplify_eq.
        apply Hall, elem_of_singleton in Hin. done.
      * destruct (previousNetwork key name c) as [o|] eqn:Hp;
          intros [= <- <- <-]; (split; [|done]).
        -- intros o' [= <-]. by apply Hprev.
        -- intros o' [= <-]. by rewrite Hname.
  - intros [= <- <- <-]. split; [exact Hprev|]. intros e ->.
    split; [by apply Hn|]. intros k Hk Hb.
    destruct (Href _ _ Hb) as (net & Hnet & Hin).
    simpl in name. subst name. congruence.
Qed.

Lemma syncParsed_consistent key namespace name nadNetwork c :
  SplitMetaNamespaceKey key = Some (namespace, name) →
  (∀ n, nadNetwork = Some n → GetNetworkName n ≠ EmptyString) →
  consistent c →
  consistent (after (syncParsed key namespace nadNetwork c)).
Proof.
  intros Hsplit Hn Hc. unfold syncParsed.
  destruct (primaryConflict c namespace key nadNetwork); [done|].
  destruct (resolve _ _ _ _ _) as [[old ens] err] eqn:Hres.
  eapply settle_consistent; [done..|]. by eapply resolve_sound.
Qed.

Section Named.

(** The parser never yields a network without a name. *)
Hypothesis parse_named :
  ∀ d n, ParseNADInfo d = Some n → GetNetworkName n ≠ EmptyString.

Lemma syncNAD_consistent key nad c :
  consistent c → consistent (after (syncNAD ParseNADInfo key nad c)).
Proof.
  intros Hc. unfold syncNAD.
  destruct (SplitMetaNamespaceKey key) as [[namespace name]|] eqn:Hsplit; [|done].
  destruct nad as [d|].
  - destruct (ParseNADInfo d) as [n|] eqn:Hparse; [|done].
    eapply syncParsed_consistent; [done| |done].
    intros n' [= <-]. by eapply parse_named.
  - by eapply syncParsed_consistent.
Qed.

Lemma reachable_consistent c : reachable ParseNADInfo c → consistent c.
Proof.
  induction 1 as [|key nad c _ IH].
  - apply newNADController_consistent.
  - by apply syncNAD_consistent.
Qed.

(** C3: in every state reached by syncNAD calls from a new controller, a
    namespace has at most one primary key, every recorded primary key is
    a key of [nads] bound to a network name that is not empty, and
    GetActiveNetworkForNamespace never takes its panic branch. *)
Theorem primary_keys_tracked c :
  reachable ParseNADInfo c →
  (∀ namespace k1 k2,
     primaryNADs c !! namespace = Some k1 →
     primaryNADs c !! namespace = Some k2 → k1 = k2) ∧
  (∀ namespace key,
     primaryNADs c !! namespace = Some key →
     ∃ name, nads c !! key = Some name ∧ name ≠ EmptyString) ∧
  (∀ segmentation udnLister namespace,
     (GetActiveNetworkForNamespace segmentation udnLister c namespace).1
     ≠ PanicBrokenConsistency).
Proof.
  intros Hreach. pose proof (reachable_consistent c Hreach) as [Hkeyed Hnamed Href Hprim].
  assert (Htracked : ∀ namespace key,
             primaryNADs c !! namespace = Some key →
             ∃ name, nads c !! key = Some name ∧ name ≠ EmptyString).
  { intros namespace key Hk. destruct (Hprim _ _ Hk) as [_ [name Hname]].
    exists name. split; [done|]. intros ->.
    destruct (Href _ _ Hname) as (net & Hnet & _). congruence. }
  split; [|split; [exact Htracked|]].
  - intros namespace k1 k2 H1 H2. congruence.
  - intros segmentation udnLister namespace. unfold GetActiveNetworkForNamespace.
    destruct segmentation; simpl; [|done].
    case_decide as Hp.
    + apply zeroLookup_nonempty in Hp.
      destruct (Htracked _ _ Hp) as (name & Hname & Hne).
      rewrite (zeroLookup_Some _ _ _ Hname).
      rewrite decide_False by done.
      by destruct (getNetwork _ _).
    + destruct (udnLister namespace) as [udns|]; [|done].
      by destruct (firstPrimaryUDN udns).
Qed.

(** C4 (as amended): with network segmentation enabled, in every state
    reached by syncNAD calls, GetActiveNetworkForNamespace returns the
    network of a recorded (non-empty) primary key, copied and restricted to
    that key, with no error; with no primary recorded it returns the
    listing error when the listing fails, the unprocessed-primary-network
    error when the listing holds a primary network, and the default
    network otherwise. *)
Theorem active_network_enabled c udnLister namespace :
  reachable ParseNADInfo c →
  let out := (GetActiveNetworkForNamespace true udnLister c namespace).1 in
  (∀ key,
     primaryNADs c !! namespace = Some key → key ≠ EmptyString →
     ∃ net,
       nads c !! key = Some (GetNetworkName net) ∧
       getNetwork (networkManager c) (GetNetworkName net) = Some net ∧
       GetNADs (SetNADs key net) = {[ key ]} ∧
       out = Returns (Secondary (SetNADs key net))) ∧
  (zeroLookup (primaryNADs c) namespace = EmptyString →
   match udnLister namespace with
   | ListFailed cause => out = Fails (ErrGettingUDNs cause)
   | ListOk udns =>
       ((∃ udn, udn ∈ udns ∧ udnPrimary udn = true) →
        ∃ udn, udn ∈ udns ∧ udnPrimary udn = true ∧
               out = Fails (ErrUnprocessedActiveNetwork namespace (udnName udn))) ∧
       ((∀ udn, udn ∈ udns → udnPrimary udn = false) →
        out = Returns DefaultNetInfo)
   end).
Proof.
  intros Hreach. pose proof (reachable_consistent c Hreach) as [Hkeyed Hnamed Href Hprim].
  unfold GetActiveNetworkForNamespace. simpl. split.
  - intros key Hk Hne. rewrite (zeroLookup_Some _ _ _ Hk).
    rewrite decide_True by done.
    destruct (Hprim _ _ Hk) as [_ [name Hname]].
    destruct (Href _ _ Hname) as (net & Hnet & _).
    rewrite (zeroLookup_Some _ _ _ Hname).
    rewrite decide_False by (intros ->; congruence).
    unfold getNetwork. rewrite Hnet. simpl.
    exists net. rewrite (Hkeyed _ _ Hnet). done.
  - intros Hz. rewrite Hz. rewrite decide_False by (intros H; by apply H).
    destruct (udnLister namespace) as [udns|cause]; [|done].
    unfold firstPrimaryUDN. destruct (find udnPrimary udns) as [udn|] eqn:Hfind; simpl.
    + apply find_some in Hfind as [Hin Hp]. split.
      * intros _. exists udn. by rewrite list_elem_of_In.
      * intros Hnone. apply list_elem_of_In, Hnone in Hin. congruence.
    + split; [|done]. intros (udn & Hin & Hp).
      apply list_elem_of_In in Hin.
      pose proof (find_none _ _ Hfind _ Hin). congruence.
Qed.

(** *** The reference sets stay exact *)

Lemma newNADController_exact : exact newNADController.
Proof. split; intros *; simpl; by rewrite ?lookup_empty. Qed.

Lemma previousNetwork_referencing key name c x net :
  exact c → networkManager c !! x = Some net → key ∈ GetNADs net →
  previousNetwork key name c = if decide (name = x) then None else Some net.
Proof.
  intros [Hbound _] Hx Hin. unfold previousNetwork, getNetwork.
  rewrite (zeroLookup_Some _ _ _ (Hbound _ _ _ Hx Hin)).
  destruct (decide (name = x)) as [->|Hne].
  - by rewrite decide_False by (intros H; by apply H).
  - by rewrite decide_True.
Qed.

Lemma settle_exact key namespace old ens err c :
  consistent c → exact c → sound c key old ens →
  (∀ e, ens = Some e → ∀ k, k ∈ GetNADs e → k ≠ key →
        nads c !! k = Some (GetNetworkName e)) →
  (∀ x net, networkManager c !! x = Some net → key ∈ GetNADs net →
            old = Some net ∨ ens = Some net) →
  exact (after (settle key namespace old ens err c)).
Proof.
  intros [Hkeyed Hnamed Href Hprim] [Hbound Hnonempty] [Hold Hens] He1 He2.
  assert (Hdet : ∀ x net k,
             (detachOld key old (networkManager c)).1 !! x = Some net →
             (∀ e, ens = Some e → x ≠ GetNetworkName e) →
             GetNADs net ≠ ∅ ∧
             (k ∈ GetNADs net → nads c !! k = Some x ∧ k ≠ key)).
  { intros x net k Hnet Hx.
    assert (networkManager c !! x = Some net → x ≠ from_option GetNetworkName x old →
            GetNADs net ≠ ∅ ∧ (k ∈ GetNADs net → nads c !! k = Some x ∧ k ≠ key))
      as Hkeep.
    { intros Hn Hxo. split; [by eapply Hnonempty|]. intros Hin.
      split; [by eapply Hbound|]. intros ->.
      destruct (He2 _ _ Hn Hin) as [->| ->].
      - simpl in Hxo. by rewrite (Hkeyed _ _ Hn) in Hxo.
      - apply (Hx net eq_refl). by rewrite (Hkeyed _ _ Hn). }
    destruct old as [o|].
    - rewrite detachOld_lookup in Hnet. specialize (Hold o eq_refl).
      case_decide as Hxo; [subst x|by apply Hkeep].
      case_decide as Hempty; [done|]. simplify_eq. split; [done|].
      unfold GetNADs, DeleteNADs. simpl.
      rewrite elem_of_difference, elem_of_singleton. intros [Hin Hk].
      split; [|done]. by eapply Hbound.
    - simpl in Hnet. destruct (decide (key ∈ GetNADs net)) as [Hin|Hnin].
      + destruct (He2 _ _ Hnet Hin) as [?| ->]; [done|].
        destruct (Hx net eq_refl). by rewrite (Hkeyed _ _ Hnet).
      + split; [by eapply Hnonempty|]. intros Hin.
        split; [by eapply Hbound|]. by intros ->. }
  split.
  - intros x net k. rewrite settle_manager, settle_nads. destruct ens as [e|].
    + case_decide as Hx.
      * intros [= <-]. subst x. unfold GetNADs at 1, AddNADs. simpl.
        rewrite elem_of_union, elem_of_singleton.
        destruct (decide (k = key)) as [->|Hne]; [intros _; apply lookup_insert_eq|].
        intros [?|Hin]; [done|]. rewrite lookup_insert_ne by done. by apply He1.
      * intros Hnet Hin. destruct (Hdet x net k Hnet) as [_ Hk].
        { by intros e' [= <-]. }
        destruct (Hk Hin). by rewrite lookup_insert_ne.
    + intros Hnet Hin. destruct (Hdet x net k Hnet) as [_ Hk]; [done|].
      destruct (Hk Hin). by rewrite lookup_delete_ne.
  - intros x net. rewrite settle_manager. destruct ens as [e|].
    + case_decide as Hx.
      * intros [= <-]. unfold GetNADs, AddNADs. simpl. intros Hempty.
        assert (key ∈ ({[key]} ∪ netNADs e : gset string)) as Hin
          by (apply elem_of_union_l, elem_of_singleton; done).
        rewrite Hempty in Hin. by apply not_elem_of_empty in Hin.
      * intros Hnet. destruct (Hdet x net key Hnet) as [? _]; [|done].
        by intros e' [= <-].
    + intros Hnet. by destruct (Hdet x net key Hnet) as [? _].
Qed.

Lemma resolve_exact key nadNetwork c old ens err :
  consistent c → exact c →
  (∀ n, nadNetwork = Some n → GetNADs n = ∅) →
  resolve key (from_option GetNetworkName EmptyString nadNetwork) nadNetwork
    (previousNetwork key (from_option GetNetworkName EmptyString nadNetwork) c)
    (getNetwork (networkManager c) (from_option GetNetworkName EmptyString nadNetwork))
  = (old, ens, err) →
  (∀ e, ens = Some e → ∀ k, k ∈ GetNADs e → k ≠ key →
        nads c !! k = Some (GetNetworkName e)) ∧
  (∀ x net, networkManager c !! x = Some net → key ∈ GetNADs net →
            old = Some net ∨ ens = Some net).
Proof.
  intros [Hkeyed Hnamed Href Hprim] Hexact Hn.
  pose proof Hexact as [Hbound Hnonempty].
  set (name := from_option GetNetworkName EmptyString nadNetwork).
  assert (Hparsed : ∀ e, nadNetwork = Some e → ∀ k, k ∈ GetNADs e → k ≠ key →
                         nads c !! k = Some (GetNetworkName e)).
  { intros e He k Hin. rewrite (Hn e He) in Hin. by apply not_elem_of_empty in Hin. }
  unfold resolve, getNetwork.
  destruct (networkManager c !! name) as [cur|] eqn:Hcur.
  - pose proof (Hkeyed _ _ Hcur) as Hname.
    assert (Hcurrent : ∀ k, k ∈ GetNADs cur → k ≠ key →
                            nads c !! k = Some (GetNetworkName cur)).
    { intros k Hin _. rewrite Hname. by eapply Hbound. }
    destruct (Equals cur nadNetwork) eqn:Heq.
    + intros [= <- <- <-]. split; [by intros e [= <-]|].
      intros x net Hx Hin. rewrite (previousNetwork_referencing _ _ _ _ _ Hexact Hx Hin).
      case_decide as Hnx; [|by left]. right. congruence.
    + case_decide as Hall.
      * intros [= <- <- <-]. split; [done|].
        intros x net Hx Hin. left. f_equal.
        assert (key ∈ GetNADs cur) as Hkey.
        { destruct (set_choose_L (GetNADs cur)) as [k Hk]; [by eapply Hnonempty|].
          pose proof (Hall _ Hk) as Hk'. apply elem_of_singleton in Hk'. by subst k. }
        pose proof (Hbound _ _ _ Hcur Hkey) as H1.
        pose proof (Hbound _ _ _ Hx Hin) as H2. congruence.
      * destruct (previousNetwork key name c) as [o|] eqn:Hp;
          intros [= <- <- <-]; (split; [done|]); intros x net Hx Hin;
          rewrite (previousNetwork_referencing _ _ _ _ _ Hexact Hx Hin) in Hp;
          case_decide; simplify_eq; by left.
  - intros [= <- <- <-]. split; [done|].
    intros x net Hx Hin. rewrite (previousNetwork_referencing _ _ _ _ _ Hexact Hx Hin).
    case_decide as Hnx; [|by left]. congruence.
Qed.

Lemma syncParsed_exact key namespace nadNetwork c :
  (∀ n, nadNetwork = Some n → GetNetworkName n ≠ EmptyString) →
  (∀ n, nadNetwork = Some n → GetNADs n = ∅) →
  consistent c → exact c →
  exact (after (syncParsed key namespace nadNetwork c)).
Proof.
  intros Hn Hu Hc He. unfold syncParsed.
  destruct (primaryConflict c namespace key nadNetwork); [done|].
  destruct (resolve _ _ _ _ _) as [[old ens] err] eqn:Hres.
  destruct (resolve_exact _ _ _ _ _ _ Hc He Hu Hres).
  eapply settle_exact; [done..| |done|done]. by eapply resolve_sound.
Qed.

(** *** Syncing the same declaration again *)

Lemma settle_failure key namespace old ens err c :
  failure (settle key namespace old ens err c)
  = match ens with Some _ => None | None => err end.
Proof. unfold settle. destruct (detachOld _ _ _). by destruct ens. Qed.

Lemma clearPrimary_idemp namespace key p :
  clearPrimary namespace key (clearPrimary namespace key p)
  = clearPrimary namespace key p.
Proof.
  unfold clearPrimary. destruct (decide (zeroLookup p namespace = key)) as [Hz|Hz].
  - case_decide; [|done]. apply delete_id, lookup_delete_eq.
  - by rewrite decide_False.
Qed.

(** The guard that let a sync through lets the same sync through again. *)
Lemma primaryConflict_again c c1 namespace key nadNetwork :
  primaryConflict c namespace key nadNetwork = false →
  primaryNADs c1 = <[ namespace := key ]> (primaryNADs c) ∨
  primaryNADs c1 = clearPrimary namespace key (primaryNADs c) →
  primaryConflict c1 namespace key nadNetwork = false.
Proof.
  unfold primaryConflict. destruct nadNetwork as [n|]; [|done].
  destruct (IsPrimaryNetwork n); [simpl|done]. intros Hguard [-> | ->].
  - rewrite zeroLookup_insert_eq.
    rewrite (bool_decide_eq_false_2 (key ≠ key)) by (intros H; by apply H).
    apply andb_false_r.
  - unfold clearPrimary.
    destruct (decide (zeroLookup (primaryNADs c) namespace = key)); [|done].
    rewrite zeroLookup_delete_eq.
    by rewrite (bool_decide_eq_false_2 (EmptyString ≠ EmptyString))
      by (intros H; by apply H).
Qed.

(** What the switch decides in a consistent registry. *)
Lemma resolve_outcome key nadNetwork c old ens err :
  consistent c →
  resolve key (from_option GetNetworkName EmptyString nadNetwork) nadNetwork
    (previousNetwork key (from_option GetNetworkName EmptyString nadNetwork) c)
    (getNetwork (networkManager c) (from_option GetNetworkName EmptyString nadNetwork))
  = (old, ens, err) →
  match ens, nadNetwork with
  | Some e, _ =>
      err = None ∧
      ∃ n, nadNetwork = Some n ∧ GetNetworkName e = GetNetworkName n ∧
           netConf e = netConf n
  | None, Some n =>
      err = Some (ErrConfigMismatch key (GetNetworkName n)) ∧
      ∃ cur, networkManager c !! GetNetworkName n = Some cur ∧
             Equals cur (Some n) = false ∧ ¬ GetNADs cur ⊆ {[ key ]}
  | None, None => err = None
  end.
Proof.
  intros [Hkeyed Hnamed Href Hprim]. unfold resolve, getNetwork.
  destruct nadNetwork as [n|]; simpl.
  - destruct (networkManager c !! GetNetworkName n) as [cur|] eqn:Hcur.
    + destruct (bool_decide (netConf cur = netConf n)) eqn:Heq.
      * intros [= <- <- <-]. split; [done|]. exists n.
        apply bool_decide_eq_true in Heq. by rewrite (Hkeyed _ _ Hcur).
      * destruct (decide (GetNADs cur ⊆ {[ key ]})).
        -- intros [= <- <- <-]. eauto.
        -- destruct (previousNetwork _ _ _); intros [= <- <- <-];
             (split; [done|]); exists cur; by rewrite Heq.
    + intros [= <- <- <-]. eauto.
  - rewrite Hnamed. by intros [= <- <- <-].
Qed.

(** A key bound to a compatible network that references it: syncing it
    only ensures that network again. *)
Lemma resync_bound key namespace n e c :
  nads c !! key = Some (GetNetworkName n) →
  networkManager c !! GetNetworkName n = Some e →
  GetNetworkName e = GetNetworkName n →
  Equals e (Some n) = true →
  key ∈ GetNADs e →
  primaryConflict c namespace key (Some n) = false →
  (if IsPrimaryNetwork e then primaryNADs c !! namespace = Some key
   else clearPrimary namespace key (primaryNADs c) = primaryNADs c) →
  syncParsed key namespace (Some n) c = mkResult c [CallEnsureNetwork e] None.
Proof.
  intros Hbound Hnet Hname Heq Hin Hguard Hprim.
  unfold syncParsed. rewrite Hguard. unfold GetNetworkName in *. simpl.
  unfold previousNetwork. rewrite (zeroLookup_Some _ _ _ Hbound).
  rewrite decide_False by (intros H; by apply H).
  unfold getNetwork. rewrite Hnet. unfold resolve. rewrite Heq.
  unfold settle. simpl.
  assert (AddNADs key e = e) as ->.
  { destruct e as [en ec es]. unfold AddNADs. simpl. f_equal.
    apply subseteq_union_1_L, singleton_subseteq_l. done. }
  unfold EnsureNetwork, GetNetworkName. rewrite Hname.
  rewrite (insert_id (nads c)) by done.
  rewrite (insert_id (networkManager c)) by done.
  destruct c as [cn cp cm]. simpl in *. do 2 f_equal.
  destruct (IsPrimaryNetwork e); [by apply insert_id|done].
Qed.

(** An unbound key whose declaration conflicts with a network that does
    not reference it: syncing it only ensures that network again and
    reports the conflict. *)
Lemma resync_conflict key namespace n cur c :
  nads c !! key = None →
  networkManager c !! EmptyString = None →
  GetNetworkName n ≠ EmptyString →
  networkManager c !! GetNetworkName n = Some cur →
  GetNetworkName cur = GetNetworkName n →
  Equals cur (Some n) = false →
  ¬ GetNADs cur ⊆ {[ key ]} →
  key ∉ GetNADs cur →
  primaryConflict c namespace key (Some n) = false →
  clearPrimary namespace key (primaryNADs c) = primaryNADs c →
  syncParsed key namespace (Some n) c
  = mkResult c [CallEnsureNetwork cur]
      (Some (ErrConfigMismatch key (GetNetworkName n))).
Proof.
  intros Hunbound Hnamed Hn Hnet Hname Hneq Hall Hnin Hguard Hprim.
  unfold syncParsed. rewrite Hguard. unfold GetNetworkName in *. simpl.
  unfold previousNetwork. rewrite (zeroLookup_None _ _ Hunbound).
  rewrite decide_True by done.
  unfold getNetwork. rewrite Hnamed, Hnet. unfold resolve. rewrite Hneq.
  rewrite decide_False by done.
  unfold settle, detachOld.
  assert (DeleteNADs key cur = cur) as ->.
  { destruct cur as [en ec es]. unfold DeleteNADs. simpl. f_equal.
    apply difference_disjoint_L, disjoint_singleton_r. done. }
  rewrite decide_False by (intros Hempty; apply Hall; rewrite Hempty; apply empty_subseteq).
  unfold EnsureNetwork, GetNetworkName. rewrite Hname, Hprim.
  rewrite (insert_id (networkManager c)) by done.
  rewrite (delete_id (nads c)) by done.
  by destruct c.
Qed.

(** An unbound key whose declaration is gone: syncing it does nothing. *)
Lemma resync_deleted key namespace c :
  nads c !! key = None →
  networkManager c !! EmptyString = None →
  clearPrimary namespace key (primaryNADs c) = primaryNADs c →
  syncParsed key namespace None c = mkResult c [] None.
Proof.
  intros Hunbound Hnamed Hprim. unfold syncParsed. simpl.
  unfold previousNetwork. rewrite (zeroLookup_None _ _ Hunbound).
  rewrite decide_False by (intros H; by apply H).
  unfold getNetwork. rewrite Hnamed. unfold resolve, settle. simpl.
  rewrite Hprim. rewrite (delete_id (nads c)) by done. by destruct c.
Qed.

Lemma syncParsed_twice key namespace name nadNetwork c :
  SplitMetaNamespaceKey key = Some (namespace, name) →
  (∀ n, nadNetwork = Some n → GetNetworkName n ≠ EmptyString) →
  (∀ n, nadNetwork = Some n → GetNADs n = ∅) →
  consistent c → exact c →
  let r1 := syncParsed key namespace nadNetwork c in
  let r2 := syncParsed key namespace nadNetwork (after r1) in
  after r2 = after r1 ∧ failure r2 = failure r1 ∧
  (calls r2 = [] ∨
   ∃ n e, nadNetwork = Some n ∧ GetNetworkName e = GetNetworkName n ∧
          networkManager (after r1) !! GetNetworkName n = Some e ∧
          calls r2 = [CallEnsureNetwork e]).
Proof.
  intros Hsplit Hn Hu Hc He.
  pose proof (syncParsed_consistent _ _ _ _ _ Hsplit Hn Hc) as Hc1.
  pose proof (syncParsed_exact key namespace _ _ Hn Hu Hc He) as He1.
  cbv zeta.
  destruct (primaryConflict c namespace key nadNetwork) eqn:Hguard.
  { assert (syncParsed key namespace nadNetwork c
            = mkResult c []
                (Some (ErrPrimaryConflict (zeroLookup (primaryNADs c) namespace) key)))
      as Hr1 by (unfold syncParsed; by rewrite Hguard).
    rewrite Hr1. simpl. rewrite Hr1. simpl. auto. }
  destruct (resolve key (from_option GetNetworkName EmptyString nadNetwork) nadNetwork
              (previousNetwork key (from_option GetNetworkName EmptyString nadNetwork) c)
              (getNetwork (networkManager c)
                 (from_option GetNetworkName EmptyString nadNetwork)))
    as [[old ens] err] eqn:Hres.
  assert (syncParsed key namespace nadNetwork c = settle key namespace old ens err c)
    as Hr1 by (unfold syncParsed; by rewrite Hguard, Hres).
  rewrite Hr1 in *. clear Hr1.
  pose proof (resolve_outcome _ _ _ _ _ _ Hc Hres) as Hout.
  pose proof (resolve_sound _ _ _ _ _ _ Hc Hn Hres) as [Hold _].
  set (c1 := after (settle key namespace old ens err c)) in *.
  assert (Hguard1 : primaryConflict c1 namespace key nadNetwork = false).
  { eapply primaryConflict_again; [done|]. unfold c1.
    rewrite settle_primaryNADs. destruct ens as [e|]; [|by right].
    destruct (IsPrimaryNetwork e); [by left|by right]. }
  rewrite settle_failure.
  destruct ens as [e|].
  - destruct Hout as (-> & n & -> & Hname & Hconf).
    assert (syncParsed key namespace (Some n) c1
            = mkResult c1 [CallEnsureNetwork (AddNADs key e)] None) as ->.
    { apply resync_bound; try done.
      - unfold c1. rewrite settle_nads, <- Hname. apply lookup_insert_eq.
      - unfold c1. rewrite settle_manager, <- Hname. by rewrite decide_True.
      - simpl. by rewrite Hconf, bool_decide_eq_true.
      - unfold GetNADs, AddNADs. simpl. apply elem_of_union_l, elem_of_singleton. done.
      - unfold c1. rewrite settle_primaryNADs.
        change (IsPrimaryNetwork (AddNADs key e)) with (IsPrimaryNetwork e).
        destruct (IsPrimaryNetwork e); [apply lookup_insert_eq|apply clearPrimary_idemp]. }
    simpl. split; [done|]. split; [done|]. right. exists n, (AddNADs key e).
    split; [done|]. split; [done|]. split; [|done].
    unfold c1. rewrite settle_manager, <- Hname. by rewrite decide_True.
  - assert (nads c1 !! key = None) as Hunbound.
    { unfold c1. rewrite settle_nads. apply lookup_delete_eq. }
    assert (clearPrimary namespace key (primaryNADs c1) = primaryNADs c1) as Hprim1.
    { unfold c1. rewrite settle_primaryNADs. apply clearPrimary_idemp. }
    destruct nadNetwork as [n|].
    + destruct Hout as (-> & cur & Hcur & Hneq & Hall).
      assert (∃ cur1, networkManager c1 !! GetNetworkName n = Some cur1 ∧
                      Equals cur1 (Some n) = false) as (cur1 & Hcur1 & Hneq1).
      { unfold c1. rewrite settle_manager. destruct old as [o|]; [|by eauto].
        rewrite detachOld_lookup. specialize (Hold o eq_refl).
        case_decide as Ho; [|by eauto].
        assert (o = cur) as -> by (rewrite <- Ho, Hcur in Hold; congruence).
        rewrite decide_False; [by eauto|]. intros Hempty. apply Hall.
        unfold GetNADs, DeleteNADs in *. simpl in Hempty.
        intros k Hk. destruct (decide (k = key)) as [->|Hne];
          [by apply elem_of_singleton|].
        assert (k ∈ netNADs cur ∖ {[key]}) as Hk'
          by (rewrite elem_of_difference, elem_of_singleton; done).
        rewrite Hempty in Hk'. by apply not_elem_of_empty in Hk'. }
      assert (key ∉ GetNADs cur1) as Hnin.
      { intros Hin. pose proof (references_bound _ He1 _ _ _ Hcur1 Hin). congruence. }
      assert (syncParsed key namespace (Some n) c1
              = mkResult c1 [CallEnsureNetwork cur1]
                  (Some (ErrConfigMismatch key (GetNetworkName n)))) as ->.
      { apply resync_conflict; try done.
        - apply Hc1.
        - by eapply Hn.
        - by apply (manager_keyed _ Hc1).
        - intros Hsub.
          destruct (set_choose_L (GetNADs cur1)) as [k Hk].
          { by eapply (references_nonempty _ He1). }
          pose proof (Hsub _ Hk) as Hk'. apply elem_of_singleton in Hk'. by subst k. }
      simpl. split; [done|]. split; [done|]. right. exists n, cur1.
      split; [done|]. split; [|done]. by apply (manager_keyed _ Hc1).
    + rewrite resync_deleted; [simpl; auto|done|apply Hc1|done].
Qed.

Section Unreferenced.

(** The parser yields a network that no declaration references yet. *)
Hypothesis parse_unreferenced :
  ∀ d n, ParseNADInfo d = Some n → GetNADs n = ∅.

Lemma syncNAD_exact key nad c :
  consistent c → exact c → exact (after (syncNAD ParseNADInfo key nad c)).
Proof.
  intros Hc He. unfold syncNAD.
  destruct (SplitMetaNamespaceKey key) as [[namespace name]|] eqn:Hsplit; [|done].
  destruct nad as [d|].
  - destruct (ParseNADInfo d) as [n|] eqn:Hparse; [|done].
    eapply syncParsed_exact; [..|done|done]; intros n' [= <-]; eauto.
  - by eapply syncParsed_exact.
Qed.

Lemma reachable_exact c : reachable ParseNADInfo c → exact c.
Proof.
  induction 1 as [|key nad c Hc IH].
  - apply newNADController_exact.
  - apply syncNAD_exact; [by apply reachable_consistent|done].
Qed.

(** C5: in every state reached by syncNAD calls, syncing a key with a
    declaration and then syncing the same key with the same declaration
    again leaves [nads] and [primaryNADs] as the first call left them; the
    second call returns what the first returned, deletes no network, and
    at most ensures again the network registered under the declaration's
    network name, exactly as it is registered, so that the network manager
    is unchanged as well. *)
Theorem sync_twice key nad c :
  reachable ParseNADInfo c →
  let r1 := syncNAD ParseNADInfo key nad c in
  let r2 := syncNAD ParseNADInfo key nad (after r1) in
  nads (after r2) = nads (after r1) ∧
  primaryNADs (after r2) = primaryNADs (after r1) ∧
  networkManager (after r2) = networkManager (after r1) ∧
  failure r2 = failure r1 ∧
  (calls r2 = [] ∨
   ∃ d n e,
     nad = Some d ∧ ParseNADInfo d = Some n ∧
     GetNetworkName e = GetNetworkName n ∧
     networkManager (after r1) !! GetNetworkName n = Some e ∧
     calls r2 = [CallEnsureNetwork e]).
Proof.
  intros Hreach.
  pose proof (reachable_consistent c Hreach) as Hc.
  pose proof (reachable_exact c Hreach) as He.
  cbv zeta. unfold syncNAD.
  destruct (SplitMetaNamespaceKey key) as [[namespace name]|] eqn:Hsplit;
    [|simpl; auto 6].
  destruct nad as [d|].
  - destruct (ParseNADInfo d) as [n|] eqn:Hparse; [|simpl; auto 6].
    destruct (syncParsed_twice key namespace name (Some n) c) as (Hafter & Hfail & Hcalls);
      try done.
    { intros n' [= <-]. by eapply parse_named. }
    { intros n' [= <-]. by eapply parse_unreferenced. }
    rewrite Hafter, Hfail. repeat (split; [done|]).
    destruct Hcalls as [?|(n' & e & [= <-] & ? & ? & ?)]; [by left|].
    right. by exists d, n, e.
  - destruct (syncParsed_twice key namespace name None c) as (Hafter & Hfail & Hcalls);
      try done.
    rewrite Hafter, Hfail. repeat (split; [done|]).
    destruct Hcalls as [?|(n' & e & ? & _)]; [by left|done].
Qed.

End Unreferenced.

End Named.

(** C10: with network segmentation disabled, GetActiveNetworkForNamespace
    returns the default network and no error for every namespace, whatever
    the registry, the manager and the lister hold, and does nothing else:
    no lock is taken and no collaborator is asked. *)
Theorem active_network_disabled c udnLister namespace :
  GetActiveNetworkForNamespace false udnLister c namespace
  = (Returns DefaultNetInfo, []).
Proof. reflexivity. Qed.

End Sync.

(** *** Closed instances *)

Lemma sampleParse_named d n : sampleParse d = Some n → GetNetworkName n ≠ EmptyString.
Proof. unfold sampleParse. case_decide; [done|]. by intros [= <-]. Qed.

Lemma sampleParse_unreferenced d n : sampleParse d = Some n → GetNADs n = ∅.
Proof. unfold sampleParse. case_decide; [done|]. by intros [= <-]. Qed.

Lemma reachable_syncMany {D} (parse : D → option NetInfo) events c :
  reachable parse c → reachable parse (syncMany parse events c).
Proof.
  revert c. induction events as [|ev events IH]; intros c Hc; [done|].
  apply IH. by constructor.
Qed.

Lemma twoDeclarations_reachable : reachable sampleParse twoDeclarations.
Proof. apply reachable_syncMany. constructor. Qed.

Lemma sharedNetwork_reachable : reachable sampleParse sharedNetwork.
Proof. apply reachable_syncMany. constructor. Qed.

Lemma sync_deleted_or_primary_conflict_witness :
  SplitMetaNamespaceKey "ns/a" = Some ("ns"%string, "a"%string) ∧
  nads (after (syncNAD sampleParse "ns/a" None twoDeclarations)) !! "ns/a"%string = None.
Proof.
  split; [reflexivity|].
  apply (sync_deleted_or_primary_conflict sampleParse "ns/a" "ns" "a" twoDeclarations).
  reflexivity.
Defined.

(** C1 as stated fails where the guard fires: [ns/a] is bound to [n1],
    [ns/b] is the primary of [ns], and a primary declaration for [ns/a]
    trips the guard; the key is still in [nads] afterwards. *)
Lemma primary_conflict_keeps_key :
  primaryConflict twoDeclarations "ns" "ns/a"
    (sampleParse (layer3 "q" "10.2.0.0/16" true)) = true ∧
  nads (after (syncNAD sampleParse "ns/a" (Some (layer3 "q" "10.2.0.0/16" true))
                 twoDeclarations)) !! "ns/a"%string
  = Some "n1"%string.
Proof. vm_compute. split; reflexivity. Qed.

Lemma sync_conflict_detaches_witness :
  failure (syncNAD sampleParse "ns/a" (Some (layer3 "n1" "10.9.0.0/16" false)) sharedNetwork)
  = Some (ErrConfigMismatch "ns/a" "n1").
Proof.
  refine (proj1 (sync_conflict_detaches sampleParse "ns/a" "ns" "a"
            (layer3 "n1" "10.9.0.0/16" false)
            (mkNetInfo "n1" (mkNetConf "layer3" "10.9.0.0/16" 1400 false) ∅)
            (mkNetInfo "n1" (mkNetConf "layer3" "10.0.0.0/16" 1400 false)
               ({[ "ns/c"%string ]} ∪ ({[ "ns/a"%string ]} ∪ ∅)))
            sharedNetwork _ _ _ _ _ _ _)).
  - reflexivity.
  - reflexivity.
  - vm_compute. reflexivity.
  - vm_compute. reflexivity.
  - vm_compute. reflexivity.
  - vm_compute. reflexivity.
  - exists "ns/c"%string. split; [|discriminate].
    apply elem_of_union_l, elem_of_singleton. reflexivity.
Defined.

(** C2 as stated fails where the primary-conflict guard fires: [ns/a] and
    [ns/c] share [n1], [ns/b] is the primary of [ns]; a declaration of
    [ns/a] that keeps the name [n1], changes the configuration and is
    primary is rejected by the guard, and [ns/a] stays bound to [n1] and
    referenced by it, with no call on the network manager. *)
Lemma primary_conflict_skips_detach :
  let d := layer3 "n1" "10.9.0.0/16" true in
  let r := syncNAD sampleParse "ns/a" (Some d) sharedNetwork in
  nads sharedNetwork !! "ns/a"%string = Some "n1"%string ∧
  (∃ current,
     getNetwork (networkManager sharedNetwork) "n1" = Some current ∧
     Equals current (sampleParse d) = false ∧
     "ns/c"%string ∈ GetNADs current) ∧
  failure r = Some (ErrPrimaryConflict "ns/b" "ns/a") ∧
  calls r = [] ∧
  nads (after r) !! "ns/a"%string = Some "n1"%string ∧
  (∃ current,
     getNetwork (networkManager (after r)) "n1" = Some current ∧
     "ns/a"%string ∈ GetNADs current).
Proof.
  cbv zeta. split; [vm_compute; reflexivity|]. split.
  { eexists. split; [vm_compute; reflexivity|]. split; [vm_compute; reflexivity|].
    apply (bool_decide_unpack _). vm_compute. exact I. }
  split; [vm_compute; reflexivity|]. split; [vm_compute; reflexivity|].
  split; [vm_compute; reflexivity|].
  eexists. split; [vm_compute; reflexivity|].
  apply (bool_decide_unpack _). vm_compute. exact I.
Qed.

Lemma primary_keys_tracked_witness :
  ∃ name, nads twoDeclarations !! "ns/b"%string = Some name ∧ name ≠ EmptyString.
Proof.
  refine (proj1 (proj2 (primary_keys_tracked sampleParse sampleParse_named
                          twoDeclarations twoDeclarations_reachable)) "ns"%string _ _).
  vm_compute. reflexivity.
Defined.

Lemma active_network_enabled_witness :
  ∃ net,
    nads twoDeclarations !! "ns/b"%string = Some (GetNetworkName net) ∧
    getNetwork (networkManager twoDeclarations) (GetNetworkName net) = Some net ∧
    GetNADs (SetNADs "ns/b" net) = {[ "ns/b"%string ]} ∧
    (GetActiveNetworkForNamespace true (λ _, ListOk []) twoDeclarations "ns").1
    = Returns (Secondary (SetNADs "ns/b" net)).
Proof.
  refine (proj1 (active_network_enabled sampleParse sampleParse_named twoDeclarations
                   (λ _, ListOk []) "ns" twoDeclarations_reachable) "ns/b"%string _ _).
  - vm_compute. reflexivity.
  - discriminate.
Defined.

(** C4 as stated fails with network segmentation disabled: namespace [ns]
    has the recorded primary [ns/b], and the default network is
    returned. *)
Lemma disabled_ignores_primary :
  primaryNADs twoDeclarations !! "ns"%string = Some "ns/b"%string ∧
  (GetActiveNetworkForNamespace false (λ _, ListOk []) twoDeclarations "ns").1
  = Returns DefaultNetInfo.
Proof. split; [vm_compute; reflexivity|reflexivity]. Qed.

Lemma sync_twice_witness :
  let d := Some (layer3 "n1" "10.9.0.0/16" false) in
  let r1 := syncNAD sampleParse "ns/a" d sharedNetwork in
  let r2 := syncNAD sampleParse "ns/a" d (after r1) in
  nads (after r2) = nads (after r1) ∧
  primaryNADs (after r2) = primaryNADs (after r1) ∧
  networkManager (after r2) = networkManager (after r1) ∧
  failure r2 = failure r1 ∧
  (calls r2 = [] ∨
   ∃ d' n e,
     d = Some d' ∧ sampleParse d' = Some n ∧
     GetNetworkName e = GetNetworkName n ∧
     networkManager (after r1) !! GetNetworkName n = Some e ∧
     calls r2 = [CallEnsureNetwork e]).
Proof.
  exact (sync_twice sampleParse sampleParse_named sampleParse_unreferenced
           "ns/a" (Some (layer3 "n1" "10.9.0.0/16" false)) sharedNetwork
           sharedNetwork_reachable).
Defined.

End NADTheory.

Module LBTheory.
Import Loadbalancer.

(** *** The comparator *)

Lemma clearUUID_eq lb1 lb2 : clearUUID lb1 = clearUUID lb2 ↔ equalNoUUID lb1 lb2.
Proof.
  unfold clearUUID, equalNoUUID. split.
  - intros [=]. by repeat split.
  - intros (-> & -> & -> & -> & -> & -> & -> & ->). done.
Qed.

Lemma clearUUID_withUUID uuid lb : clearUUID (withUUID uuid lb) = clearUUID lb.
Proof. done. Qed.

(** C8: LoadBalancersEqualNoUUID answers true exactly when the two lists
    have the same length and the elements at every position agree on
    every field but the UUID; in particular it answers true when the
    second list is the first with other UUIDs put in, element by
    element. *)
Theorem LoadBalancersEqualNoUUID_spec :
  (∀ lbs1 lbs2,
     LoadBalancersEqualNoUUID lbs1 lbs2 = true ↔
     length lbs1 = length lbs2 ∧
     ∀ i lb1 lb2, lbs1 !! i = Some lb1 → lbs2 !! i = Some lb2 → equalNoUUID lb1 lb2) ∧
  (∀ changes : list (LB * string),
     LoadBalancersEqualNoUUID (fst <$> changes)
       ((λ change, withUUID change.2 change.1) <$> changes) = true).
Proof.
  assert (Hspec : ∀ lbs1 lbs2,
     LoadBalancersEqualNoUUID lbs1 lbs2 = true ↔
     length lbs1 = length lbs2 ∧
     ∀ i lb1 lb2, lbs1 !! i = Some lb1 → lbs2 !! i = Some lb2 → equalNoUUID lb1 lb2).
  { intros lbs1 lbs2. unfold LoadBalancersEqualNoUUID.
    destruct (decide (length lbs1 ≠ length lbs2)) as [Hlen|Hlen].
    - split; [done|]. by intros [? _].
    - apply dec_stable in Hlen. rewrite bool_decide_eq_true, <- Hlen. split.
      + intros Heq. apply app_inv_head in Heq. split; [done|].
        intros i lb1 lb2 H1 H2. apply clearUUID_eq.
        assert ((clearUUID <$> lbs1) !! i = (clearUUID <$> lbs2) !! i) as Hi
          by by rewrite Heq.
        rewrite !list_lookup_fmap, H1, H2 in Hi. simpl in Hi. congruence.
      + intros [_ Hall]. f_equal. apply list_eq. intros i.
        rewrite !list_lookup_fmap.
        destruct (lbs1 !! i) as [lb1|] eqn:H1, (lbs2 !! i) as [lb2|] eqn:H2; simpl.
        * f_equal. apply clearUUID_eq. by eapply Hall.
        * apply lookup_lt_Some in H1. apply lookup_ge_None in H2. lia.
        * apply lookup_lt_Some in H2. apply lookup_ge_None in H1. lia.
        * done. }
  split; [exact Hspec|].
  intros changes. apply Hspec. rewrite !length_fmap. split; [done|].
  intros i lb1 lb2. rewrite !list_lookup_fmap.
  destruct (changes !! i) as [[lb uuid]|]; simpl; [|done].
  intros [= <-] [= <-]. apply clearUUID_eq. by rewrite clearUUID_withUUID.
Qed.

(** *** Differences *)

Lemma appendUnderAll_lookup keyMap keys lb target :
  NoDup keys →
  appendUnderAll keyMap keys lb !! target
  = if decide (target ∈ keys) then Some (default [] (keyMap !! target) ++ [lb])
    else keyMap !! target.
Proof.
  unfold appendUnderAll. revert keyMap.
  induction keys as [|k keys IH]; intros keyMap Hnodup; simpl.
  - done.
  - apply NoDup_cons in Hnodup as [Hk Hnodup]. rewrite IH by done.
    unfold appendUnder. destruct (decide (target = k)) as [->|Hne].
    + rewrite decide_False by done. rewrite decide_True by apply list_elem_of_here.
      apply lookup_insert_eq.
    + rewrite lookup_insert_ne by done.
      destruct (decide (target ∈ keys)) as [Hin|Hnin].
      * rewrite decide_True; [done|]. by apply list_elem_of_further.
      * rewrite decide_False; [done|]. rewrite elem_of_cons. tauto.
Qed.

Lemma mapLBDifferenceByKey_lookup keyMap keyIn keyNotIn lb target :
  mapLBDifferenceByKey keyMap keyIn keyNotIn lb !! target
  = appended keyMap target lb (keyIn ∖ keyNotIn).
Proof.
  unfold mapLBDifferenceByKey, appended.
  rewrite appendUnderAll_lookup by apply NoDup_elements.
  destruct (decide (target ∈ keyIn ∖ keyNotIn)) as [Hin|Hnin].
  - rewrite decide_True; [done|]. by apply elem_of_elements.
  - rewrite decide_False; [done|]. by rewrite elem_of_elements.
Qed.

Lemma mapLBDifferenceByKey_unordered keyMap keyIn keyNotIn lb keys :
  keys ≡ₚ elements (keyIn ∖ keyNotIn) →
  appendUnderAll keyMap keys lb = mapLBDifferenceByKey keyMap keyIn keyNotIn lb.
Proof.
  intros Hperm. apply map_eq. intros target.
  rewrite mapLBDifferenceByKey_lookup, appendUnderAll_lookup.
  - unfold appended.
    destruct (decide (target ∈ keyIn ∖ keyNotIn)) as [Hin|Hnin].
    + rewrite decide_True; [done|]. rewrite Hperm. by apply elem_of_elements.
    + rewrite decide_False; [done|]. rewrite Hperm. by rewrite elem_of_elements.
  - rewrite Hperm. apply NoDup_elements.
Qed.

(** *** Existing rows by name *)

(** The name map after the loop of lines 62-73, read at a name: the rows
    of that name toggle the entry, which ends up empty after an even number
    of them and holding the last one after an odd number. *)
Lemma foldl_indexRow_lookup acc existing X :
  (foldl indexRow acc existing).1 !! X
  = match acc.1 !! X with
    | None =>
        if Nat.even (length (filter (λ row, lbName row = X) existing)) then None
        else last (filter (λ row, lbName row = X) existing)
    | Some e =>
        if Nat.even (length (filter (λ row, lbName row = X) existing))
        then Some (default e (last (filter (λ row, lbName row = X) existing)))
        else None
    end.
Proof.
  revert acc. induction existing as [|r rest IH]; intros [byName toDelete]; simpl.
  { by destruct (byName !! X). }
  rewrite IH. clear IH.
  destruct (decide (lbName r = X)) as [Hr|Hr].
  - rewrite filter_cons_True by done. cbn [length].
    rewrite Nat.even_succ, <- Nat.negb_even, last_cons. subst X.
    destruct (byName !! lbName r) as [e|] eqn:He.
    + rewrite decide_True by eauto. simpl. rewrite lookup_delete_eq.
      destruct (Nat.even _) eqn:Heven; simpl; [done|].
      destruct (last _) as [y|] eqn:Hlast; [done|].
      apply last_None in Hlast. by rewrite Hlast in Heven.
    + rewrite decide_False by (intros [? ?]; congruence). simpl.
      rewrite lookup_insert_eq.
      destruct (Nat.even _); simpl; [|done]. by destruct (last _).
  - rewrite filter_cons_False by done.
    destruct (decide (is_Some (byName !! lbName r))); simpl.
    + by rewrite lookup_delete_ne.
    + by rewrite lookup_insert_ne.
Qed.

Lemma indexExisting_lookup existing X :
  (indexExisting existing).1 !! X
  = if Nat.even (length (filter (λ row, lbName row = X) existing)) then None
    else last (filter (λ row, lbName row = X) existing).
Proof. unfold indexExisting. by rewrite foldl_indexRow_lookup. Qed.

(** A row of the name map is a listed row, kept under its name. *)
Lemma indexExisting_row existing X e :
  (indexExisting existing).1 !! X = Some e → e ∈ existing ∧ lbName e = X.
Proof.
  rewrite indexExisting_lookup. destruct (Nat.even _); [done|].
  intros Hlast. apply last_Some_elem_of, list_elem_of_filter in Hlast. tauto.
Qed.

Lemma foldl_indexRow_toDelete acc existing u :
  u ∈ (foldl indexRow acc existing).2 ↔ u ∈ acc.2 ∨ u ∈ lbUUID <$> existing.
Proof.
  revert acc. induction existing as [|r rest IH]; intros [byName toDelete]; simpl.
  { rewrite elem_of_nil. tauto. }
  rewrite IH. unfold indexRow.
  destruct (decide (is_Some (byName !! lbName r))); simpl;
    rewrite elem_of_union, elem_of_singleton, elem_of_cons; tauto.
Qed.

(** Every listed row starts in the pending-delete set. *)
Lemma indexExisting_toDelete existing u :
  u ∈ (indexExisting existing).2 ↔ u ∈ lbUUID <$> existing.
Proof.
  unfold indexExisting. rewrite foldl_indexRow_toDelete. simpl.
  rewrite elem_of_empty. tauto.
Qed.

Lemma NoDup_fmap_elem_inj {A B} (f : A → B) l x y :
  NoDup (f <$> l) → x ∈ l → y ∈ l → f x = f y → x = y.
Proof.
  induction l as [|a l IH]; simpl; [by rewrite elem_of_nil|].
  rewrite NoDup_cons, !elem_of_cons. intros [Ha Hl] [->|Hx] [->|Hy] Hxy; auto.
  - destruct Ha. rewrite Hxy. by apply list_elem_of_fmap_2.
  - destruct Ha. rewrite <- Hxy. by apply list_elem_of_fmap_2.
Qed.

Section Plans.

Variable Addr_String : Addr → string.
Variable ToLower : string → string.

Local Abbreviation buildLB := (buildLB Addr_String ToLower).
Local Abbreviation rowFor := (rowFor Addr_String ToLower).
Local Abbreviation planLB := (planLB Addr_String ToLower).
Local Abbreviation planLBs := (planLBs Addr_String ToLower).
Local Abbreviation EnsureLBs := (EnsureLBs Addr_String ToLower).

(** The plan after one more desired load balancer, field by field. *)
Lemma planLB_unfold existingByName lbToSwitchNames lbToRouterNames lbToGroupNames p lb :
  planLB existingByName lbToSwitchNames lbToRouterNames lbToGroupNames p lb
  = mkPlan
      (match existingByName !! Name lb with
       | Some _ => existinglbs p ++ [rowFor (existingByName !! Name lb) lb]
       | None => existinglbs p
       end)
      (match existingByName !! Name lb with
       | Some _ => newlbs p
       | None => newlbs p ++ [rowFor (existingByName !! Name lb) lb]
       end)
      (mapLBDifferenceByKey (addLBsToSwitch p) (wanted (Switches lb))
         (attachedTo lbToSwitchNames (existingByName !! Name lb))
         (rowFor (existingByName !! Name lb) lb))
      (mapLBDifferenceByKey (removeLBsFromSwitch p)
         (attachedTo lbToSwitchNames (existingByName !! Name lb)) (wanted (Switches lb))
         (rowFor (existingByName !! Name lb) lb))
      (mapLBDifferenceByKey (addLBsToRouter p) (wanted (Routers lb))
         (attachedTo lbToRouterNames (existingByName !! Name lb))
         (rowFor (existingByName !! Name lb) lb))
      (mapLBDifferenceByKey (removesLBsFromRouter p)
         (attachedTo lbToRouterNames (existingByName !! Name lb)) (wanted (Routers lb))
         (rowFor (existingByName !! Name lb) lb))
      (mapLBDifferenceByKey (addLBsToGroups p) (wanted (Groups lb))
         (attachedTo lbToGroupNames (existingByName !! Name lb))
         (rowFor (existingByName !! Name lb) lb))
      (mapLBDifferenceByKey (removeLBsFromGroups p)
         (attachedTo lbToGroupNames (existingByName !! Name lb)) (wanted (Groups lb))
         (rowFor (existingByName !! Name lb) lb))
      (from_option (λ e, toDelete p ∖ {[ lbUUID e ]}) (toDelete p)
         (existingByName !! Name lb)).
Proof.
  unfold Loadbalancer.planLB. simpl. by destruct (existingByName !! Name lb).
Qed.

(** *** The plan and its transaction *)

Lemma planLBs_unfold existing lbToSwitchNames lbToRouterNames lbToGroupNames LBs :
  planLBs existing lbToSwitchNames lbToRouterNames lbToGroupNames LBs
  = foldl (planLB (indexExisting existing).1 lbToSwitchNames lbToRouterNames
             lbToGroupNames)
          (emptyPlan (indexExisting existing).2) LBs.
Proof. unfold Loadbalancer.planLBs. by destruct (indexExisting existing). Qed.

Section Fold.

Variable existingByName : gmap string LoadBalancer.
Variables lbToSwitchNames lbToRouterNames lbToGroupNames : gmap string (gset string).

Local Abbreviation step :=
  (planLB existingByName lbToSwitchNames lbToRouterNames lbToGroupNames).

(** A UUID is still pending deletion after the loop when it was before and
    no desired load balancer matched the row that has it. *)
Lemma foldl_planLB_toDelete LBs p u :
  u ∈ toDelete (foldl step p LBs) ↔
  u ∈ toDelete p ∧
  ∀ lb e, lb ∈ LBs → existingByName !! Name lb = Some e → lbUUID e ≠ u.
Proof.
  revert p. induction LBs as [|lb LBs IH]; intros p; simpl.
  { split; [|tauto]. intros Hu. split; [done|]. intros lb e H. by apply elem_of_nil in H. }
  rewrite IH, planLB_unfold. simpl. clear IH.
  destruct (existingByName !! Name lb) as [e|] eqn:He; simpl.
  - rewrite elem_of_difference, elem_of_singleton. split.
    + intros [[Hu Hne] Hrest]. split; [done|]. intros lb' e' Hin He'.
      apply elem_of_cons in Hin as [->|Hin]; [congruence|by eapply Hrest].
    + intros [Hu Hall]. split; [split; [done|]|].
      * intros ->. eapply (Hall lb e); [apply list_elem_of_here|done..].
      * intros lb' e' Hin. apply Hall. by apply list_elem_of_further.
  - split.
    + intros [Hu Hrest]. split; [done|]. intros lb' e' Hin He'.
      apply elem_of_cons in Hin as [->|Hin]; [congruence|by eapply Hrest].
    + intros [Hu Hall]. split; [done|].
      intros lb' e' Hin. apply Hall. by apply list_elem_of_further.
Qed.

(** The rows to create are the built rows of the desired load balancers
    without a same-named existing row. *)
Lemma foldl_planLB_newlbs LBs p row :
  row ∈ newlbs (foldl step p LBs) ↔
  row ∈ newlbs p ∨
  ∃ lb, lb ∈ LBs ∧ existingByName !! Name lb = None ∧ row = buildLB lb.
Proof.
  revert p. induction LBs as [|lb LBs IH]; intros p; simpl.
  { split; [by left|]. intros [?|(lb & H & _)]; [done|]. by apply elem_of_nil in H. }
  rewrite IH, planLB_unfold. simpl. clear IH.
  destruct (existingByName !! Name lb) as [e|] eqn:He; simpl.
  - split.
    + intros [?|(lb' & Hin & ? & ?)]; [by left|right].
      exists lb'. split; [by apply list_elem_of_further|done].
    + intros [?|(lb' & Hin & He' & ?)]; [by left|right].
      apply elem_of_cons in Hin as [->|Hin]; [congruence|by exists lb'].
  - rewrite elem_of_app, list_elem_of_singleton. split.
    + intros [[?| ->]|(lb' & Hin & ? & ?)]; [by left|right..].
      * exists lb. split; [apply list_elem_of_here|done].
      * exists lb'. split; [by apply list_elem_of_further|done].
    + intros [?|(lb' & Hin & He' & ->)]; [by left; left|].
      apply elem_of_cons in Hin as [->|Hin]; [by left; right|right; by exists lb'].
Qed.

(** The rows to update are the built rows of the desired load balancers
    with a same-named existing row, under that row's UUID. *)
Lemma foldl_planLB_existinglbs LBs p row :
  row ∈ existinglbs (foldl step p LBs) ↔
  row ∈ existinglbs p ∨
  ∃ lb e, lb ∈ LBs ∧ existingByName !! Name lb = Some e ∧
          row = setUUID (lbUUID e) (buildLB lb).
Proof.
  revert p. induction LBs as [|lb LBs IH]; intros p; simpl.
  { split; [by left|]. intros [?|(lb & e & H & _)]; [done|]. by apply elem_of_nil in H. }
  rewrite IH, planLB_unfold. simpl. clear IH.
  destruct (existingByName !! Name lb) as [e|] eqn:He; simpl.
  - rewrite elem_of_app, list_elem_of_singleton. split.
    + intros [[?| ->]|(lb' & e' & Hin & ? & ?)]; [by left|right..].
      * exists lb, e. split; [apply list_elem_of_here|done].
      * exists lb', e'. split; [by apply list_elem_of_further|done].
    + intros [?|(lb' & e' & Hin & He' & ->)]; [by left; left|].
      apply elem_of_cons in Hin as [->|Hin].
      * left; right. congruence.
      * right. by exists lb', e'.
  - split.
    + intros [?|(lb' & e' & Hin & ? & ?)]; [by left|right].
      exists lb', e'. split; [by apply list_elem_of_further|done].
    + intros [?|(lb' & e' & Hin & He' & ?)]; [by left|right].
      apply elem_of_cons in Hin as [->|Hin]; [congruence|by exists lb', e'].
Qed.

End Fold.

Lemma attachmentOps_shape op nameToUUID keyMap x :
  x ∈ attachmentOps op nameToUUID keyMap → ∃ target lbs, x = op target lbs.
Proof.
  unfold attachmentOps. intros H. apply list_elem_of_fmap in H as ([k v] & -> & _). eauto.
Qed.

Ltac attachment_cases :=
  repeat match goal with
    | H : _ ∨ _ |- _ => destruct H
    | H : _ ∈ attachmentOps _ _ _ |- _ =>
        apply attachmentOps_shape in H as (? & ? & ?)
    | H : _ ∈ _ <$> _ |- _ => apply list_elem_of_fmap in H as (? & ? & ?)
    end;
  try discriminate.

Lemma planOps_update sn rn gn p row :
  OpUpdateLoadBalancer row ∈ planOps sn rn gn p ↔ row ∈ existinglbs p.
Proof.
  unfold planOps. rewrite !elem_of_app. split.
  - intros H. attachment_cases. by simplify_eq.
  - intros H. left. by apply list_elem_of_fmap_2.
Qed.

Lemma planOps_create sn rn gn p row :
  OpCreateLoadBalancer row ∈ planOps sn rn gn p ↔ row ∈ newlbs p.
Proof.
  unfold planOps. rewrite !elem_of_app. split.
  - intros H. attachment_cases. by simplify_eq.
  - intros H. right; left. by apply list_elem_of_fmap_2.
Qed.

Lemma planOps_delete sn rn gn p u :
  OpDeleteLoadBalancer (rowOfUUID u) ∈ planOps sn rn gn p ↔ u ∈ toDelete p.
Proof.
  unfold planOps. rewrite !elem_of_app. split.
  - intros H. attachment_cases. simpl in *. simplify_eq. by apply elem_of_elements.
  - intros H. do 8 right. apply list_elem_of_fmap. exists u.
    split; [done|]. by apply elem_of_elements.
Qed.

Lemma EnsureLBs_Some nbClient externalIDs LBs ops :
  EnsureLBs nbClient externalIDs LBs = Some ops →
  ∃ s sn r rn g gn,
    ops = planOps sn rn gn
            (planLBs (FindLoadBalancersByExternalIDs nbClient externalIDs) s r g LBs).
Proof.
  unfold Loadbalancer.EnsureLBs.
  destruct (listSwitches nbClient) as [[s sn]|]; [simpl|done].
  destruct (listRouters nbClient) as [[r rn]|]; [simpl|done].
  destruct (listGroups nbClient) as [[g gn]|]; [simpl|done].
  intros [= <-]. by exists s, sn, r, rn, g, gn.
Qed.

(** What a name with colliding rows leads to, in terms of the name map:
    a row of that name which is not the map's entry stays pending
    deletion; a desired load balancer of that name is created when the map
    has no entry and written to the entry's row otherwise, which is then no
    longer pending deletion; and only rows of the map are updated. *)
Lemma plan_by_name existing s r g LBs X :
  NoDup (lbUUID <$> existing) →
  let byName := (indexExisting existing).1 in
  let p := planLBs existing s r g LBs in
  (∀ row, row ∈ existing → lbName row = X → byName !! X ≠ Some row →
          lbUUID row ∈ toDelete p) ∧
  (∀ lb, lb ∈ LBs → Name lb = X →
         match byName !! X with
         | None => buildLB lb ∈ newlbs p
         | Some e =>
             setUUID (lbUUID e) (buildLB lb) ∈ existinglbs p ∧
             lbUUID e ∉ toDelete p
         end) ∧
  (∀ row, row ∈ existinglbs p →
          ∃ n e, byName !! n = Some e ∧ lbUUID row = lbUUID e).
Proof.
  intros Hnodup. cbv zeta. rewrite planLBs_unfold. split; [|split].
  - intros row Hrow Hname Hentry. apply foldl_planLB_toDelete. split.
    + apply indexExisting_toDelete. by apply list_elem_of_fmap_2.
    + intros lb e _ He Huuid. pose proof (indexExisting_row _ _ _ He) as [Hin Hn].
      assert (e = row) as -> by by eapply NoDup_fmap_elem_inj.
      apply Hentry. congruence.
  - intros lb Hlb <-. destruct (_ !! Name lb) as [e|] eqn:He.
    + split.
      * apply foldl_planLB_existinglbs. right. by exists lb, e.
      * rewrite foldl_planLB_toDelete. intros [_ Hall]. by eapply (Hall lb e).
    + apply foldl_planLB_newlbs. right. by exists lb.
  - intros row Hrow. apply foldl_planLB_existinglbs in Hrow as [Hrow|Hrow].
    + by apply elem_of_nil in Hrow.
    + destruct Hrow as (lb & e & _ & He & ->). by exists (Name lb), e.
Qed.

(** C6: for every desired load balancer the loop processes, and every
    switch, router or group name, the built row is appended to the add
    map under that name exactly when the name is desired and not attached
    to the same-named existing row, and to the remove map exactly when it
    is attached and not desired; the order in which the names of a
    difference are visited does not matter. For the store with one row
    [A] attached to [s1] and the desired [A] on [s1] and [s2], the
    transaction is the update of row [A] and the attachment of [A] to
    [s2], with no removal and no deletion. *)
Theorem attachments_are_set_differences :
  (∀ existingByName lbToSwitchNames lbToRouterNames lbToGroupNames p lb target,
     let existingLB := existingByName !! Name lb in
     let blb := rowFor existingLB lb in
     let p' := planLB existingByName lbToSwitchNames lbToRouterNames
                 lbToGroupNames p lb in
     addLBsToSwitch p' !! target
     = appended (addLBsToSwitch p) target blb
         (wanted (Switches lb) ∖ attachedTo lbToSwitchNames existingLB) ∧
     removeLBsFromSwitch p' !! target
     = appended (removeLBsFromSwitch p) target blb
         (attachedTo lbToSwitchNames existingLB ∖ wanted (Switches lb)) ∧
     addLBsToRouter p' !! target
     = appended (addLBsToRouter p) target blb
         (wanted (Routers lb) ∖ attachedTo lbToRouterNames existingLB) ∧
     removesLBsFromRouter p' !! target
     = appended (removesLBsFromRouter p) target blb
         (attachedTo lbToRouterNames existingLB ∖ wanted (Routers lb)) ∧
     addLBsToGroups p' !! target
     = appended (addLBsToGroups p) target blb
         (wanted (Groups lb) ∖ attachedTo lbToGroupNames existingLB) ∧
     removeLBsFromGroups p' !! target
     = appended (removeLBsFromGroups p) target blb
         (attachedTo lbToGroupNames existingLB ∖ wanted (Groups lb))) ∧
  (∀ keyMap keyIn keyNotIn lb keys,
     keys ≡ₚ elements (keyIn ∖ keyNotIn) →
     appendUnderAll keyMap keys lb = mapLBDifferenceByKey keyMap keyIn keyNotIn lb) ∧
  (∀ uuid protocol externalIDs opts rules,
     let lb := mkLB "A" uuid protocol externalIDs opts rules
                 (mkSlice ["s1"%string; "s2"%string]) nilSlice nilSlice in
     EnsureLBs storeA ownerTag [lb]
     = Some [OpUpdateLoadBalancer (setUUID "UUID1" (buildLB lb));
             OpAddLoadBalancersToSwitch (mkTarget EmptyString "s2" [])
               [setUUID "UUID1" (buildLB lb)]]).
Proof.
  split; [|split].
  - intros existingByName lbToSwitchNames lbToRouterNames lbToGroupNames p lb target.
    cbv zeta. rewrite planLB_unfold. simpl.
    by rewrite !mapLBDifferenceByKey_lookup.
  - intros *. apply mapLBDifferenceByKey_unordered.
  - intros *. vm_compute. reflexivity.
Qed.

(** C7: when exactly two rows under the tag share a name (and rows have
    distinct UUIDs, as rows of a table do), the name is dropped from the
    name map, both UUIDs are pending deletion after the loop over the
    desired load balancers whatever these are, both rows are deleted in
    the transaction, a desired load balancer of that name is created as a
    new row, and no updated row carries either UUID. *)
Theorem colliding_pair_deleted nbClient externalIDs LBs X r1 r2 ops :
  NoDup (lbUUID <$> FindLoadBalancersByExternalIDs nbClient externalIDs) →
  filter (λ row, lbName row = X) (FindLoadBalancersByExternalIDs nbClient externalIDs)
  = [r1; r2] →
  EnsureLBs nbClient externalIDs LBs = Some ops →
  (indexExisting (FindLoadBalancersByExternalIDs nbClient externalIDs)).1 !! X = None ∧
  (∀ s r g,
     lbUUID r1 ∈ toDelete (planLBs (FindLoadBalancersByExternalIDs nbClient externalIDs)
                             s r g LBs) ∧
     lbUUID r2 ∈ toDelete (planLBs (FindLoadBalancersByExternalIDs nbClient externalIDs)
                             s r g LBs)) ∧
  OpDeleteLoadBalancer (rowOfUUID (lbUUID r1)) ∈ ops ∧
  OpDeleteLoadBalancer (rowOfUUID (lbUUID r2)) ∈ ops ∧
  (∀ lb, lb ∈ LBs → Name lb = X → OpCreateLoadBalancer (buildLB lb) ∈ ops) ∧
  (∀ row, OpUpdateLoadBalancer row ∈ ops →
          lbUUID row ≠ lbUUID r1 ∧ lbUUID row ≠ lbUUID r2).
Proof.
  set (existing := FindLoadBalancersByExternalIDs nbClient externalIDs).
  intros Hnodup Hpair Hops.
  assert (Hnone : (indexExisting existing).1 !! X = None).
  { by rewrite indexExisting_lookup, Hpair. }
  assert (Hrows : ∀ row, row ∈ [r1; r2] → row ∈ existing ∧ lbName row = X).
  { intros row. rewrite <- Hpair, list_elem_of_filter. tauto. }
  destruct (Hrows r1) as [Hr1 Hn1]; [apply list_elem_of_here|].
  destruct (Hrows r2) as [Hr2 Hn2]; [apply list_elem_of_further, list_elem_of_here|].
  assert (Hpending : ∀ s r g,
             lbUUID r1 ∈ toDelete (planLBs existing s r g LBs) ∧
             lbUUID r2 ∈ toDelete (planLBs existing s r g LBs)).
  { intros s r g. destruct (plan_by_name existing s r g LBs X Hnodup) as (Hdel & _).
    split; apply Hdel; try done; by rewrite Hnone. }
  apply EnsureLBs_Some in Hops as (s & sn & r & rn & g & gn & ->).
  destruct (plan_by_name existing s r g LBs X Hnodup) as (_ & Hnew & Hupd).
  split; [done|]. split; [done|].
  split; [apply planOps_delete, Hpending|].
  split; [apply planOps_delete, Hpending|]. split.
  - intros lb Hlb Hname. apply planOps_create.
    specialize (Hnew lb Hlb Hname). by rewrite Hnone in Hnew.
  - intros row Hrow. apply planOps_update, Hupd in Hrow as (n & e & He & ->).
    pose proof (indexExisting_row _ _ _ He) as [Hin Hn].
    split; intros Huuid.
    + assert (e = r1) as -> by by eapply NoDup_fmap_elem_inj. congruence.
    + assert (e = r2) as -> by by eapply NoDup_fmap_elem_inj. congruence.
Qed.

(** C9 (as amended): the rows under the tag that share a name (rows having
    distinct UUIDs) are deleted or kept by their number. An even number
    of them are all deleted and a desired load balancer of that name is
    created as a new row. Of an odd number, the last in listing order is
    in the name map as if nothing had collided, the others are deleted,
    and a desired load balancer of that name is written to the last
    row's UUID, which is then not deleted; with exactly three such rows
    the first two are deleted and the third is the one reused. *)
Theorem colliding_rows_by_parity nbClient externalIDs LBs X ops :
  let existing := FindLoadBalancersByExternalIDs nbClient externalIDs in
  let colliding := filter (λ row, lbName row = X) existing in
  NoDup (lbUUID <$> existing) →
  EnsureLBs nbClient externalIDs LBs = Some ops →
  (Nat.even (length colliding) = true →
   (indexExisting existing).1 !! X = None ∧
   (∀ row, row ∈ colliding → OpDeleteLoadBalancer (rowOfUUID (lbUUID row)) ∈ ops) ∧
   (∀ lb, lb ∈ LBs → Name lb = X → OpCreateLoadBalancer (buildLB lb) ∈ ops)) ∧
  (Nat.even (length colliding) = false →
   ∃ kept,
     last colliding = Some kept ∧
     (indexExisting existing).1 !! X = Some kept ∧
     (∀ row, row ∈ colliding → row ≠ kept →
             OpDeleteLoadBalancer (rowOfUUID (lbUUID row)) ∈ ops) ∧
     (∀ lb, lb ∈ LBs → Name lb = X →
            OpUpdateLoadBalancer (setUUID (lbUUID kept) (buildLB lb)) ∈ ops ∧
            OpDeleteLoadBalancer (rowOfUUID (lbUUID kept)) ∉ ops)) ∧
  (∀ r1 r2 r3,
     colliding = [r1; r2; r3] →
     (indexExisting existing).1 !! X = Some r3 ∧
     OpDeleteLoadBalancer (rowOfUUID (lbUUID r1)) ∈ ops ∧
     OpDeleteLoadBalancer (rowOfUUID (lbUUID r2)) ∈ ops ∧
     (∀ lb, lb ∈ LBs → Name lb = X →
            OpUpdateLoadBalancer (setUUID (lbUUID r3) (buildLB lb)) ∈ ops ∧
            OpDeleteLoadBalancer (rowOfUUID (lbUUID r3)) ∉ ops)).
Proof.
  intros existing colliding Hnodup Hops.
  apply EnsureLBs_Some in Hops as (s & sn & r & rn & g & gn & ->).
  fold existing.
  destruct (plan_by_name existing s r g LBs X Hnodup) as (Hdel & Hmatch & _).
  assert (Hrows : ∀ row, row ∈ colliding → row ∈ existing ∧ lbName row = X).
  { intros row. unfold colliding. rewrite list_elem_of_filter. tauto. }
  pose proof (indexExisting_lookup existing X) as Hentry. fold colliding in Hentry.
  assert (Hodd : Nat.even (length colliding) = false →
     ∃ kept,
       last colliding = Some kept ∧
       (indexExisting existing).1 !! X = Some kept ∧
       (∀ row, row ∈ colliding → row ≠ kept →
               OpDeleteLoadBalancer (rowOfUUID (lbUUID row))
                 ∈ planOps sn rn gn (planLBs existing s r g LBs)) ∧
       (∀ lb, lb ∈ LBs → Name lb = X →
              OpUpdateLoadBalancer (setUUID (lbUUID kept) (buildLB lb))
                ∈ planOps sn rn gn (planLBs existing s r g LBs) ∧
              OpDeleteLoadBalancer (rowOfUUID (lbUUID kept))
                ∉ planOps sn rn gn (planLBs existing s r g LBs))).
  { intros Heven. rewrite Heven in Hentry.
    destruct (last colliding) as [kept|] eqn:Hlast.
    2:{ apply last_None in Hlast. by rewrite Hlast in Heven. }
    exists kept. split; [done|]. split; [done|]. split.
    - intros row Hrow Hne. destruct (Hrows row Hrow).
      apply planOps_delete, Hdel; [done..|]. rewrite Hentry. congruence.
    - intros lb Hlb Hname. specialize (Hmatch lb Hlb Hname).
      rewrite Hentry in Hmatch. destruct Hmatch as [Hupd Hkept].
      split; [by apply planOps_update|]. by rewrite planOps_delete. }
  split; [|split; [exact Hodd|]].
  - intros Heven. rewrite Heven in Hentry. split; [done|]. split.
    + intros row Hrow. destruct (Hrows row Hrow).
      apply planOps_delete, Hdel; [done..|]. by rewrite Hentry.
    + intros lb Hlb Hname. apply planOps_create.
      specialize (Hmatch lb Hlb Hname). by rewrite Hentry in Hmatch.
  - intros r1 r2 r3 Hthree.
    destruct Hodd as (kept & Hlast & Hkept & Hothers & Hreuse); [by rewrite Hthree|].
    rewrite Hthree in Hlast. injection Hlast as <-.
    assert (NoDup colliding) as Hnd.
    { apply NoDup_filter. by eapply NoDup_fmap_1. }
    rewrite Hthree in Hnd, Hothers.
    apply NoDup_cons in Hnd as [H1 Hnd]. apply NoDup_cons in Hnd as [H2 _].
    split; [done|]. split; [|split; [|done]].
    + apply Hothers; [apply list_elem_of_here|]. intros ->. apply H1.
      apply list_elem_of_further, list_elem_of_here.
    + apply Hothers; [apply list_elem_of_further, list_elem_of_here|].
      intros ->. apply H2, list_elem_of_here.
Qed.

End Plans.

(** *** Closed instances *)

Lemma colliding_pair_deleted_witness :
  filter (λ row, lbName row = "X"%string)
         (FindLoadBalancersByExternalIDs storeXX ownerTag)
  = [taggedRow "u1" "X"; taggedRow "u2" "X"] ∧
  (indexExisting (FindLoadBalancersByExternalIDs storeXX ownerTag)).1 !! "X"%string = None.
Proof.
  split; [vm_compute; reflexivity|].
  refine (proj1 (colliding_pair_deleted hostPort toLowerASCII storeXX ownerTag
                   [desired "X" []] "X" (taggedRow "u1" "X") (taggedRow "u2" "X")
                   _ _ _ _)).
  - apply (bool_decide_unpack _). vm_compute. exact I.
  - vm_compute. reflexivity.
  - vm_compute. reflexivity.
Defined.

Lemma colliding_rows_by_parity_witness :
  (indexExisting (FindLoadBalancersByExternalIDs storeXXX ownerTag)).1 !! "X"%string
  = Some (taggedRow "u3" "X").
Proof.
  refine (proj1 (proj2 (proj2 (colliding_rows_by_parity hostPort toLowerASCII storeXXX
                   ownerTag [desired "X" []] "X" _ _ _))
                   (taggedRow "u1" "X") (taggedRow "u2" "X") (taggedRow "u3" "X") _)).
  - apply (bool_decide_unpack _). vm_compute. exact I.
  - vm_compute. reflexivity.
  - vm_compute. reflexivity.
Defined.

(** C9 as stated fails at four rows of one name: with four rows [X] under
    the tag and a desired [X], the third row is not reused; all four rows
    are deleted and [X] is created as a new row. *)
Lemma four_colliding_rows_all_deleted :
  filter (λ row, lbName row = "X"%string)
         (FindLoadBalancersByExternalIDs storeXXXX ownerTag)
  = [taggedRow "u1" "X"; taggedRow "u2" "X"; taggedRow "u3" "X"; taggedRow "u4" "X"] ∧
  EnsureLBs hostPort toLowerASCII storeXXXX ownerTag [desired "X" []]
  = Some [OpCreateLoadBalancer (buildLB hostPort toLowerASCII (desired "X" []));
          OpDeleteLoadBalancer (rowOfUUID "u3");
          OpDeleteLoadBalancer (rowOfUUID "u1");
          OpDeleteLoadBalancer (rowOfUUID "u2");
          OpDeleteLoadBalancer (rowOfUUID "u4")].
Proof. split; vm_compute; reflexivity. Qed.

End LBTheory.

(** * Further properties of the controller *)

Module NADExtra.
Import NAD NADTheory.

Section Frame.

Context {NetworkAttachmentDefinition : Type}.
Variable ParseNADInfo : NetworkAttachmentDefinition → option NetInfo.

Lemma syncParsed_frame_nads key namespace nadNetwork c k :
  k ≠ key → nads (after (syncParsed key namespace nadNetwork c)) !! k = nads c !! k.
Proof.
  intros Hk. unfold syncParsed.
  destruct (primaryConflict c namespace key nadNetwork); [done|].
  destruct (resolve _ _ _ _ _) as [[old ens] err].
  rewrite settle_nads. destruct ens.
  - by rewrite lookup_insert_ne.
  - by rewrite lookup_delete_ne.
Qed.

Lemma clearPrimary_frame namespace key p ns :
  ns ≠ namespace → clearPrimary namespace key p !! ns = p !! ns.
Proof.
  intros Hns. unfold clearPrimary. case_decide; [|done]. by rewrite lookup_delete_ne.
Qed.

Lemma syncParsed_frame_primary key namespace nadNetwork c ns :
  ns ≠ namespace →
  primaryNADs (after (syncParsed key namespace nadNetwork c)) !! ns = primaryNADs c !! ns.
Proof.
  intros Hns. unfold syncParsed.
  destruct (primaryConflict c namespace key nadNetwork); [done|].
  destruct (resolve _ _ _ _ _) as [[old ens] err].
  rewrite settle_primaryNADs. destruct ens as [e|].
  - destruct (IsPrimaryNetwork e); [by rewrite lookup_insert_ne|by apply clearPrimary_frame].
  - by apply clearPrimary_frame.
Qed.

(** The old network the switch picks is kept under the name the key was
    bound to or under the declaration's name. *)
Lemma resolve_old_name key nadNetwork c old ens err :
  consistent c →
  resolve key (from_option GetNetworkName EmptyString nadNetwork) nadNetwork
    (previousNetwork key (from_option GetNetworkName EmptyString nadNetwork) c)
    (getNetwork (networkManager c) (from_option GetNetworkName EmptyString nadNetwork))
  = (old, ens, err) →
  ∀ o, old = Some o →
       GetNetworkName o = zeroLookup (nads c) key ∨
       GetNetworkName o = from_option GetNetworkName EmptyString nadNetwork.
Proof.
  intros [Hkeyed _ _ _].
  set (name := from_option GetNetworkName EmptyString nadNetwork).
  assert (Hprev : ∀ o, previousNetwork key name c = Some o →
                       GetNetworkName o = zeroLookup (nads c) key).
  { unfold previousNetwork, getNetwork. intros o.
    destruct (decide (name ≠ zeroLookup (nads c) key)); [|done]. apply Hkeyed. }
  unfold resolve, getNetwork.
  destruct (networkManager c !! name) as [cur|] eqn:Hcur.
  - pose proof (Hkeyed _ _ Hcur) as Hname.
    destruct (Equals cur nadNetwork).
    + intros [= <- <- <-] o Ho. left. by apply Hprev.
    + destruct (decide (GetNADs cur ⊆ {[ key ]})).
      * intros [= <- <- <-] o [= <-]. by right.
      * destruct (previousNetwork key name c) as [o'|] eqn:Hp;
          intros [= <- <- <-] o [= <-]; [left; by apply Hprev|by right].
  - intros [= <- <- <-] o Ho. left. by apply Hprev.
Qed.

Lemma syncParsed_frame_manager key namespace nadNetwork c x :
  consistent c →
  x ≠ zeroLookup (nads c) key →
  x ≠ from_option GetNetworkName EmptyString nadNetwork →
  networkManager (after (syncParsed key namespace nadNetwork c)) !! x
  = networkManager c !! x.
Proof.
  intros Hc Hx1 Hx2. unfold syncParsed.
  destruct (primaryConflict c namespace key nadNetwork); [done|].
  destruct (resolve _ _ _ _ _) as [[old ens] err] eqn:Hres.
  pose proof (resolve_old_name _ _ _ _ _ _ Hc Hres) as Hold.
  pose proof (resolve_outcome _ _ _ _ _ _ Hc Hres) as Hout.
  rewrite settle_manager.
  assert ((detachOld key old (networkManager c)).1 !! x = networkManager c !! x) as Hdet.
  { destruct old as [o|]; [|done]. rewrite detachOld_lookup.
    rewrite decide_False; [done|]. intros ->. by destruct (Hold o eq_refl). }
  destruct ens as [e|]; [|done].
  destruct Hout as (_ & n & -> & Hname & _). simpl in Hx2.
  rewrite decide_False; [done|]. congruence.
Qed.

Section Named.

Hypothesis parse_named :
  ∀ d n, ParseNADInfo d = Some n → GetNetworkName n ≠ EmptyString.

(** X1: a sync touches only its own key: the bindings of the other keys
    stay, the primary entries of the other namespaces stay, and so does
    every network registered under a name that is neither the one the key
    was bound to nor the one the declaration gives. *)
Theorem sync_touches_only_its_key key nad c :
  reachable ParseNADInfo c →
  (∀ k, k ≠ key →
        nads (after (syncNAD ParseNADInfo key nad c)) !! k = nads c !! k) ∧
  (∀ ns, (∀ name, SplitMetaNamespaceKey key ≠ Some (ns, name)) →
         primaryNADs (after (syncNAD ParseNADInfo key nad c)) !! ns
         = primaryNADs c !! ns) ∧
  (∀ x, x ≠ zeroLookup (nads c) key →
        (∀ d n, nad = Some d → ParseNADInfo d = Some n → x ≠ GetNetworkName n) →
        networkManager (after (syncNAD ParseNADInfo key nad c)) !! x
        = networkManager c !! x).
Proof.
  intros Hreach. pose proof (reachable_consistent _ parse_named c Hreach) as Hc.
  unfold syncNAD.
  destruct (SplitMetaNamespaceKey key) as [[namespace name]|] eqn:Hsplit; [|done].
  destruct nad as [d|].
  - destruct (ParseNADInfo d) as [n|] eqn:Hparse; [|done]. split; [|split].
    + intros k Hk. by apply syncParsed_frame_nads.
    + intros ns Hns. apply syncParsed_frame_primary. intros ->. by eapply Hns.
    + intros x Hx1 Hx2. apply syncParsed_frame_manager; [done..|]. by eapply Hx2.
  - split; [|split].
    + intros k Hk. by apply syncParsed_frame_nads.
    + intros ns Hns. apply syncParsed_frame_primary. intros ->. by eapply Hns.
    + intros x Hx1 _. destruct (decide (x = EmptyString)) as [->|Hx].
      * assert (consistent (after (syncParsed key namespace None c))) as Hc1
          by by eapply syncParsed_consistent.
        by rewrite (manager_named _ Hc1), (manager_named _ Hc).
      * by apply syncParsed_frame_manager.
Qed.

End Named.

End Frame.

Section Outcome.

Context {NetworkAttachmentDefinition : Type}.
Variable ParseNADInfo : NetworkAttachmentDefinition → option NetInfo.

Hypothesis parse_named :
  ∀ d n, ParseNADInfo d = Some n → GetNetworkName n ≠ EmptyString.

Lemma clearPrimary_not_key namespace key p :
  clearPrimary namespace key p !! namespace ≠ Some key.
Proof.
  unfold clearPrimary. destruct (decide (zeroLookup p namespace = key)) as [Hz|Hz].
  - by rewrite lookup_delete_eq.
  - intros H. by rewrite (zeroLookup_Some _ _ _ H) in Hz.
Qed.

(** After a conflict the network under the declaration's name is still
    registered, with its own configuration. *)
Lemma settle_conflicting_network key namespace old err c n cur :
  (∀ o, old = Some o → networkManager c !! GetNetworkName o = Some o) →
  networkManager c !! GetNetworkName n = Some cur →
  ¬ GetNADs cur ⊆ {[ key ]} →
  ∃ net,
    networkManager (after (settle key namespace old None err c)) !! GetNetworkName n
    = Some net ∧
    netConf net = netConf cur.
Proof.
  intros Hold Hcur Hall. rewrite settle_manager. destruct old as [o|]; [|by eauto].
  rewrite detachOld_lookup. specialize (Hold o eq_refl).
  destruct (decide (GetNetworkName n = GetNetworkName o)) as [Ho|Ho]; [|by eauto].
  assert (o = cur) as -> by (rewrite <- Ho, Hcur in Hold; congruence).
  rewrite decide_False; [by eauto|]. intros Hempty. apply Hall.
  unfold GetNADs, DeleteNADs in *. simpl in Hempty.
  intros k Hk. destruct (decide (k = key)) as [->|Hne]; [by apply elem_of_singleton|].
  assert (k ∈ netNADs cur ∖ {[key]}) as Hk'
    by (rewrite elem_of_difference, elem_of_singleton; done).
  rewrite Hempty in Hk'. by apply not_elem_of_empty in Hk'.
Qed.

(** X2: what a sync of a parsed declaration leaves, by what it returns.
    No error: the key is bound to the declaration's network name, the
    network registered under that name has the declaration's configuration
    and references the key, and the key is the recorded primary of its
    namespace exactly when the network is primary. Configuration conflict:
    the key is bound to nothing and is not the recorded primary, and the
    network under that name is still registered with its own, different
    configuration. Primary conflict: nothing changed, no call was made, and
    another key is the recorded primary. A key that splits never yields the
    split error. *)
Theorem sync_outcome key namespace name d n c :
  reachable ParseNADInfo c →
  SplitMetaNamespaceKey key = Some (namespace, name) →
  ParseNADInfo d = Some n →
  let r := syncNAD ParseNADInfo key (Some d) c in
  match failure r with
  | None =>
      nads (after r) !! key = Some (GetNetworkName n) ∧
      (∃ net,
         networkManager (after r) !! GetNetworkName n = Some net ∧
         netConf net = netConf n ∧ key ∈ GetNADs net) ∧
      (primaryNADs (after r) !! namespace = Some key ↔ IsPrimaryNetwork n = true)
  | Some (ErrConfigMismatch k networkName) =>
      k = key ∧ networkName = GetNetworkName n ∧
      nads (after r) !! key = None ∧
      primaryNADs (after r) !! namespace ≠ Some key ∧
      ∃ net,
        networkManager (after r) !! GetNetworkName n = Some net ∧
        netConf net ≠ netConf n
  | Some (ErrPrimaryConflict primaryNAD k) =>
      k = key ∧ after r = c ∧ calls r = [] ∧ IsPrimaryNetwork n = true ∧
      primaryNADs c !! namespace = Some primaryNAD ∧ primaryNAD ≠ key
  | Some (ErrSplitKey _) => False
  end.
Proof.
  intros Hreach Hsplit Hparse.
  pose proof (reachable_consistent _ parse_named c Hreach) as Hc.
  cbv zeta. unfold syncNAD. rewrite Hsplit, Hparse. unfold syncParsed.
  destruct (primaryConflict c namespace key (Some n)) eqn:Hguard.
  - simpl. unfold primaryConflict in Hguard.
    apply andb_true_iff in Hguard as [Hguard Hkey].
    apply andb_true_iff in Hguard as [Hprimary Hnonempty].
    apply bool_decide_eq_true in Hkey, Hnonempty.
    repeat split; try done. by apply zeroLookup_nonempty.
  - destruct (resolve _ _ _ _ _) as [[old ens] err] eqn:Hres.
    pose proof (resolve_outcome _ _ _ _ _ _ Hc Hres) as Hout.
    assert (∀ n', Some n = Some n' → GetNetworkName n' ≠ EmptyString) as Hn
      by (intros n' [= <-]; by eapply parse_named).
    pose proof (resolve_sound _ _ _ _ _ _ Hc Hn Hres) as [Hold _].
    rewrite settle_failure. destruct ens as [e|].
    + destruct Hout as (-> & n' & [= <-] & Hname & Hconf).
      rewrite settle_nads, settle_primaryNADs. split; [|split].
      * rewrite Hname. apply lookup_insert_eq.
      * exists (AddNADs key e). rewrite settle_manager, <- Hname.
        rewrite decide_True by done. split; [done|]. split; [done|].
        unfold GetNADs, AddNADs. simpl. apply elem_of_union_l, elem_of_singleton. done.
      * unfold IsPrimaryNetwork. rewrite Hconf.
        destruct (rolePrimary (netConf n)).
        -- by rewrite lookup_insert_eq.
        -- split; [|done]. intros H. by apply clearPrimary_not_key in H.
    + destruct Hout as (-> & cur & Hcur & Hneq & Hall). simpl in Hcur.
      rewrite settle_nads, settle_primaryNADs.
      split; [done|]. split; [done|]. split; [apply lookup_delete_eq|].
      split; [apply clearPrimary_not_key|].
      destruct (settle_conflicting_network key namespace old
                  (Some (ErrConfigMismatch key (GetNetworkName n))) c n cur Hold Hcur Hall)
        as (net & Hnet & Hconf).
      exists net. split; [done|]. rewrite Hconf.
      simpl in Hneq. by apply bool_decide_eq_false in Hneq.
Qed.

End Outcome.

Section Registry.

Context {NetworkAttachmentDefinition : Type}.
Variable ParseNADInfo : NetworkAttachmentDefinition → option NetInfo.

Hypothesis parse_named :
  ∀ d n, ParseNADInfo d = Some n → GetNetworkName n ≠ EmptyString.

(** The switch ensures the parsed network only where no other key is bound
    to its name; otherwise it ensures the registered network, so the
    configuration other keys are bound to never changes. *)
Lemma resolve_keeps_conf key nadNetwork c old ens err :
  consistent c →
  resolve key (from_option GetNetworkName EmptyString nadNetwork) nadNetwork
    (previousNetwork key (from_option GetNetworkName EmptyString nadNetwork) c)
    (getNetwork (networkManager c) (from_option GetNetworkName EmptyString nadNetwork))
  = (old, ens, err) →
  ∀ e, ens = Some e →
  ∀ k net, k ≠ key → nads c !! k = Some (GetNetworkName e) →
           networkManager c !! GetNetworkName e = Some net →
           netConf net = netConf e.
Proof.
  intros [Hkeyed Hnamed Href Hprim].
  set (name := from_option GetNetworkName EmptyString nadNetwork).
  unfold resolve, getNetwork.
  destruct (networkManager c !! name) as [cur|] eqn:Hcur.
  - pose proof (Hkeyed _ _ Hcur) as Hname.
    destruct (Equals cur nadNetwork) eqn:Heq.
    + intros [= <- <- <-] e [= <-] k net _ _ Hnet.
      rewrite Hname, Hcur in Hnet. congruence.
    + destruct (decide (GetNADs cur ⊆ {[ key ]})) as [Hall|Hall].
      * intros [= <- <- <-] e -> k net Hk Hb Hnet. simpl in name. subst name.
        destruct (Href _ _ Hb) as (net0 & Hnet0 & Hin).
        rewrite Hcur in Hnet0. simplify_eq.
        apply Hall, elem_of_singleton in Hin. done.
      * by destruct (previousNetwork key name c); intros [= <- <- <-].
  - intros [= <- <- <-] e -> k net _ _ Hnet. simpl in name. subst name. congruence.
Qed.

(** A key other than the synced one stays bound to a registered network
    of the same configuration. *)
Lemma settle_keeps_conf key namespace old ens err c k x net :
  consistent c → sound c key old ens →
  (∀ e, ens = Some e →
   ∀ k net, k ≠ key → nads c !! k = Some (GetNetworkName e) →
            networkManager c !! GetNetworkName e = Some net →
            netConf net = netConf e) →
  k ≠ key → nads c !! k = Some x → networkManager c !! x = Some net →
  ∃ net',
    networkManager (after (settle key namespace old ens err c)) !! x = Some net' ∧
    netConf net' = netConf net.
Proof.
  intros [Hkeyed Hnamed Href Hprim] [Hold Hens] Hkeep Hk Hb Hnet.
  rewrite settle_manager.
  assert (∃ net', (detachOld key old (networkManager c)).1 !! x = Some net' ∧
                  netConf net' = netConf net) as Hdet.
  { destruct old as [o|]; [|by eauto].
    rewrite detachOld_lookup. specialize (Hold o eq_refl).
    destruct (decide (x = GetNetworkName o)) as [->|Hx]; [|by eauto].
    assert (o = net) as -> by congruence.
    rewrite decide_False; [by eauto|].
    destruct (Href _ _ Hb) as (net0 & Hnet0 & Hin).
    assert (net0 = net) as -> by congruence.
    unfold GetNADs, DeleteNADs in *. simpl. intros Hempty.
    assert (k ∈ netNADs net ∖ {[key]}) as Hk'
      by (rewrite elem_of_difference, elem_of_singleton; done).
    rewrite Hempty in Hk'. by apply not_elem_of_empty in Hk'. }
  destruct ens as [e|]; [|done].
  destruct (decide (x = GetNetworkName e)) as [->|Hx]; [|done].
  exists (AddNADs key e). split; [done|]. symmetry. by eapply (Hkeep e).
Qed.

Lemma newNADController_primaryExact : primaryExact newNADController.
Proof. split; intros *; simpl; by rewrite ?lookup_empty. Qed.

Lemma settle_primaryExact key namespace name old ens err c nadNetwork :
  SplitMetaNamespaceKey key = Some (namespace, name) →
  consistent c → primaryExact c → sound c key old ens →
  primaryConflict c namespace key nadNetwork = false →
  (∀ e, ens = Some e → ∃ n, nadNetwork = Some n ∧ netConf e = netConf n) →
  (∀ e, ens = Some e →
   ∀ k net, k ≠ key → nads c !! k = Some (GetNetworkName e) →
            networkManager c !! GetNetworkName e = Some net →
            netConf net = netConf e) →
  primaryExact (after (settle key namespace old ens err c)).
Proof.
  intros Hsplit Hc [Hisp Hrec] Hsound Hguard Hparsed Hkeep.
  pose proof Hc as [Hkeyed Hnamed Href Hprim].
  assert (Hsplits : ∀ ns' k', primaryNADs c !! ns' = Some k' →
                      ∃ n, SplitMetaNamespaceKey k' = Some (ns', n))
    by (intros ns' k' H; by destruct (Hprim _ _ H)).
  assert (Hother : ∀ ns k, primaryNADs c !! ns = Some k → k ≠ key →
            ∃ x net',
              nads (after (settle key namespace old ens err c)) !! k = Some x ∧
              networkManager (after (settle key namespace old ens err c)) !! x
              = Some net' ∧
              IsPrimaryNetwork net' = true).
  { intros ns k Hk Hne. destruct (Hisp _ _ Hk) as (x & net & Hb & Hnet & Hp).
    destruct (settle_keeps_conf key namespace old ens err c k x net) as (net' & Hnet' & Hconf);
      try done.
    exists x, net'. split; [|split; [done|]].
    - rewrite settle_nads. destruct ens; [by rewrite lookup_insert_ne|by rewrite lookup_delete_ne].
    - unfold IsPrimaryNetwork in *. by rewrite Hconf. }
  split.
  - intros ns k. rewrite settle_primaryNADs. intros Hk.
    destruct ens as [e|].
    + destruct (IsPrimaryNetwork e) eqn:Hpe.
      * destruct (decide (ns = namespace)) as [->|Hns].
        -- rewrite lookup_insert_eq in Hk. injection Hk as <-.
           exists (GetNetworkName e), (AddNADs key e).
           rewrite settle_nads, settle_manager, lookup_insert_eq.
           by rewrite decide_True.
        -- rewrite lookup_insert_ne in Hk by done. apply (Hother ns); [done|].
           intros ->. destruct (Hsplits _ _ Hk) as [n Hn]. congruence.
      * destruct (clearPrimary_lookup _ _ _ _ _ _ Hsplit Hsplits Hk). by eapply Hother.
    + destruct (clearPrimary_lookup _ _ _ _ _ _ Hsplit Hsplits Hk). by eapply Hother.
  - intros k ns n' x net' Hkne Hksplit. rewrite settle_nads, settle_primaryNADs.
    intros Hb Hnet' Hp.
    destruct (decide (k = key)) as [->|Hne].
    + rewrite Hsplit in Hksplit. simplify_eq.
      destruct ens as [e|]; [|by rewrite lookup_delete_eq in Hb].
      rewrite lookup_insert_eq in Hb. simplify_eq.
      rewrite settle_manager, decide_True in Hnet' by done. simplify_eq.
      change (IsPrimaryNetwork (AddNADs key e)) with (IsPrimaryNetwork e) in Hp.
      rewrite Hp. apply lookup_insert_eq.
    + assert (nads c !! k = Some x) as Hb0.
      { destruct ens; [by rewrite lookup_insert_ne in Hb|by rewrite lookup_delete_ne in Hb]. }
      destruct (Href _ _ Hb0) as (net0 & Hnet0 & _).
      destruct (settle_keeps_conf key namespace old ens err c k x net0)
        as (net'' & Hnet'' & Hconf); try done.
      rewrite Hnet' in Hnet''. simplify_eq.
      assert (IsPrimaryNetwork net0 = true) as Hp0
        by (unfold IsPrimaryNetwork in *; by rewrite <- Hconf).
      pose proof (Hrec _ _ _ _ _ Hkne Hksplit Hb0 Hnet0 Hp0) as Hk.
      assert (clearPrimary namespace key (primaryNADs c) !! ns = Some k) as Hclear.
      { unfold clearPrimary.
        destruct (decide (zeroLookup (primaryNADs c) namespace = key)) as [Hz|Hz]; [|done].
        rewrite lookup_delete_ne; [done|]. intros <-.
        by rewrite (zeroLookup_Some _ _ _ Hk) in Hz. }
      destruct ens as [e|]; [|done].
      destruct (IsPrimaryNetwork e) eqn:Hpe; [|done].
      destruct (decide (ns = namespace)) as [->|Hns]; [|by rewrite lookup_insert_ne].
      exfalso. destruct (Hparsed e eq_refl) as (n & -> & Hen).
      unfold primaryConflict in Hguard. rewrite (zeroLookup_Some _ _ _ Hk) in Hguard.
      unfold IsPrimaryNetwork in *. rewrite <- Hen, Hpe in Hguard.
      rewrite !bool_decide_eq_true_2 in Hguard by done. done.
Qed.

Lemma syncParsed_primaryExact key namespace name nadNetwork c :
  SplitMetaNamespaceKey key = Some (namespace, name) →
  (∀ n, nadNetwork = Some n → GetNetworkName n ≠ EmptyString) →
  consistent c → primaryExact c →
  primaryExact (after (syncParsed key namespace nadNetwork c)).
Proof.
  intros Hsplit Hn Hc Hp. unfold syncParsed.
  destruct (primaryConflict c namespace key nadNetwork) eqn:Hguard; [done|].
  destruct (resolve _ _ _ _ _) as [[old ens] err] eqn:Hres.
  pose proof (resolve_outcome _ _ _ _ _ _ Hc Hres) as Hout.
  eapply settle_primaryExact; try done.
  - by eapply resolve_sound.
  - intros e ->. destruct Hout as (_ & n & -> & _ & Hconf). eauto.
  - by eapply resolve_keeps_conf.
Qed.

Lemma syncNAD_primaryExact key nad c :
  consistent c → primaryExact c →
  primaryExact (after (syncNAD ParseNADInfo key nad c)).
Proof.
  intros Hc Hp. unfold syncNAD.
  destruct (SplitMetaNamespaceKey key) as [[namespace name]|] eqn:Hsplit; [|done].
  destruct nad as [d|].
  - destruct (ParseNADInfo d) as [n|] eqn:Hparse; [|done].
    eapply syncParsed_primaryExact; try done.
    intros n' [= <-]. by eapply parse_named.
  - by eapply syncParsed_primaryExact.
Qed.

Lemma reachable_primaryExact c : reachable ParseNADInfo c → primaryExact c.
Proof.
  induction 1 as [|key nad c Hc IH].
  - apply newNADController_primaryExact.
  - apply syncNAD_primaryExact; [by apply (reachable_consistent _ parse_named)|done].
Qed.

(** X4: in every state reached by syncNAD calls the recorded primary key
    of a namespace is bound to a primary network, and two non-empty keys
    of one namespace are never both bound to primary networks. *)
Theorem primary_network_unique c :
  reachable ParseNADInfo c →
  (∀ namespace key,
     primaryNADs c !! namespace = Some key →
     ∃ name net,
       nads c !! key = Some name ∧ networkManager c !! name = Some net ∧
       IsPrimaryNetwork net = true) ∧
  (∀ namespace key1 key2 name1 name2 network1 network2 net1 net2,
     key1 ≠ EmptyString → key2 ≠ EmptyString →
     SplitMetaNamespaceKey key1 = Some (namespace, name1) →
     SplitMetaNamespaceKey key2 = Some (namespace, name2) →
     nads c !! key1 = Some network1 → networkManager c !! network1 = Some net1 →
     IsPrimaryNetwork net1 = true →
     nads c !! key2 = Some network2 → networkManager c !! network2 = Some net2 →
     IsPrimaryNetwork net2 = true →
     key1 = key2).
Proof.
  intros Hreach. destruct (reachable_primaryExact c Hreach) as [Hisp Hrec].
  split; [exact Hisp|].
  intros namespace key1 key2 name1 name2 network1 network2 net1 net2
    Hk1 Hk2 Hs1 Hs2 Hb1 Hn1 Hp1 Hb2 Hn2 Hp2.
  pose proof (Hrec _ _ _ _ _ Hk1 Hs1 Hb1 Hn1 Hp1) as H1.
  pose proof (Hrec _ _ _ _ _ Hk2 Hs2 Hb2 Hn2 Hp2) as H2.
  congruence.
Qed.

Section Unreferenced.

Hypothesis parse_unreferenced :
  ∀ d n, ParseNADInfo d = Some n → GetNADs n = ∅.

(** X3: in every state reached by syncNAD calls a network is registered
    exactly when some key is bound to its name, it is registered under
    its own name, and the keys it references are exactly the keys bound
    to it. *)
Theorem references_are_bound_keys c :
  reachable ParseNADInfo c →
  (∀ name,
     is_Some (networkManager c !! name) ↔ ∃ key, nads c !! key = Some name) ∧
  (∀ name net,
     networkManager c !! name = Some net →
     GetNetworkName net = name ∧
     ∀ key, key ∈ GetNADs net ↔ nads c !! key = Some name).
Proof.
  intros Hreach.
  pose proof (reachable_consistent _ parse_named c Hreach) as [Hkeyed Hnamed Href Hprim].
  pose proof (reachable_exact _ parse_named parse_unreferenced c Hreach)
    as [Hbound Hnonempty].
  split.
  - intros name. split.
    + intros [net Hnet].
      destruct (set_choose_L (GetNADs net)) as [key Hkey]; [by eapply Hnonempty|].
      exists key. by eapply Hbound.
    + intros [key Hkey]. destruct (Href _ _ Hkey) as (net & Hnet & _). by exists net.
  - intros name net Hnet. split; [by apply Hkeyed|]. intros key. split.
    + intros Hin. by eapply Hbound.
    + intros Hkey. destruct (Href _ _ Hkey) as (net0 & Hnet0 & Hin). congruence.
Qed.

End Unreferenced.

End Registry.

Section Lifecycle.

Context {NetworkAttachmentDefinition : Type}.
Variable ParseNADInfo : NetworkAttachmentDefinition → option NetInfo.

Hypothesis parse_named :
  ∀ d n, ParseNADInfo d = Some n → GetNetworkName n ≠ EmptyString.
Hypothesis parse_unreferenced :
  ∀ d n, ParseNADInfo d = Some n → GetNADs n = ∅.

(** X5: syncing the deletion of a bound key never fails and unbinds the
    key; the network it was bound to is re-ensured without the key while
    another key is bound to it, and deleted from the manager once the key
    was the last one. *)
Theorem delete_releases_network key namespace name networkName c :
  reachable ParseNADInfo c →
  SplitMetaNamespaceKey key = Some (namespace, name) →
  nads c !! key = Some networkName →
  let r := syncNAD ParseNADInfo key None c in
  failure r = None ∧ nads (after r) = delete key (nads c) ∧
  ∃ net,
    networkManager c !! networkName = Some net ∧
    ((∃ other, other ≠ key ∧ nads c !! other = Some networkName) →
     calls r = [CallEnsureNetwork (DeleteNADs key net)] ∧
     networkManager (after r)
     = <[ networkName := DeleteNADs key net ]> (networkManager c)) ∧
    ((∀ other, nads c !! other = Some networkName → other = key) →
     calls r = [CallDeleteNetwork networkName] ∧
     networkManager (after r) = delete networkName (networkManager c)).
Proof.
  intros Hreach Hsplit Hbound. cbv zeta.
  pose proof (reachable_consistent _ parse_named c Hreach) as [Hkeyed Hnamed Href Hprim].
  pose proof (reachable_exact _ parse_named parse_unreferenced c Hreach)
    as [Hrb Hnonempty].
  destruct (Href _ _ Hbound) as (net & Hnet & Hin).
  pose proof (Hkeyed _ _ Hnet) as Hname.
  assert (networkName ≠ EmptyString) as Hne by (intros ->; congruence).
  assert (syncNAD ParseNADInfo key None c
          = settle key namespace (Some net) None None c) as ->.
  { unfold syncNAD. rewrite Hsplit. unfold syncParsed, primaryConflict.
    cbn [from_option]. unfold previousNetwork.
    rewrite (zeroLookup_Some _ _ _ Hbound), decide_True by done.
    unfold getNetwork. by rewrite Hnet, Hnamed. }
  unfold settle, detachOld.
  destruct (decide (GetNADs (DeleteNADs key net) = ∅)) as [Hempty|Hempty];
    cbn [after calls failure nads networkManager];
    (split; [done|]); (split; [done|]); exists net; (split; [done|]); split.
  - intros (other & Hother & Hb). exfalso.
    destruct (Href _ _ Hb) as (net0 & Hnet0 & Hin0).
    assert (net0 = net) as -> by congruence.
    assert (other ∈ GetNADs (DeleteNADs key net)) as Hin'.
    { unfold GetNADs, DeleteNADs in *. cbn [netNADs].
      rewrite elem_of_difference, elem_of_singleton. done. }
    rewrite Hempty in Hin'. by apply not_elem_of_empty in Hin'.
  - intros _. unfold DeleteNetwork. by rewrite Hname.
  - intros _. unfold EnsureNetwork.
    change (GetNetworkName (DeleteNADs key net)) with (GetNetworkName net).
    by rewrite Hname.
  - intros Hsole. exfalso. apply Hempty. apply set_eq. intros k.
    unfold GetNADs, DeleteNADs in *. cbn [netNADs].
    rewrite elem_of_difference, elem_of_singleton. split; [|by intros ?%not_elem_of_empty].
    intros [Hk Hkne]. exfalso. apply Hkne, Hsole. by eapply Hrb.
Qed.

(** X6: when the only key bound to a network re-declares it with another
    configuration, the sync succeeds: the manager is told to delete the
    network and then to ensure the newly parsed one, which ends up
    registered under the same name, referenced by this key alone. *)
Theorem sole_reference_recreates key namespace name d n cur c :
  reachable ParseNADInfo c →
  SplitMetaNamespaceKey key = Some (namespace, name) →
  ParseNADInfo d = Some n →
  nads c !! key = Some (GetNetworkName n) →
  networkManager c !! GetNetworkName n = Some cur →
  netConf cur ≠ netConf n →
  (∀ other, nads c !! other = Some (GetNetworkName n) → other = key) →
  primaryConflict c namespace key (Some n) = false →
  let r := syncNAD ParseNADInfo key (Some d) c in
  failure r = None ∧
  calls r = [CallDeleteNetwork (GetNetworkName n); CallEnsureNetwork (AddNADs key n)] ∧
  nads (after r) = nads c ∧
  networkManager (after r)
  = <[ GetNetworkName n := AddNADs key n ]> (networkManager c) ∧
  GetNADs (AddNADs key n) = {[ key ]}.
Proof.
  intros Hreach Hsplit Hparse Hbound Hcur Hconf Hsole Hguard. cbv zeta.
  pose proof (reachable_consistent _ parse_named c Hreach) as [Hkeyed Hnamed Href Hprim].
  pose proof (reachable_exact _ parse_named parse_unreferenced c Hreach)
    as [Hrb Hnonempty].
  pose proof (Hkeyed _ _ Hcur) as Hname.
  assert (GetNADs cur ⊆ {[ key ]}) as Hall.
  { intros k Hk. apply elem_of_singleton, Hsole. by eapply Hrb. }
  assert (GetNADs (DeleteNADs key cur) = ∅) as Hempty.
  { apply set_eq. intros k. unfold GetNADs, DeleteNADs in *. cbn [netNADs].
    rewrite elem_of_difference. split; [|by intros ?%not_elem_of_empty].
    intros [Hk Hkne]. exfalso. apply Hkne. by apply Hall. }
  assert (syncNAD ParseNADInfo key (Some d) c
          = settle key namespace (Some cur) (Some n) None c) as ->.
  { unfold syncNAD. rewrite Hsplit, Hparse. unfold syncParsed. rewrite Hguard.
    cbn [from_option]. unfold previousNetwork.
    rewrite (zeroLookup_Some _ _ _ Hbound), decide_False by (intros H; by apply H).
    unfold getNetwork. rewrite Hcur. unfold resolve, Equals.
    rewrite bool_decide_eq_false_2 by done. by rewrite decide_True. }
  unfold settle, detachOld. rewrite decide_True by done.
  cbn [after calls failure nads networkManager app].
  split; [done|]. split; [by rewrite Hname|]. split.
  { apply insert_id. done. }
  split.
  - unfold EnsureNetwork, DeleteNetwork.
    change (GetNetworkName (AddNADs key n)) with (GetNetworkName n).
    rewrite Hname. apply insert_delete_eq.
  - unfold GetNADs, AddNADs. cbn [netNADs].
    pose proof (parse_unreferenced _ _ Hparse) as Hu. unfold GetNADs in Hu.
    rewrite Hu. apply (right_id_L ∅ (∪)).
Qed.

(** X7: a declaration under a key bound to nothing, naming a registered
    network with another configuration, is rejected with the mismatch
    error: nothing of the controller changes, and the manager is only told
    to ensure the registered network as it is. *)
Theorem conflicting_newcomer_rejected key namespace name d n cur c :
  reachable ParseNADInfo c →
  SplitMetaNamespaceKey key = Some (namespace, name) →
  ParseNADInfo d = Some n →
  nads c !! key = None →
  networkManager c !! GetNetworkName n = Some cur →
  netConf cur ≠ netConf n →
  primaryConflict c namespace key (Some n) = false →
  syncNAD ParseNADInfo key (Some d) c
  = mkResult c [CallEnsureNetwork cur]
      (Some (ErrConfigMismatch key (GetNetworkName n))).
Proof.
  intros Hreach Hsplit Hparse Hunbound Hcur Hconf Hguard.
  pose proof (reachable_consistent _ parse_named c Hreach) as [Hkeyed Hnamed Href Hprim].
  pose proof (reachable_exact _ parse_named parse_unreferenced c Hreach)
    as [Hrb Hnonempty].
  unfold syncNAD. rewrite Hsplit, Hparse.
  assert (key ∉ GetNADs cur) as Hnin.
  { intros Hin. pose proof (Hrb _ _ _ Hcur Hin). congruence. }
  apply resync_conflict; try done.
  - by eapply parse_named.
  - by apply Hkeyed.
  - unfold Equals. by apply bool_decide_eq_false_2.
  - intros Hall. destruct (set_choose_L (GetNADs cur)) as [k Hk]; [by eapply Hnonempty|].
    pose proof (Hall _ Hk) as ->%elem_of_singleton. done.
  - unfold clearPrimary. case_decide as Hz; [|done]. apply delete_id.
    destruct (primaryNADs c !! namespace) as [p|] eqn:Hp; [|done]. exfalso.
    rewrite (zeroLookup_Some _ _ _ Hp) in Hz. subst p.
    destruct (Hprim _ _ Hp) as [_ [x Hx]]. congruence.
Qed.

End Lifecycle.

Section Delivering.

Context {NetworkAttachmentDefinition : Type}.
Variable ParseNADInfo : NetworkAttachmentDefinition → option NetInfo.
Variable MetaNamespaceKeyFunc : NetworkAttachmentDefinition → option string.

Hypothesis parse_named :
  ∀ d n, ParseNADInfo d = Some n → GetNetworkName n ≠ EmptyString.

Lemma syncNAD_frame_nads key nad c k :
  k ≠ key → nads (after (syncNAD ParseNADInfo key nad c)) !! k = nads c !! k.
Proof.
  intros Hk. unfold syncNAD. destruct (SplitMetaNamespaceKey key) as [[ns name]|]; [|done].
  destruct nad as [d|]; [destruct (ParseNADInfo d); [|done]|];
    by apply syncParsed_frame_nads.
Qed.

(** A sync of a parsed declaration that returns no error has bound the
    key to the declaration's network name. *)
Lemma syncParsed_success_bound key namespace n c :
  consistent c →
  failure (syncParsed key namespace (Some n) c) = None →
  nads (after (syncParsed key namespace (Some n) c)) !! key = Some (GetNetworkName n).
Proof.
  intros Hc. unfold syncParsed.
  destruct (primaryConflict c namespace key (Some n)); [done|].
  destruct (resolve _ _ _ _ _) as [[old ens] err] eqn:Hres.
  pose proof (resolve_outcome _ _ _ _ _ _ Hc Hres) as Hout.
  rewrite settle_failure, settle_nads. destruct ens as [e|].
  - intros _. destruct Hout as (_ & n' & [= <-] & Hname & _).
    rewrite lookup_insert_eq. f_equal. exact Hname.
  - destruct Hout as [-> _]. done.
Qed.

(** A sync of a deletion returns no error. *)
Lemma syncParsed_deleted_succeeds key namespace c :
  consistent c → failure (syncParsed key namespace None c) = None.
Proof.
  intros Hc. unfold syncParsed, primaryConflict.
  destruct (resolve _ _ _ _ _) as [[old ens] err] eqn:Hres.
  pose proof (resolve_outcome _ _ _ _ _ _ Hc Hres) as Hout.
  rewrite settle_failure. destruct ens as [e|]; [done|]. exact Hout.
Qed.

Lemma syncEach_reachable existingNADs c :
  reachable ParseNADInfo c →
  reachable ParseNADInfo
    (afterAll (syncEach ParseNADInfo MetaNamespaceKeyFunc existingNADs c)).
Proof.
  revert c. induction existingNADs as [|nad rest IH]; intros c Hc; [done|].
  cbn [syncEach]. destruct (MetaNamespaceKeyFunc nad) as [key|]; [|by apply IH].
  destruct (failure (syncNAD ParseNADInfo key (Some nad) c)).
  - by constructor.
  - apply IH. by constructor.
Qed.

Lemma syncEach_frame_nads existingNADs c k :
  k ∉ omap MetaNamespaceKeyFunc existingNADs →
  nads (afterAll (syncEach ParseNADInfo MetaNamespaceKeyFunc existingNADs c)) !! k
  = nads c !! k.
Proof.
  revert c. induction existingNADs as [|nad rest IH]; intros c Hk; [done|].
  cbn [syncEach omap list_omap] in *.
  destruct (MetaNamespaceKeyFunc nad) as [key|]; [|by apply IH].
  apply not_elem_of_cons in Hk as [Hne Hk].
  destruct (failure (syncNAD ParseNADInfo key (Some nad) c)); cbn [afterAll].
  - by apply syncNAD_frame_nads.
  - rewrite IH by done. by apply syncNAD_frame_nads.
Qed.

(** [syncEach] over a list in two parts: when the first part syncs without
    error, the second part is synced from the state the first part left. *)
Lemma syncEach_app before rest c :
  failureAll (syncEach ParseNADInfo MetaNamespaceKeyFunc before c) = None →
  let r1 := syncEach ParseNADInfo MetaNamespaceKeyFunc before c in
  let r2 := syncEach ParseNADInfo MetaNamespaceKeyFunc rest (afterAll r1) in
  syncEach ParseNADInfo MetaNamespaceKeyFunc (before ++ rest) c
  = mkAllResult (afterAll r2) (callsAll r1 ++ callsAll r2) (failureAll r2).
Proof.
  cbv zeta. revert c. induction before as [|nad before IH]; intros c Hok.
  - cbn [syncEach app afterAll callsAll]. by destruct (syncEach _ _ rest c).
  - cbn [syncEach app] in *. destruct (MetaNamespaceKeyFunc nad) as [key|]; [|by apply IH].
    destruct (failure (syncNAD ParseNADInfo key (Some nad) c)); [done|].
    cbn [failureAll afterAll callsAll] in *. rewrite IH by done.
    cbn [afterAll callsAll failureAll]. by rewrite (assoc_L (++)).
Qed.

(** X8: the initial sync keeps the controller within the reachable
    states, and when it returns no error over declarations with distinct
    keys, every listed declaration that has a key and parses is bound to
    its network name. *)
Theorem syncAll_binds_listed existingNADs c :
  reachable ParseNADInfo c →
  NoDup (omap MetaNamespaceKeyFunc existingNADs) →
  let r := syncAll ParseNADInfo MetaNamespaceKeyFunc (inr existingNADs) c in
  reachable ParseNADInfo (afterAll r) ∧
  (failureAll r = None →
   ∀ nad key n,
     nad ∈ existingNADs → MetaNamespaceKeyFunc nad = Some key →
     ParseNADInfo nad = Some n →
     nads (afterAll r) !! key = Some (GetNetworkName n)).
Proof.
  intros Hreach Hdup. cbv zeta. cbn [syncAll]. split; [by apply syncEach_reachable|].
  revert c Hreach Hdup. induction existingNADs as [|nad0 rest IH]; intros c Hreach Hdup Hok.
  { intros nad key n Hin. by apply elem_of_nil in Hin. }
  intros nad key n Hin Hkey Hparse. cbn [syncEach omap list_omap] in *.
  destruct (MetaNamespaceKeyFunc nad0) as [key0|] eqn:Hkey0.
  - apply NoDup_cons in Hdup as [Hfresh Hdup].
    destruct (failure (syncNAD ParseNADInfo key0 (Some nad0) c)) eqn:Hfail; [done|].
    cbn [afterAll failureAll] in *.
    apply elem_of_cons in Hin as [->|Hin].
    + assert (key0 = key) as -> by congruence.
      rewrite syncEach_frame_nads by done.
      revert Hfail. unfold syncNAD.
      destruct (SplitMetaNamespaceKey key) as [[ns name]|]; [|done].
      rewrite Hparse. apply syncParsed_success_bound.
      by apply (reachable_consistent _ parse_named).
    + eapply (IH (after (syncNAD ParseNADInfo key0 (Some nad0) c))); try done.
      by constructor.
  - apply elem_of_cons in Hin as [->|Hin]; [congruence|]. by eapply IH.
Qed.

(** X9: the initial sync stops at the first declaration whose sync
    fails: it returns that failure and the state that sync left, whatever
    declarations are listed after it. *)
Theorem syncAll_stops_at_failure before nad rest key e c :
  failureAll (syncEach ParseNADInfo MetaNamespaceKeyFunc before c) = None →
  MetaNamespaceKeyFunc nad = Some key →
  failure (syncNAD ParseNADInfo key (Some nad)
             (afterAll (syncEach ParseNADInfo MetaNamespaceKeyFunc before c)))
  = Some e →
  let r := syncAll ParseNADInfo MetaNamespaceKeyFunc (inr (before ++ nad :: rest)) c in
  failureAll r = Some (ErrSyncNAD key e) ∧
  afterAll r
  = after (syncNAD ParseNADInfo key (Some nad)
             (afterAll (syncEach ParseNADInfo MetaNamespaceKeyFunc before c))).
Proof.
  intros Hok Hkey Hfail. cbv zeta. cbn [syncAll].
  rewrite syncEach_app by done. cbn [syncEach afterAll failureAll].
  rewrite Hkey, Hfail. done.
Qed.

(** X10: [sync] never returns the key-splitting error of syncNAD, and
    when it returns a lister error it has changed nothing and called
    nothing. *)
Theorem sync_split_error_unreachable lister key c :
  let r := sync ParseNADInfo lister key c in
  (∀ k, failureKey r ≠ Some (ErrSync (ErrSplitKey k))) ∧
  (∀ cause, failureKey r = Some (ErrGet cause) → afterKey r = c ∧ callsKey r = []).
Proof.
  cbv zeta. unfold sync.
  destruct (SplitMetaNamespaceKey key) as [[namespace name]|] eqn:Hsplit; [|done].
  assert (∀ nad k, failure (syncNAD ParseNADInfo key nad c) ≠ Some (ErrSplitKey k)) as Hno.
  { intros nad k. unfold syncNAD. rewrite Hsplit.
    destruct nad as [d|]; [destruct (ParseNADInfo d); [|done]|];
      unfold syncParsed;
      (destruct (primaryConflict _ _ _ _); [done|]);
      destruct (resolve _ _ _ _ _) as [[old ens] err] eqn:Hres;
      rewrite settle_failure; (destruct ens; [done|]);
      revert Hres; unfold resolve;
      repeat (case_match; try done); intros [=]; by subst. }
  destruct (lister namespace name) as [nad| |cause]; cbn [failureKey afterKey callsKey].
  - split; [|by destruct (failure _)].
    intros k Hk. apply (Hno (Some nad) k).
    destruct (failure _) as [e|]; [|done]. cbn in Hk. by injection Hk as ->.
  - split; [|by destruct (failure _)].
    intros k Hk. apply (Hno None k).
    destruct (failure _) as [e|]; [|done]. cbn in Hk. by injection Hk as ->.
  - done.
Qed.

Section Unreferenced.

Hypothesis parse_unreferenced :
  ∀ d n, ParseNADInfo d = Some n → GetNADs n = ∅.

(** X11: when the lister does not find the declaration, [sync] returns
    no error and the key is forgotten everywhere: it is bound to nothing,
    it is the primary key of no namespace, and no registered network
    references it. *)
Theorem sync_not_found_forgets lister key namespace name c :
  reachable ParseNADInfo c →
  SplitMetaNamespaceKey key = Some (namespace, name) →
  lister namespace name = NotFound →
  let r := sync ParseNADInfo lister key c in
  failureKey r = None ∧
  nads (afterKey r) !! key = None ∧
  (∀ ns, primaryNADs (afterKey r) !! ns ≠ Some key) ∧
  (∀ x net, networkManager (afterKey r) !! x = Some net → key ∉ GetNADs net).
Proof.
  intros Hreach Hsplit Hlist. cbv zeta. unfold sync. rewrite Hsplit, Hlist.
  cbn [failureKey afterKey].
  assert (reachable ParseNADInfo (after (syncNAD ParseNADInfo key None c))) as Hafter
    by (by constructor).
  pose proof (reachable_consistent _ parse_named _ Hafter) as [_ _ _ Hprim].
  pose proof (reachable_exact _ parse_named parse_unreferenced _ Hafter) as [Hrb _].
  pose proof (reachable_consistent _ parse_named _ Hreach) as Hc.
  assert (nads (after (syncNAD ParseNADInfo key None c)) !! key = None) as Hgone.
  { unfold syncNAD. rewrite Hsplit.
    destruct (syncParsed_deleted key namespace c) as [-> _]. apply lookup_delete_eq. }
  split; [|split; [done|split]].
  - unfold syncNAD. rewrite Hsplit. by rewrite syncParsed_deleted_succeeds.
  - intros ns Hns. destruct (Hprim _ _ Hns) as [_ [x Hx]]. congruence.
  - intros x net Hnet Hin. pose proof (Hrb _ _ _ Hnet Hin). congruence.
Qed.

End Unreferenced.

End Delivering.

(** X12: between two objects with different resource versions, the new
    one not marked for deletion, [nadNeedsUpdate] answers false exactly
    when the configurations are equal and the route-advertisements
    annotation has the same non-empty value, or none, on both: an
    annotation that is absent and one that is empty are not told apart,
    and no other annotation is looked at. *)
Theorem nadNeedsUpdate_false_iff OvnRouteAdvertisementsKey o n :
  ResourceVersion o ≠ ResourceVersion n →
  DeletionTimestampIsZero n = true →
  nadNeedsUpdate OvnRouteAdvertisementsKey (Some o) (Some n) = false ↔
  SpecConfig o = SpecConfig n ∧
  ∀ v, v ≠ EmptyString →
       (Annotations o !! OvnRouteAdvertisementsKey = Some v ↔
        Annotations n !! OvnRouteAdvertisementsKey = Some v).
Proof.
  intros Hrv Hdel. unfold nadNeedsUpdate.
  rewrite bool_decide_eq_false_2, Hdel by done. cbn [negb orb].
  rewrite orb_false_iff, !negb_false_iff, !bool_decide_eq_true.
  unfold zeroLookup.
  destruct (Annotations o !! OvnRouteAdvertisementsKey) as [a|],
           (Annotations n !! OvnRouteAdvertisementsKey) as [b|]; simpl;
    (split; intros [Hspec Hann]; (split; [done|])).
  - by subst b.
  - destruct (decide (a = EmptyString)) as [->|Ha].
    + destruct (decide (b = EmptyString)) as [->|Hb]; [done|].
      by pose proof (proj2 (Hann b Hb) eq_refl) as [= ->].
    + by pose proof (proj1 (Hann a Ha) eq_refl) as [= ->].
  - subst a. intros v Hv. split; intros ?; simplify_eq.
  - destruct (decide (a = EmptyString)) as [->|Ha]; [done|].
    by pose proof (proj1 (Hann a Ha) eq_refl).
  - subst b. intros v Hv. split; intros ?; simplify_eq.
  - destruct (decide (b = EmptyString)) as [->|Hb]; [done|].
    by pose proof (proj2 (Hann b Hb) eq_refl).
  - done.
  - done.
Qed.

Section Active.

Context {NetworkAttachmentDefinition : Type}.
Variable ParseNADInfo : NetworkAttachmentDefinition → option NetInfo.

Hypothesis parse_named :
  ∀ d n, ParseNADInfo d = Some n → GetNetworkName n ≠ EmptyString.

(** X13: with network segmentation enabled, a namespace in which a
    non-empty key is bound to a primary network has that network as its
    active network, restricted to that key, whatever the lister of user
    defined networks would answer. *)
Theorem active_network_is_declared_primary udnLister key namespace name networkName net c :
  reachable ParseNADInfo c →
  key ≠ EmptyString →
  SplitMetaNamespaceKey key = Some (namespace, name) →
  nads c !! key = Some networkName →
  networkManager c !! networkName = Some net →
  IsPrimaryNetwork net = true →
  GetActiveNetworkForNamespace true udnLister c namespace
  = (Returns (Secondary (SetNADs key net)),
     [RLock; AskGetNetwork networkName; RUnlock]).
Proof.
  intros Hreach Hkey Hsplit Hbound Hnet Hprimary.
  pose proof (reachable_consistent _ parse_named c Hreach) as [_ Hnamed _ _].
  destruct (reachable_primaryExact _ parse_named c Hreach) as [_ Hrec].
  pose proof (Hrec _ _ _ _ _ Hkey Hsplit Hbound Hnet Hprimary) as Hp.
  unfold GetActiveNetworkForNamespace. cbn [negb].
  rewrite (zeroLookup_Some _ _ _ Hp), decide_True by done.
  rewrite (zeroLookup_Some _ _ _ Hbound).
  rewrite decide_False by (intros ->; congruence).
  unfold getNetwork. by rewrite Hnet.
Qed.

End Active.

(** ** Closed instances *)

Lemma sync_touches_only_its_key_witness :
  nads (after (syncNAD sampleParse "ns/a" None twoDeclarations)) !! "ns/b"%string
  = nads twoDeclarations !! "ns/b"%string.
Proof.
  refine (proj1 (sync_touches_only_its_key sampleParse sampleParse_named
                   "ns/a" None twoDeclarations twoDeclarations_reachable)
            "ns/b"%string _).
  discriminate.
Defined.

Lemma sync_outcome_witness :
  nads (after (syncNAD sampleParse "ns/c" (Some (layer3 "n1" "10.0.0.0/16" false))
                 twoDeclarations)) !! "ns/c"%string
  = Some "n1"%string.
Proof.
  assert (SplitMetaNamespaceKey "ns/c" = Some ("ns"%string, "c"%string)) as Hsplit
    by reflexivity.
  assert (sampleParse (layer3 "n1" "10.0.0.0/16" false)
          = Some (mkNetInfo "n1" (mkNetConf "layer3" "10.0.0.0/16" 1400 false) ∅))
    as Hparse by (vm_compute; reflexivity).
  pose proof (sync_outcome sampleParse sampleParse_named "ns/c" "ns" "c"
                (layer3 "n1" "10.0.0.0/16" false) _ twoDeclarations
                twoDeclarations_reachable Hsplit Hparse) as H.
  cbv zeta in H.
  assert (failure (syncNAD sampleParse "ns/c" (Some (layer3 "n1" "10.0.0.0/16" false))
                     twoDeclarations) = None) as Hok by (vm_compute; reflexivity).
  rewrite Hok in H. exact (proj1 H).
Defined.

Lemma references_are_bound_keys_witness :
  is_Some (networkManager sharedNetwork !! "n1"%string) ↔
  ∃ key, nads sharedNetwork !! key = Some "n1"%string.
Proof.
  exact (proj1 (references_are_bound_keys sampleParse sampleParse_named
                  sampleParse_unreferenced sharedNetwork sharedNetwork_reachable)
           "n1"%string).
Defined.

Lemma primary_network_unique_witness :
  ∃ name net,
    nads twoDeclarations !! "ns/b"%string = Some name ∧
    networkManager twoDeclarations !! name = Some net ∧
    IsPrimaryNetwork net = true.
Proof.
  refine (proj1 (primary_network_unique sampleParse sampleParse_named
                   twoDeclarations twoDeclarations_reachable)
            "ns"%string "ns/b"%string _).
  vm_compute. reflexivity.
Defined.

Lemma delete_releases_network_witness :
  let r := syncNAD sampleParse "ns/a" None sharedNetwork in
  failure r = None ∧ nads (after r) = delete "ns/a"%string (nads sharedNetwork) ∧
  ∃ net,
    networkManager sharedNetwork !! "n1"%string = Some net ∧
    ((∃ other, other ≠ "ns/a"%string ∧ nads sharedNetwork !! other = Some "n1"%string) →
     calls r = [CallEnsureNetwork (DeleteNADs "ns/a" net)] ∧
     networkManager (after r)
     = <[ "n1"%string := DeleteNADs "ns/a" net ]> (networkManager sharedNetwork)) ∧
    ((∀ other, nads sharedNetwork !! other = Some "n1"%string → other = "ns/a"%string) →
     calls r = [CallDeleteNetwork "n1"] ∧
     networkManager (after r) = delete "n1"%string (networkManager sharedNetwork)).
Proof.
  refine (delete_releases_network sampleParse sampleParse_named sampleParse_unreferenced
            "ns/a" "ns" "a" "n1" sharedNetwork sharedNetwork_reachable _ _).
  - reflexivity.
  - vm_compute. reflexivity.
Defined.

Lemma sole_reference_recreates_witness :
  calls (syncNAD sampleParse "ns/a" (Some (layer3 "n1" "10.9.0.0/16" false))
           twoDeclarations)
  = [CallDeleteNetwork "n1";
     CallEnsureNetwork
       (AddNADs "ns/a" (mkNetInfo "n1" (mkNetConf "layer3" "10.9.0.0/16" 1400 false) ∅))].
Proof.
  refine (proj1 (proj2 (sole_reference_recreates sampleParse sampleParse_named
            sampleParse_unreferenced "ns/a" "ns" "a"
            (layer3 "n1" "10.9.0.0/16" false)
            (mkNetInfo "n1" (mkNetConf "layer3" "10.9.0.0/16" 1400 false) ∅)
            (mkNetInfo "n1" (mkNetConf "layer3" "10.0.0.0/16" 1400 false)
               ({[ "ns/a"%string ]} ∪ ∅))
            twoDeclarations twoDeclarations_reachable _ _ _ _ _ _ _))).
  - reflexivity.
  - vm_compute. reflexivity.
  - vm_compute. reflexivity.
  - vm_compute. reflexivity.
  - discriminate.
  - intros other Hother.
    assert (map_Forall (λ k v, v = "n1"%string → k = "ns/a"%string)
              (nads twoDeclarations)) as Hall
      by (apply (bool_decide_unpack _); vm_compute; exact I).
    exact (Hall other _ Hother eq_refl).
  - vm_compute. reflexivity.
Defined.

Lemma conflicting_newcomer_rejected_witness :
  syncNAD sampleParse "ns/c" (Some (layer3 "n1" "10.9.0.0/16" false)) twoDeclarations
  = mkResult twoDeclarations
      [CallEnsureNetwork
         (mkNetInfo "n1" (mkNetConf "layer3" "10.0.0.0/16" 1400 false)
            ({[ "ns/a"%string ]} ∪ ∅))]
      (Some (ErrConfigMismatch "ns/c" "n1")).
Proof.
  refine (conflicting_newcomer_rejected sampleParse sampleParse_named
            sampleParse_unreferenced "ns/c" "ns" "c"
            (layer3 "n1" "10.9.0.0/16" false)
            (mkNetInfo "n1" (mkNetConf "layer3" "10.9.0.0/16" 1400 false) ∅)
            (mkNetInfo "n1" (mkNetConf "layer3" "10.0.0.0/16" 1400 false)
               ({[ "ns/a"%string ]} ∪ ∅))
            twoDeclarations twoDeclarations_reachable _ _ _ _ _ _).
  - reflexivity.
  - vm_compute. reflexivity.
  - vm_compute. reflexivity.
  - vm_compute. reflexivity.
  - discriminate.
  - vm_compute. reflexivity.
Defined.

Lemma syncAll_binds_listed_witness :
  nads (afterAll (syncAll sampleParse sampleKey
                    (inr [layer3 "n1" "10.0.0.0/16" false; layer3 "p" "10.1.0.0/16" true])
                    newNADController)) !! "ns/p"%string
  = Some "p"%string.
Proof.
  refine (proj2 (syncAll_binds_listed sampleParse sampleKey sampleParse_named
                   [layer3 "n1" "10.0.0.0/16" false; layer3 "p" "10.1.0.0/16" true]
                   newNADController (reachable_new _ _) _) _
            (layer3 "p" "10.1.0.0/16" true) "ns/p"%string
            (mkNetInfo "p" (mkNetConf "layer3" "10.1.0.0/16" 1400 true) ∅) _ _ _).
  - apply (bool_decide_unpack _). vm_compute. exact I.
  - vm_compute. reflexivity.
  - apply list_elem_of_further, list_elem_of_here.
  - reflexivity.
  - vm_compute. reflexivity.
Defined.

Lemma syncAll_stops_at_failure_witness :
  failureAll (syncAll sampleParse sampleKey
                (inr ([layer3 "p" "10.1.0.0/16" true]
                      ++ layer3 "q" "10.2.0.0/16" true
                      :: [layer3 "n1" "10.0.0.0/16" false]))
                newNADController)
  = Some (ErrSyncNAD "ns/q" (ErrPrimaryConflict "ns/p" "ns/q")).
Proof.
  refine (proj1 (syncAll_stops_at_failure sampleParse sampleKey
                   [layer3 "p" "10.1.0.0/16" true] (layer3 "q" "10.2.0.0/16" true)
                   [layer3 "n1" "10.0.0.0/16" false] "ns/q"
                   (ErrPrimaryConflict "ns/p" "ns/q") newNADController _ _ _)).
  - vm_compute. reflexivity.
  - reflexivity.
  - vm_compute. reflexivity.
Defined.

Lemma sync_not_found_forgets_witness :
  let r := sync sampleParse (λ _ _, NotFound) "ns/b" twoDeclarations in
  failureKey r = None ∧
  nads (afterKey r) !! "ns/b"%string = None ∧
  (∀ ns, primaryNADs (afterKey r) !! ns ≠ Some "ns/b"%string) ∧
  (∀ x net, networkManager (afterKey r) !! x = Some net → "ns/b"%string ∉ GetNADs net).
Proof.
  refine (sync_not_found_forgets sampleParse sampleParse_named sampleParse_unreferenced
            (λ _ _, NotFound) "ns/b" "ns" "b" twoDeclarations
            twoDeclarations_reachable _ _).
  - reflexivity.
  - reflexivity.
Defined.

Lemma nadNeedsUpdate_false_iff_witness :
  nadNeedsUpdate "k8s.ovn.org/route-advertisements"
    (Some (mkNADObject "1" true "{}" ∅))
    (Some (mkNADObject "2" true "{}"
             {[ "k8s.ovn.org/route-advertisements"%string := EmptyString ]}))
  = false.
Proof.
  refine (proj2 (nadNeedsUpdate_false_iff "k8s.ovn.org/route-advertisements"
                   (mkNADObject "1" true "{}" ∅)
                   (mkNADObject "2" true "{}"
                      {[ "k8s.ovn.org/route-advertisements"%string := EmptyString ]})
                   _ _) _).
  - discriminate.
  - reflexivity.
  - split; [reflexivity|]. intros v Hv. cbn [Annotations].
    rewrite lookup_empty, lookup_singleton_eq. split; intros [=]. by subst v.
Defined.

Lemma active_network_is_declared_primary_witness :
  GetActiveNetworkForNamespace true (λ _, ListFailed "unavailable") twoDeclarations "ns"
  = (Returns (Secondary
       (SetNADs "ns/b"
          (mkNetInfo "p" (mkNetConf "layer3" "10.1.0.0/16" 1400 true)
             ({[ "ns/b"%string ]} ∪ ∅)))),
     [RLock; AskGetNetwork "p"; RUnlock]).
Proof.
  refine (active_network_is_declared_primary sampleParse sampleParse_named
            (λ _, ListFailed "unavailable") "ns/b" "ns" "b" "p"
            (mkNetInfo "p" (mkNetConf "layer3" "10.1.0.0/16" 1400 true)
               ({[ "ns/b"%string ]} ∪ ∅))
            twoDeclarations twoDeclarations_reachable _ _ _ _ _).
  - discriminate.
  - reflexivity.
  - vm_compute. reflexivity.
  - vm_compute. reflexivity.
  - reflexivity.
Defined.

End NADExtra.

(** * Further properties of the load balancer reconciler *)

Module LBExtra.
Import Loadbalancer LBTheory.

(** *** Attachment snapshots *)

(** The inner loop of a listing: the row's name is added to the set of
    every load balancer the row lists. *)
Lemma foldl_attach_lookup (name : string) (lbs : list string)
    (m : gmap string (gset string)) (u : string) :
  foldl (λ m lbUUID, <[ lbUUID := default ∅ (m !! lbUUID) ∪ {[ name ]} ]> m) m lbs !! u
  = if decide (u ∈ lbs) then Some (default ∅ (m !! u) ∪ {[ name ]}) else m !! u.
Proof.
  revert m. induction lbs as [|u0 lbs IH]; intros m; cbn [foldl].
  { by rewrite decide_False by apply not_elem_of_nil. }
  rewrite IH. destruct (decide (u = u0)) as [->|Hne].
  - rewrite lookup_insert_eq. rewrite (decide_True (P := u0 ∈ u0 :: lbs))
      by apply list_elem_of_here.
    destruct (decide (u0 ∈ lbs)); [|done]. cbn [from_option id]. f_equal.
    by rewrite <- (assoc_L (∪)), (idemp_L (∪)).
  - rewrite lookup_insert_ne by done.
    destruct (decide (u ∈ lbs)) as [Hin|Hnin].
    + rewrite decide_True; [done|]. by apply list_elem_of_further.
    + rewrite decide_False; [done|]. rewrite elem_of_cons. tauto.
Qed.

(** The body of the loop of a listing. *)
Local Abbreviation listStep :=
  (λ (acc : gmap string (gset string) * gmap string string) (row : Target),
     let '(lbToNames, nameToUUID) := acc in
     if decide (targetName row = EmptyString) then (lbToNames, nameToUUID)
     else
       (foldl (λ m lbUUID,
                 <[ lbUUID := default ∅ (m !! lbUUID) ∪ {[ targetName row ]} ]> m)
              lbToNames (targetLoadBalancer row),
        <[ targetName row := targetUUID row ]> nameToUUID)).

Lemma foldl_listRows_names rows acc u name :
  name ∈ default ∅
    ((foldl listStep acc rows).1 !! u) ↔
  name ∈ default ∅ (acc.1 !! u) ∨
  (name ≠ EmptyString ∧
   ∃ row, row ∈ rows ∧ targetName row = name ∧ u ∈ targetLoadBalancer row).
Proof.
  revert acc. induction rows as [|r rows IH]; intros [lbToNames nameToUUID]; cbn [foldl].
  { split; [by left|]. intros [?|(_ & row & H & _)]; [done|]. by apply elem_of_nil in H. }
  rewrite IH. clear IH. destruct (decide (targetName r = EmptyString)) as [Hr|Hr]; cbn [fst].
  - split.
    + intros [?|(Hn & row & Hin & Hname & Hu)]; [by left|right].
      split; [done|]. exists row. split; [by apply list_elem_of_further|done].
    + intros [?|(Hn & row & Hin & Hname & Hu)]; [by left|right].
      split; [done|]. exists row. split; [|done].
      apply elem_of_cons in Hin as [->|Hin]; [congruence|done].
  - rewrite foldl_attach_lookup. split.
    + intros [Hin|(Hn & row & Hin & Hname & Hu)].
      * destruct (decide (u ∈ targetLoadBalancer r)) as [Hu|Hu]; [|by left].
        cbn [from_option id] in Hin. apply elem_of_union in Hin as [Hin|Hin]; [by left|right].
        apply elem_of_singleton in Hin as ->. split; [done|].
        exists r. split; [apply list_elem_of_here|done].
      * right. split; [done|]. exists row. split; [by apply list_elem_of_further|done].
    + intros [Hin|(Hn & row & Hin & Hname & Hu)].
      * left. destruct (decide (u ∈ targetLoadBalancer r)); [|done].
        cbn [from_option id]. by apply elem_of_union_l.
      * apply elem_of_cons in Hin as [->|Hin].
        -- left. rewrite decide_True by done. cbn [from_option id].
           apply elem_of_union_r, elem_of_singleton. done.
        -- right. split; [done|]. by exists row.
Qed.

Lemma foldl_listRows_uuid rows acc name :
  (foldl listStep acc rows).2 !! name
  = if decide (name = EmptyString) then acc.2 !! name
    else
      match last (filter (λ row, targetName row = name) rows) with
      | Some row => Some (targetUUID row)
      | None => acc.2 !! name
      end.
Proof.
  revert acc. induction rows as [|r rows IH]; intros [lbToNames nameToUUID]; cbn [foldl].
  { by destruct (decide _). }
  rewrite IH. clear IH. destruct (decide (name = EmptyString)) as [->|Hname].
  - destruct (decide (targetName r = EmptyString)) as [Hr|Hr]; cbn [snd]; [done|].
    by rewrite lookup_insert_ne.
  - destruct (decide (targetName r = name)) as [Hr|Hr].
    + rewrite filter_cons_True by done. rewrite last_cons.
      rewrite decide_False by congruence. cbn [snd]. rewrite <- Hr, lookup_insert_eq.
      by destruct (last _).
    + rewrite filter_cons_False by done.
      destruct (decide (targetName r = EmptyString)); cbn [snd]; [done|].
      by rewrite lookup_insert_ne.
Qed.

(** X14: what a listing of switches, routers or groups yields: a load
    balancer UUID is mapped to the names of the named rows that list it,
    rows without a name being skipped, and a name is mapped to the UUID of
    the last row that has it. *)
Theorem listRows_spec rows :
  (∀ u name,
     name ∈ default ∅ ((listRows rows).1 !! u) ↔
     name ≠ EmptyString ∧
     ∃ row, row ∈ rows ∧ targetName row = name ∧ u ∈ targetLoadBalancer row) ∧
  (∀ u, (listRows rows).1 !! u ≠ Some ∅) ∧
  (∀ name,
     (listRows rows).2 !! name
     = if decide (name = EmptyString) then None
       else targetUUID <$> last (filter (λ row, targetName row = name) rows)).
Proof.
  split; [|split].
  - intros u name. unfold listRows. rewrite foldl_listRows_names.
    cbn [fst]. rewrite lookup_empty. cbn [from_option id]. rewrite elem_of_empty. tauto.
  - intros u. unfold listRows.
    assert (∀ rows' acc,
              (∀ u, acc.1 !! u ≠ Some ∅) →
              (foldl listStep acc rows').1 !! u ≠ Some (∅ : gset string)) as Hgen.
    { induction rows' as [|r rows' IH]; intros [lbToNames nameToUUID] Hacc; cbn [foldl].
      { apply Hacc. }
      apply IH. intros u'. destruct (decide (targetName r = EmptyString)); cbn [fst].
      { apply Hacc. }
      rewrite foldl_attach_lookup. destruct (decide (u' ∈ targetLoadBalancer r)).
      - intros [= Hempty].
        assert (targetName r ∈ (∅ : gset string)) as Hin
          by (rewrite <- Hempty; apply elem_of_union_r, elem_of_singleton; done).
        by apply not_elem_of_empty in Hin.
      - apply Hacc. }
    apply Hgen. intros u'. cbn [fst]. by rewrite lookup_empty.
  - intros name. unfold listRows. rewrite foldl_listRows_uuid. cbn [snd].
    rewrite lookup_empty. destruct (decide _); [done|]. by destruct (last _).
Qed.

(** *** The rows, the attachments and the deletions of a transaction *)

Lemma filter_none {A} (P : A → Prop) `{∀ x, Decision (P x)} (l : list A) :
  (∀ x, x ∈ l → ¬ P x) → filter P l = [].
Proof.
  induction l as [|a l IH]; intros Hall; [done|].
  rewrite filter_cons_False by (apply Hall, list_elem_of_here).
  apply IH. intros x Hx. by apply Hall, list_elem_of_further.
Qed.

Lemma filter_unique {A B} `{EqDecision B} (f : A → B) (l : list A) (e : A) :
  NoDup (f <$> l) → e ∈ l → filter (λ x, f x = f e) l = [e].
Proof.
  induction l as [|a l IH]; [by intros _ ?%elem_of_nil|].
  rewrite fmap_cons, NoDup_cons. intros [Ha Hl] Hin.
  apply elem_of_cons in Hin as [->|Hin].
  - rewrite filter_cons_True by done. f_equal. apply filter_none.
    intros x Hx Hfx. apply Ha. rewrite <- Hfx. by apply list_elem_of_fmap_2.
  - rewrite filter_cons_False; [by apply IH|].
    intros Hfa. apply Ha. rewrite Hfa. by apply list_elem_of_fmap_2.
Qed.

(** Among rows with distinct names the name map holds every row, under
    its name. *)
Lemma indexExisting_unique existing e :
  NoDup (lbName <$> existing) → e ∈ existing →
  (indexExisting existing).1 !! lbName e = Some e.
Proof.
  intros Hnames He. rewrite indexExisting_lookup.
  by rewrite (filter_unique lbName existing e Hnames He).
Qed.

Section Reconciling.

Variable Addr_String : Addr → string.
Variable ToLower : string → string.

Local Abbreviation buildVipMap := (buildVipMap Addr_String).
Local Abbreviation buildLB := (buildLB Addr_String ToLower).
Local Abbreviation rowFor := (rowFor Addr_String ToLower).
Local Abbreviation planLB := (planLB Addr_String ToLower).
Local Abbreviation planLBs := (planLBs Addr_String ToLower).
Local Abbreviation EnsureLBs := (EnsureLBs Addr_String ToLower).

(** X15: the VIP map built from a list of rules holds, for a source
    address, the comma-joined targets of the last rule with that source:
    an earlier rule with the same source is dropped. *)
Theorem buildVipMap_last_rule rules vip :
  buildVipMap rules !! vip
  = (λ r, String.concat ","%string (Addr_String <$> elemsOf (Targets r)))
      <$> last (filter (λ r, Addr_String (Source r) = vip) (elemsOf rules)).
Proof.
  unfold Loadbalancer.buildVipMap.
  induction (elemsOf rules) as [|r l IH] using rev_ind; [done|].
  rewrite foldl_app, filter_app. cbn [foldl].
  destruct (decide (Addr_String (Source r) = vip)) as [Hr|Hr].
  - rewrite filter_cons_True, filter_nil by done. rewrite last_snoc.
    rewrite <- Hr. by rewrite lookup_insert_eq.
  - rewrite filter_cons_False, filter_nil by done.
    rewrite lookup_insert_ne by done. by rewrite app_nil_r.
Qed.

Section Loop.

Variable existingByName : gmap string LoadBalancer.
Variables lbToSwitchNames lbToRouterNames lbToGroupNames : gmap string (gset string).

Local Abbreviation step :=
  (planLB existingByName lbToSwitchNames lbToRouterNames lbToGroupNames).

(** The rows to update and the rows to create, in the order of the
    desired load balancers. *)
Lemma foldl_planLB_rows LBs p :
  existinglbs (foldl step p LBs)
  = existinglbs p
    ++ omap (λ lb, (λ e, setUUID (lbUUID e) (buildLB lb)) <$> existingByName !! Name lb) LBs ∧
  newlbs (foldl step p LBs)
  = newlbs p ++ (buildLB <$> filter (λ lb, existingByName !! Name lb = None) LBs).
Proof.
  induction LBs as [|lb LBs IH] using rev_ind.
  { cbn [foldl omap list_omap fmap list_fmap]. rewrite filter_nil.
    by rewrite !app_nil_r. }
  destruct IH as [IHe IHn].
  rewrite foldl_app. cbn [foldl]. rewrite planLB_unfold. cbn [existinglbs newlbs].
  rewrite omap_app, filter_app, fmap_app, IHe, IHn. cbn [omap list_omap].
  destruct (existingByName !! Name lb) as [e|] eqn:He.
  - rewrite filter_cons_False, filter_nil by (rewrite He; done).
    cbn [fmap option_fmap option_map list_fmap]. rewrite !app_nil_r.
    split; [|done]. by rewrite (assoc_L (++)).
  - rewrite filter_cons_True, filter_nil by done.
    cbn [fmap option_fmap option_map list_fmap]. rewrite !app_nil_r.
    split; [done|]. by rewrite (assoc_L (++)).
Qed.

(** A difference map after the loop, read at a target: the rows of the
    desired load balancers that have the target in their difference, in
    the order of the list, after what the map held. *)
Lemma foldl_planLB_difference (f : Plan → gmap string (list LoadBalancer))
    (keyIn keyNotIn : LB → gset string) (row : LB → LoadBalancer) :
  (∀ p lb, f (step p lb)
           = mapLBDifferenceByKey (f p) (keyIn lb) (keyNotIn lb) (row lb)) →
  ∀ LBs p target,
    f (foldl step p LBs) !! target
    = if decide (filter (λ lb, target ∈ keyIn lb ∖ keyNotIn lb) LBs = [])
      then f p !! target
      else Some (default [] (f p !! target)
                 ++ (row <$> filter (λ lb, target ∈ keyIn lb ∖ keyNotIn lb) LBs)).
Proof.
  intros Hstep LBs p target.
  induction LBs as [|lb LBs IH] using rev_ind.
  { rewrite filter_nil. by rewrite decide_True. }
  rewrite foldl_app. cbn [foldl]. rewrite Hstep, mapLBDifferenceByKey_lookup.
  unfold appended. rewrite filter_app, IH.
  destruct (decide (target ∈ keyIn lb ∖ keyNotIn lb)) as [Hin|Hnin].
  - rewrite filter_cons_True, filter_nil by done.
    rewrite (decide_False (P := _ ++ [lb] = [])) by (by intros [_ ?]%app_eq_nil).
    rewrite fmap_app. cbn [fmap list_fmap]. f_equal.
    destruct (decide (filter _ LBs = [])) as [->|Hne].
    + done.
    + cbn [from_option id]. by rewrite (assoc_L (++)).
  - rewrite filter_cons_False, filter_nil by done. by rewrite app_nil_r.
Qed.

End Loop.

(** X16: the rows EnsureLBs writes: one update per desired load balancer
    whose name is in the name map of the existing rows, under that row's
    UUID, and one creation per other desired load balancer, each in the
    order of the desired list; together as many as the desired load
    balancers, so desired load balancers that share a name are neither
    merged nor rejected. *)
Theorem rows_written_in_order existing s r g LBs :
  let byName := (indexExisting existing).1 in
  let p := planLBs existing s r g LBs in
  existinglbs p
  = omap (λ lb, (λ e, setUUID (lbUUID e) (buildLB lb)) <$> byName !! Name lb) LBs ∧
  newlbs p = buildLB <$> filter (λ lb, byName !! Name lb = None) LBs ∧
  length (existinglbs p) + length (newlbs p) = length LBs.
Proof.
  cbv zeta. rewrite planLBs_unfold.
  destruct (foldl_planLB_rows (indexExisting existing).1 s r g LBs
              (emptyPlan (indexExisting existing).2)) as [-> ->].
  cbn [emptyPlan existinglbs newlbs app]. split; [done|]. split; [done|].
  rewrite length_fmap. clear. induction LBs as [|lb LBs IH]; [done|].
  cbn [omap list_omap length].
  destruct ((indexExisting existing).1 !! Name lb) as [e|] eqn:He.
  - rewrite filter_cons_False by (rewrite He; done).
    cbn [fmap option_fmap option_map length]. by rewrite <- IH.
  - rewrite filter_cons_True by done.
    cbn [fmap option_fmap option_map length]. rewrite <- IH. lia.
Qed.

(** X17: the six attachment maps after the whole loop, read at a target
    name: the rows of the desired load balancers that want the target and
    whose same-named existing row is not attached to it (the additions),
    or whose same-named existing row is attached to the target that they
    do not want (the removals), in the order of the desired list; no entry
    when there is no such load balancer. *)
Theorem attachments_of_the_plan existing s r g LBs target :
  let byName := (indexExisting existing).1 in
  let p := planLBs existing s r g LBs in
  let rows (keyIn keyNotIn : LB → gset string) : option (list LoadBalancer) :=
    if decide (filter (λ lb, target ∈ keyIn lb ∖ keyNotIn lb) LBs = []) then None
    else Some ((λ lb, rowFor (byName !! Name lb) lb)
                 <$> filter (λ lb, target ∈ keyIn lb ∖ keyNotIn lb) LBs) in
  addLBsToSwitch p !! target
  = rows (λ lb, wanted (Switches lb)) (λ lb, attachedTo s (byName !! Name lb)) ∧
  removeLBsFromSwitch p !! target
  = rows (λ lb, attachedTo s (byName !! Name lb)) (λ lb, wanted (Switches lb)) ∧
  addLBsToRouter p !! target
  = rows (λ lb, wanted (Routers lb)) (λ lb, attachedTo r (byName !! Name lb)) ∧
  removesLBsFromRouter p !! target
  = rows (λ lb, attachedTo r (byName !! Name lb)) (λ lb, wanted (Routers lb)) ∧
  addLBsToGroups p !! target
  = rows (λ lb, wanted (Groups lb)) (λ lb, attachedTo g (byName !! Name lb)) ∧
  removeLBsFromGroups p !! target
  = rows (λ lb, attachedTo g (byName !! Name lb)) (λ lb, wanted (Groups lb)).
Proof.
  cbv zeta. rewrite planLBs_unfold.
  repeat split.
  all: rewrite (foldl_planLB_difference (indexExisting existing).1 s r g _ _ _
                  (λ lb, rowFor ((indexExisting existing).1 !! Name lb) lb))
         by (intros p lb; by rewrite planLB_unfold).
  all: cbn [emptyPlan addLBsToSwitch removeLBsFromSwitch addLBsToRouter
            removesLBsFromRouter addLBsToGroups removeLBsFromGroups].
  all: rewrite lookup_empty; by destruct (decide _).
Qed.

Ltac operation_cases :=
  repeat match goal with
    | H : _ ∨ _ |- _ => destruct H
    | H : _ ∈ attachmentOps _ _ _ |- _ =>
        apply attachmentOps_shape in H as (? & ? & ?)
    | H : _ ∈ _ <$> _ |- _ => apply list_elem_of_fmap in H as (? & ? & ?)
    end;
  try discriminate.

(** A deletion of the transaction deletes a row by a UUID that is pending
    deletion. *)
Lemma planOps_delete_shape sn rn gn p x :
  OpDeleteLoadBalancer x ∈ planOps sn rn gn p →
  ∃ u, x = rowOfUUID u ∧ u ∈ toDelete p.
Proof.
  unfold planOps. rewrite !elem_of_app. intros H. operation_cases.
  match goal with
  | Heq : OpDeleteLoadBalancer x = _, Hin : _ ∈ elements _ |- _ =>
      cbn in Heq; injection Heq as ->; apply elem_of_elements in Hin; eauto
  end.
Qed.

Lemma attachmentOps_empty op nameToUUID : attachmentOps op nameToUUID ∅ = [].
Proof. unfold attachmentOps. by rewrite map_to_list_empty. Qed.

(** The loop does not read the UUID of a desired load balancer. *)
Lemma planLB_clearUUID existingByName s r g p lb :
  planLB existingByName s r g p (clearUUID lb) = planLB existingByName s r g p lb.
Proof. by rewrite !planLB_unfold. Qed.

Lemma planLBs_clearUUID existing s r g LBs :
  planLBs existing s r g (clearUUID <$> LBs) = planLBs existing s r g LBs.
Proof.
  rewrite !planLBs_unfold. generalize (emptyPlan (indexExisting existing).2).
  induction LBs as [|lb LBs IH]; intros p; [done|].
  cbn [fmap list_fmap foldl]. rewrite planLB_clearUUID. apply IH.
Qed.

(** X18: when the rows under the tag have distinct UUIDs and distinct
    names, the transaction deletes exactly the stale rows: the rows under
    the tag whose name no desired load balancer has, each by its UUID, and
    nothing else. *)
Theorem stale_rows_deleted nbClient externalIDs LBs ops :
  let existing := FindLoadBalancersByExternalIDs nbClient externalIDs in
  NoDup (lbUUID <$> existing) →
  NoDup (lbName <$> existing) →
  EnsureLBs nbClient externalIDs LBs = Some ops →
  ∀ x,
    OpDeleteLoadBalancer x ∈ ops ↔
    ∃ row, row ∈ existing ∧ x = rowOfUUID (lbUUID row) ∧
           ∀ lb, lb ∈ LBs → Name lb ≠ lbName row.
Proof.
  cbv zeta. intros Huuids Hnames Hops x.
  apply EnsureLBs_Some in Hops as (s & sn & r & rn & g & gn & ->).
  set (existing := FindLoadBalancersByExternalIDs nbClient externalIDs) in *.
  split.
  - intros (u & -> & Hu)%planOps_delete_shape.
    rewrite planLBs_unfold in Hu. apply foldl_planLB_toDelete in Hu as [Hu Hall].
    cbn [emptyPlan toDelete] in Hu. apply indexExisting_toDelete in Hu.
    apply list_elem_of_fmap in Hu as (row & -> & Hrow).
    exists row. split; [done|]. split; [done|]. intros lb Hlb Hname.
    apply (Hall lb row Hlb); [|done].
    rewrite Hname. by apply indexExisting_unique.
  - intros (row & Hrow & -> & Hstale). apply planOps_delete.
    rewrite planLBs_unfold. apply foldl_planLB_toDelete. split.
    + cbn [emptyPlan toDelete]. apply indexExisting_toDelete.
      by apply list_elem_of_fmap_2.
    + intros lb e Hlb He Heq. apply indexExisting_row in He as [He Hname].
      assert (e = row) as ->
        by exact (NoDup_fmap_elem_inj lbUUID existing e row Huuids He Hrow Heq).
      by apply (Hstale lb).
Qed.

(** X19: in the steady state, where the rows under the tag have distinct
    names and every desired load balancer has a same-named row attached
    to exactly the switches, routers and groups it wants, the transaction
    is one update per desired load balancer, in order, followed by
    deletions: it creates nothing and changes no attachment. *)
Theorem steady_state_only_updates nbClient externalIDs LBs s sn r rn g gn :
  let existing := FindLoadBalancersByExternalIDs nbClient externalIDs in
  let byName := (indexExisting existing).1 in
  listSwitches nbClient = Some (s, sn) →
  listRouters nbClient = Some (r, rn) →
  listGroups nbClient = Some (g, gn) →
  NoDup (lbName <$> existing) →
  (∀ lb, lb ∈ LBs →
     ∃ e, e ∈ existing ∧ lbName e = Name lb ∧
          wanted (Switches lb) = default ∅ (s !! lbUUID e) ∧
          wanted (Routers lb) = default ∅ (r !! lbUUID e) ∧
          wanted (Groups lb) = default ∅ (g !! lbUUID e)) →
  ∃ deleted,
    EnsureLBs nbClient externalIDs LBs
    = Some ((OpUpdateLoadBalancer
               <$> ((λ lb, rowFor (byName !! Name lb) lb) <$> LBs))
            ++ (OpDeleteLoadBalancer ∘ rowOfUUID <$> deleted)).
Proof.
  cbv zeta. intros Hs Hr Hg Hnames Hsteady.
  set (existing := FindLoadBalancersByExternalIDs nbClient externalIDs) in *.
  set (byName := (indexExisting existing).1).
  assert (Hentry : ∀ lb, lb ∈ LBs →
            ∃ e, byName !! Name lb = Some e ∧
                 wanted (Switches lb) = attachedTo s (byName !! Name lb) ∧
                 wanted (Routers lb) = attachedTo r (byName !! Name lb) ∧
                 wanted (Groups lb) = attachedTo g (byName !! Name lb)).
  { intros lb Hlb. destruct (Hsteady lb Hlb) as (e & He & Hname & Hws & Hwr & Hwg).
    exists e. unfold byName. rewrite <- Hname.
    rewrite (indexExisting_unique existing e Hnames He). done. }
  assert (Hnone : ∀ (keyIn keyNotIn : LB → gset string) target,
            (∀ lb, lb ∈ LBs → keyIn lb = keyNotIn lb) →
            filter (λ lb, target ∈ keyIn lb ∖ keyNotIn lb) LBs = []).
  { intros keyIn keyNotIn target Heq. apply filter_none. intros lb Hlb.
    rewrite (Heq lb Hlb), elem_of_difference. tauto. }
  assert (Hempty : ∀ (f : Plan → gmap string (list LoadBalancer)) keyIn keyNotIn,
            (∀ p lb, f (planLB byName s r g p lb)
                     = mapLBDifferenceByKey (f p) (keyIn lb) (keyNotIn lb)
                         (rowFor (byName !! Name lb) lb)) →
            f (emptyPlan (indexExisting existing).2) = ∅ →
            (∀ lb, lb ∈ LBs → keyIn lb = keyNotIn lb) →
            f (planLBs existing s r g LBs) = ∅).
  { intros f keyIn keyNotIn Hstep Hf Heq. apply map_eq. intros target.
    rewrite planLBs_unfold.
    rewrite (foldl_planLB_difference byName s r g f keyIn keyNotIn _ Hstep).
    rewrite Hnone by done. rewrite decide_True by done. by rewrite Hf. }
  exists (elements (toDelete (planLBs existing s r g LBs))).
  unfold Loadbalancer.EnsureLBs. rewrite Hs, Hr, Hg. cbn [mbind option_bind].
  f_equal. unfold planOps. fold existing.
  rewrite (Hempty addLBsToSwitch (λ lb, wanted (Switches lb))
             (λ lb, attachedTo s (byName !! Name lb)));
    [|by intros; rewrite planLB_unfold|done
     |by intros lb Hlb; destruct (Hentry lb Hlb) as (? & ? & ? & ? & ?)].
  rewrite (Hempty removeLBsFromSwitch (λ lb, attachedTo s (byName !! Name lb))
             (λ lb, wanted (Switches lb)));
    [|by intros; rewrite planLB_unfold|done
     |by intros lb Hlb; destruct (Hentry lb Hlb) as (? & ? & ? & ? & ?)].
  rewrite (Hempty addLBsToRouter (λ lb, wanted (Routers lb))
             (λ lb, attachedTo r (byName !! Name lb)));
    [|by intros; rewrite planLB_unfold|done
     |by intros lb Hlb; destruct (Hentry lb Hlb) as (? & ? & ? & ? & ?)].
  rewrite (Hempty removesLBsFromRouter (λ lb, attachedTo r (byName !! Name lb))
             (λ lb, wanted (Routers lb)));
    [|by intros; rewrite planLB_unfold|done
     |by intros lb Hlb; destruct (Hentry lb Hlb) as (? & ? & ? & ? & ?)].
  rewrite (Hempty addLBsToGroups (λ lb, wanted (Groups lb))
             (λ lb, attachedTo g (byName !! Name lb)));
    [|by intros; rewrite planLB_unfold|done
     |by intros lb Hlb; destruct (Hentry lb Hlb) as (? & ? & ? & ? & ?)].
  rewrite (Hempty removeLBsFromGroups (λ lb, attachedTo g (byName !! Name lb))
             (λ lb, wanted (Groups lb)));
    [|by intros; rewrite planLB_unfold|done
     |by intros lb Hlb; destruct (Hentry lb Hlb) as (? & ? & ? & ? & ?)].
  rewrite !attachmentOps_empty. cbn [app].
  rewrite planLBs_unfold. fold byName.
  destruct (foldl_planLB_rows byName s r g LBs (emptyPlan (indexExisting existing).2))
    as [-> ->].
  cbn [emptyPlan existinglbs newlbs app].
  assert (omap (λ lb, (λ e, setUUID (lbUUID e) (buildLB lb)) <$> byName !! Name lb) LBs
          = (λ lb, rowFor (byName !! Name lb) lb) <$> LBs
          ∧ filter (λ lb, byName !! Name lb = None) LBs = []) as [-> ->].
  { clear -Hentry. induction LBs as [|lb LBs IH]; [done|].
    destruct (Hentry lb) as (e & He & _); [apply list_elem_of_here|].
    destruct IH as [IH1 IH2].
    { intros lb' Hlb'. apply Hentry. by apply list_elem_of_further. }
    cbn [omap list_omap fmap list_fmap].
    rewrite filter_cons_False by (rewrite He; done). rewrite IH1, IH2.
    by rewrite He. }
  done.
Qed.

(** X20: two desired lists that LoadBalancersEqualNoUUID finds equal
    lead EnsureLBs to the same transaction against the same store: the UUID
    a desired load balancer carries is never read. *)
Theorem equal_lists_same_transaction nbClient externalIDs lbs1 lbs2 :
  LoadBalancersEqualNoUUID lbs1 lbs2 = true →
  EnsureLBs nbClient externalIDs lbs1 = EnsureLBs nbClient externalIDs lbs2.
Proof.
  unfold LoadBalancersEqualNoUUID.
  destruct (decide (length lbs1 ≠ length lbs2)) as [|Hlen]; [done|].
  apply dec_stable in Hlen. rewrite bool_decide_eq_true, Hlen.
  intros Heq%app_inv_head.
  unfold Loadbalancer.EnsureLBs.
  destruct (listSwitches nbClient) as [[s sn]|]; [|done].
  destruct (listRouters nbClient) as [[r rn]|]; [|done].
  destruct (listGroups nbClient) as [[g gn]|]; [|done].
  cbn [mbind option_bind]. f_equal. f_equal.
  rewrite <- (planLBs_clearUUID _ s r g lbs1), <- (planLBs_clearUUID _ s r g lbs2).
  by rewrite Heq.
Qed.

End Reconciling.

(** ** Closed instances *)

Lemma stale_rows_deleted_witness :
  OpDeleteLoadBalancer (rowOfUUID "UUID1")
  ∈ default [] (EnsureLBs hostPort toLowerASCII storeA ownerTag [desired "B" []]).
Proof.
  refine (proj2 (stale_rows_deleted hostPort toLowerASCII storeA ownerTag
                   [desired "B" []]
                   (default [] (EnsureLBs hostPort toLowerASCII storeA ownerTag
                                  [desired "B" []]))
                   _ _ _ (rowOfUUID "UUID1")) _).
  - apply (bool_decide_unpack _). vm_compute. exact I.
  - apply (bool_decide_unpack _). vm_compute. exact I.
  - vm_compute. reflexivity.
  - exists (taggedRow "UUID1" "A"). split; [|split].
    + apply (bool_decide_unpack _). vm_compute. exact I.
    + reflexivity.
    + intros lb Hlb. apply list_elem_of_singleton in Hlb as ->. discriminate.
Defined.

Lemma steady_state_only_updates_witness :
  ∃ deleted,
    EnsureLBs hostPort toLowerASCII storeA ownerTag [desired "A" ["s1"%string]]
    = Some ((OpUpdateLoadBalancer
               <$> ((λ lb, rowFor hostPort toLowerASCII
                             ((indexExisting
                                 (FindLoadBalancersByExternalIDs storeA ownerTag)).1
                              !! Name lb) lb)
                      <$> [desired "A" ["s1"%string]]))
            ++ (OpDeleteLoadBalancer ∘ rowOfUUID <$> deleted)).
Proof.
  refine (steady_state_only_updates hostPort toLowerASCII storeA ownerTag
            [desired "A" ["s1"%string]]
            (listRows [mkTarget "switch-1" "s1" ["UUID1"%string]]).1
            (listRows [mkTarget "switch-1" "s1" ["UUID1"%string]]).2
            ∅ ∅ ∅ ∅ _ _ _ _ _).
  - vm_compute. reflexivity.
  - vm_compute. reflexivity.
  - vm_compute. reflexivity.
  - apply (bool_decide_unpack _). vm_compute. exact I.
  - intros lb Hlb. apply list_elem_of_singleton in Hlb as ->.
    exists (taggedRow "UUID1" "A"). split; [|split; [|split; [|split]]].
    + apply (bool_decide_unpack _). vm_compute. exact I.
    + reflexivity.
    + vm_compute. reflexivity.
    + vm_compute. reflexivity.
    + vm_compute. reflexivity.
Defined.

Lemma equal_lists_same_transaction_witness :
  EnsureLBs hostPort toLowerASCII storeA ownerTag [desired "A" ["s1"%string]]
  = EnsureLBs hostPort toLowerASCII storeA ownerTag
      [withUUID "UUID9" (desired "A" ["s1"%string])].
Proof.
  refine (equal_lists_same_transaction hostPort toLowerASCII storeA ownerTag
            [desired "A" ["s1"%string]]
            [withUUID "UUID9" (desired "A" ["s1"%string])] _).
  vm_compute. reflexivity.
Defined.

End LBExtra.

(** * Properties of the meter band rows *)

Module NbdbTheory.
Import Loadbalancer Nbdb.

Lemma copy_entries (entries : gmap string string) :
  map_fold (λ k v b, <[ k := v ]> b) ∅ entries = entries.
Proof.
  apply (map_fold_weak_ind (λ r m, r = m)); [done|].
  intros k v m r _ ->. done.
Qed.

Lemma copyMeterBandExternalIDs_id a : copyMeterBandExternalIDs a = a.
Proof. destruct a as [|entries]; [done|]. cbn. by rewrite copy_entries. Qed.

Lemma all_entries_found (a b : gmap string string) :
  map_fold (λ k v ok, ok && bool_decide (b !! k = Some v)) true a = true ↔ a ⊆ b.
Proof.
  apply (map_fold_weak_ind (λ r m, r = true ↔ m ⊆ b)).
  - split; [intros _; apply map_empty_subseteq|done].
  - intros k v m r Hk IH. rewrite andb_true_iff, bool_decide_eq_true, IH.
    split.
    + intros [Hm Hb]. by apply insert_subseteq_l.
    + intros Hsub. split.
      * etrans; [by apply insert_subseteq|done].
      * eapply lookup_weaken; [apply lookup_insert_eq|done].
Qed.

Lemma equalMeterBandExternalIDs_iff a b :
  equalMeterBandExternalIDs a b = true ↔ a = b.
Proof.
  assert (∀ ea eb : gmap string string,
            (if decide (size ea ≠ size eb) then false
             else map_fold (λ k v ok, ok && bool_decide (eb !! k = Some v)) true ea)
            = true ↔ ea = eb) as Hmaps.
  { intros ea eb. destruct (decide (size ea ≠ size eb)) as [Hsize|Hsize].
    - split; [done|]. intros ->. done.
    - apply dec_stable in Hsize. rewrite all_entries_found. split.
      + intros Hsub. apply map_subseteq_size_eq; [done|lia].
      + by intros ->. }
  destruct a as [|ea], b as [|eb]; cbn [equalMeterBandExternalIDs entriesOf].
  - split; [done|]. intros _. rewrite decide_False by (intros H; by apply H).
    by rewrite map_fold_empty.
  - done.
  - done.
  - rewrite Hmaps. split; [by intros ->|by intros [= ->]].
Qed.

(** X21: [Equals] on meter bands is equality of all five fields, the
    external IDs compared as Go maps: a nil map equals only nil, and two
    maps are equal when they hold the same entries. *)
Theorem Equals_iff a b : Equals a b = true ↔ a = b.
Proof.
  unfold Equals. rewrite !andb_true_iff, !bool_decide_eq_true,
    equalMeterBandExternalIDs_iff.
  destruct a, b; cbn. split.
  - intros ((((-> & ->) & ->) & ->) & ->). done.
  - intros [= -> -> -> -> ->]. done.
Qed.

(** X22: a deep copy of a meter band has the fields of the original, a
    nil map of external IDs staying nil and any other map being rebuilt
    entry by entry, so that [Equals] holds between the original and its
    copy, in both directions. *)
Theorem DeepCopy_equal a :
  DeepCopy a = a ∧ Equals a (DeepCopy a) = true ∧ Equals (DeepCopy a) a = true.
Proof.
  assert (DeepCopy a = a) as Hcopy.
  { unfold DeepCopy, DeepCopyInto. rewrite copyMeterBandExternalIDs_id. by destruct a. }
  rewrite Hcopy. split; [done|].
  assert (Equals a a = true) as Hrefl.
  { unfold Equals. rewrite !andb_true_iff, !bool_decide_eq_true,
      equalMeterBandExternalIDs_iff. done. }
  done.
Qed.

End NbdbTheory.

(** * Properties of the earlier NAD controller *)

Module LegacyTheory.
Import NAD LegacyNAD.

Section Sync.

Context {NetworkAttachmentDefinition : Type}.
Variable ParseNADInfo : NetworkAttachmentDefinition → option NetInfo.

(** X23: in the earlier controller, when the only key referencing a
    network re-declares it with another configuration, the sync succeeds
    and the manager is told to delete the network and to ensure the new
    one, but the new network is not put in the registry: the key stays
    bound to a name the registry does not have, so that syncing the
    deletion of the key afterwards makes no call at all, and the manager is
    never told to delete the network it was told to ensure. *)
Theorem recreated_network_is_forgotten key d n cur c :
  ParseNADInfo d = Some n →
  GetNetworkName n ≠ EmptyString →
  networks c !! EmptyString = None →
  nads c !! key = Some (GetNetworkName n) →
  networks c !! GetNetworkName n = Some cur →
  GetNetworkName cur = GetNetworkName n →
  netConf cur ≠ netConf n →
  GetNADs cur ⊆ {[ key ]} →
  let r1 := syncNAD ParseNADInfo key (Some d) c in
  let r2 := syncNAD ParseNADInfo key None (after r1) in
  failure r1 = None ∧
  calls r1 = [CallDeleteNetwork (GetNetworkName n); CallEnsureNetwork (AddNADs key n)] ∧
  nads (after r1) !! key = Some (GetNetworkName n) ∧
  networks (after r1) !! GetNetworkName n = None ∧
  failure r2 = None ∧ calls r2 = [] ∧ nads (after r2) !! key = None.
Proof.
  intros Hparse Hn Hnamed Hbound Hcur Hname Hconf Hall. cbv zeta.
  assert (GetNADs (DeleteNADs key cur) = ∅) as Hempty.
  { apply set_eq. intros k. unfold GetNADs, DeleteNADs in *. cbn [netNADs].
    rewrite elem_of_difference. split; [|by intros ?%not_elem_of_empty].
    intros [Hk Hkne]. exfalso. apply Hkne. by apply Hall. }
  assert (syncNAD ParseNADInfo key (Some d) c
          = mkResult
              (mkNADController
                 (delete (GetNetworkName n)
                    (<[ GetNetworkName n := DeleteNADs key cur ]> (networks c)))
                 (<[ key := GetNetworkName n ]> (nads c)))
              [CallDeleteNetwork (GetNetworkName n); CallEnsureNetwork (AddNADs key n)]
              None) as ->.
  { unfold syncNAD. rewrite Hparse. unfold syncParsed. cbn [from_option].
    rewrite (zeroLookup_Some _ _ _ Hbound), decide_False by (intros H; by apply H).
    unfold resolve. rewrite Hcur. unfold Equals.
    rewrite bool_decide_eq_false_2 by done. rewrite decide_True by done.
    cbn [fmap option_fmap option_map]. unfold detachOld.
    rewrite decide_True by done. by rewrite Hname. }
  cbn [after calls failure nads networks].
  split; [done|]. split; [done|]. split; [apply lookup_insert_eq|].
  split; [apply lookup_delete_eq|].
  unfold syncNAD, syncParsed. cbn [from_option nads networks].
  rewrite zeroLookup_insert_eq.
  rewrite decide_True by done. rewrite lookup_delete_eq.
  cbn [fmap option_fmap option_map]. unfold resolve.
  rewrite lookup_delete_ne, lookup_insert_ne, Hnamed by done.
  cbn [from_option fmap option_fmap option_map detachOld after calls failure nads].
  split; [done|]. split; [done|]. apply lookup_delete_eq.
Qed.

End Sync.

Lemma recreated_network_is_forgotten_witness :
  let c := after (syncNAD sampleParse "ns/a" (Some (layer3 "n1" "10.0.0.0/16" false))
                    newNADController) in
  let r1 := syncNAD sampleParse "ns/a" (Some (layer3 "n1" "10.9.0.0/16" false)) c in
  let r2 := syncNAD sampleParse "ns/a" None (after r1) in
  failure r1 = None ∧
  calls r1
  = [CallDeleteNetwork "n1";
     CallEnsureNetwork
       (AddNADs "ns/a" (mkNetInfo "n1" (mkNetConf "layer3" "10.9.0.0/16" 1400 false) ∅))] ∧
  nads (after r1) !! "ns/a"%string = Some "n1"%string ∧
  networks (after r1) !! "n1"%string = None ∧
  failure r2 = None ∧ calls r2 = [] ∧ nads (after r2) !! "ns/a"%string = None.
Proof.
  refine (recreated_network_is_forgotten sampleParse "ns/a"
            (layer3 "n1" "10.9.0.0/16" false)
            (mkNetInfo "n1" (mkNetConf "layer3" "10.9.0.0/16" 1400 false) ∅)
            (mkNetInfo "n1" (mkNetConf "layer3" "10.0.0.0/16" 1400 false)
               ({[ "ns/a"%string ]} ∪ ∅))
            (after (syncNAD sampleParse "ns/a"
                      (Some (layer3 "n1" "10.0.0.0/16" false)) newNADController))
            _ _ _ _ _ _ _ _).
  - vm_compute. reflexivity.
  - discriminate.
  - vm_compute. reflexivity.
  - vm_compute. reflexivity.
  - vm_compute. reflexivity.
  - reflexivity.
  - discriminate.
  - apply (bool_decide_unpack _). vm_compute. exact I.
Defined.

End LegacyTheory.
